(** * FAQ matching and triage engine: a shallow embedding

    The development follows the Python sources

    - [mcp_server/claude_reasoning_engine.py]  (relevance scorer, file
      matcher, answer extractor),
    - [faq_content_manager.py]                 (knowledge base and its
      rendering as one text block; the file parser, the loader and the
      summaries),
    - [faq_mcp_server.py]                      ([handle_query],
      [list_available_faqs], [reload_faqs] and the dispatch of the tools),
    - [mcp_server/analytics_logger.py]         (deduplicator, triage
      classifiers, backlog writes; the interaction log and the file
      statistics),
    - [database_models.py]                     (the rows of the backlog,
      of the interaction log and of the file statistics).

    Modelling conventions.

    - Texts are ASCII.  A Python [str] is a [string], and the character
      classes used by the code ([\w], [\s], [str.lower], [str.title]) are
      given on the ASCII range; a character above 127, which an ASCII text
      does not have, counts as caseless, as no word character and as no
      white space.
    - A Python [float] score is an exact rational ([Q]): a quotient of two
      counts, the bonus [0.3] and the thresholds [0.5], [0.6], [0.7], [0.8]
      are the rationals they denote.  Where a score is printed,
      [f"{x:.2f}"] prints the double nearest to the rational ([binary64]),
      which is the double Python holds (see [PyNum.fmt_2f]).
    - A Python [set] of strings is a [gset string]; a [dict] whose
      iteration order matters is an association list.
    - [None] is [None]; a caught exception is a value of a sum type. *)

From Stdlib Require Import Ascii String QArith Qminmax.
From stdpp Require Import gmap strings list pretty.

(** ** Python string primitives *)

Module PyStr.

Definition chr (n : nat) : ascii := Ascii.ascii_of_nat n.
Definition ord (c : ascii) : nat := Ascii.nat_of_ascii c.

Definition between (lo hi : nat) (c : ascii) : bool :=
  (lo <=? ord c)%nat && (ord c <=? hi)%nat.

Definition is_upper (c : ascii) : bool := between 65 90 c.
Definition is_lower (c : ascii) : bool := between 97 122 c.
Definition is_digit (c : ascii) : bool := between 48 57 c.
Definition is_alpha (c : ascii) : bool := is_upper c || is_lower c.

(** [\w]: letters, digits and the underscore. *)
Definition is_word (c : ascii) : bool :=
  is_alpha c || is_digit c || (ord c =? 95)%nat.

(** [\s] and [str.isspace]: TAB, LF, VT, FF, CR, the separators
    FS, GS, RS, US, and the blank. *)
Definition is_space (c : ascii) : bool :=
  between 9 13 c || between 28 31 c || (ord c =? 32)%nat.

Definition lower_char (c : ascii) : ascii :=
  if is_upper c then chr (ord c + 32) else c.
Definition upper_char (c : ascii) : ascii :=
  if is_lower c then chr (ord c - 32) else c.

Fixpoint smap (f : ascii → ascii) (s : string) : string :=
  match s with
  | EmptyString => EmptyString
  | String c s' => String (f c) (smap f s')
  end.

(** [s.lower()] *)
Definition lower (s : string) : string := smap lower_char s.

Fixpoint sall (p : ascii → bool) (s : string) : bool :=
  match s with
  | EmptyString => true
  | String c s' => p c && sall p s'
  end.

Fixpoint srev_onto (s acc : string) : string :=
  match s with
  | EmptyString => acc
  | String c s' => srev_onto s' (String c acc)
  end.
Definition srev (s : string) : string := srev_onto s EmptyString.

Fixpoint sdrop (n : nat) (s : string) : string :=
  match n, s with
  | S k, String _ s' => sdrop k s'
  | _, _ => s
  end.

(** [s.startswith(p)] *)
Fixpoint startswith (p s : string) : bool :=
  match p, s with
  | EmptyString, _ => true
  | String a p', String b s' => Ascii.eqb a b && startswith p' s'
  | String _ _, EmptyString => false
  end.

(** [p in s] *)
Fixpoint contains (p s : string) : bool :=
  startswith p s ||
  match s with
  | EmptyString => false
  | String _ s' => contains p s'
  end.

(** [s.endswith(p)] *)
Definition endswith (p s : string) : bool := startswith (srev p) (srev s).

Fixpoint lstrip (s : string) : string :=
  match s with
  | EmptyString => EmptyString
  | String c s' => if is_space c then lstrip s' else s
  end.
Definition rstrip (s : string) : string := srev (lstrip (srev s)).
(** [s.strip()] *)
Definition strip (s : string) : string := rstrip (lstrip s).

(** [re.findall(r"\b\w+\b", s)]: the maximal runs of word characters,
    from left to right.  [run] is the run being read, most recent
    character first. *)
Fixpoint findall_words_from (run : string) (s : string) : list string :=
  match s with
  | EmptyString =>
      match run with EmptyString => [] | _ => [srev run] end
  | String c s' =>
      if is_word c then findall_words_from (String c run) s'
      else match run with
           | EmptyString => findall_words_from EmptyString s'
           | _ => srev run :: findall_words_from EmptyString s'
           end
  end.
Definition findall_words (s : string) : list string :=
  findall_words_from EmptyString s.

(** [s.split(sep)] for a non-empty separator: the pieces between the
    non-overlapping occurrences of [sep], scanning from the left.
    [skip] counts the characters of a separator still to be passed,
    [piece] is the piece being read, most recent character first. *)
Fixpoint split_from (sep : string) (skip : nat) (piece : string)
    (s : string) : list string :=
  match s with
  | EmptyString => [srev piece]
  | String c s' =>
      match skip with
      | S k => split_from sep k piece s'
      | O =>
          if startswith sep s
          then srev piece :: split_from sep (String.length sep - 1) EmptyString s'
          else split_from sep 0 (String c piece) s'
      end
  end.
Definition split (sep s : string) : list string :=
  split_from sep 0 EmptyString s.

(** [s.split(sep, 1)]: at most one cut, at the first occurrence. *)
Fixpoint split1_from (sep : string) (piece : string) (s : string)
    : list string :=
  match s with
  | EmptyString => [srev piece]
  | String c s' =>
      if startswith sep s
      then [srev piece; sdrop (String.length sep) s]
      else split1_from sep (String c piece) s'
  end.
Definition split1 (sep s : string) : list string :=
  split1_from sep EmptyString s.

(** [s.split()]: the maximal runs of characters that are not white. *)
Fixpoint split_ws_from (run : string) (s : string) : list string :=
  match s with
  | EmptyString =>
      match run with EmptyString => [] | _ => [srev run] end
  | String c s' =>
      if is_space c
      then match run with
           | EmptyString => split_ws_from EmptyString s'
           | _ => srev run :: split_ws_from EmptyString s'
           end
      else split_ws_from (String c run) s'
  end.
Definition split_ws (s : string) : list string :=
  split_ws_from EmptyString s.

(** [sep.join(l)] *)
Fixpoint join (sep : string) (l : list string) : string :=
  match l with
  | [] => EmptyString
  | [x] => x
  | x :: rest => x +:+ sep +:+ join sep rest
  end.

(** [s.replace(old, new)] for a non-empty [old]. *)
Fixpoint replace_from (old new : string) (skip : nat) (s : string) : string :=
  match s with
  | EmptyString => EmptyString
  | String c s' =>
      match skip with
      | S k => replace_from old new k s'
      | O =>
          if startswith old s
          then new +:+ replace_from old new (String.length old - 1) s'
          else String c (replace_from old new 0 s')
      end
  end.
Definition replace (old new s : string) : string := replace_from old new 0 s.

(** [s.title()]: a letter is put in upper case when the character
    before it is not a letter, and in lower case otherwise. *)
Fixpoint title_from (prev_cased : bool) (s : string) : string :=
  match s with
  | EmptyString => EmptyString
  | String c s' =>
      if is_alpha c
      then String (if prev_cased then lower_char c else upper_char c)
                  (title_from true s')
      else String c (title_from false s')
  end.
Definition title (s : string) : string := title_from false s.

(** The line feed, which a string literal cannot spell. *)
Definition LF : string := String (chr 10) EmptyString.

(** [l[1:]] *)
Definition from1 {A} (l : list A) : list A := tail l.

(** [str(n)] for a natural number. *)
Definition str_of_nat (n : nat) : string := pretty n.

(** Truth value of a string: non-empty. *)
Definition truthy (s : string) : bool :=
  match s with EmptyString => false | _ => true end.

End PyStr.

(** ** Python numbers *)

Module PyNum.

(** [len(...)] taken as a number in a division. *)
Definition of_len (n : nat) : Q := inject_Z (Z.of_nat n).

(** [a > b] on scores. *)
Definition Qgtb (a b : Q) : bool := negb (Qle_bool a b).

(** The nearest integer, an exact half going to the even neighbour. *)
Definition round_half_even (x : Q) : Z :=
  let n := Qnum x in
  let d := Zpos (Qden x) in
  let q := (n / d)%Z in
  let r := (n mod d)%Z in
  if (2 * r <? d)%Z then q
  else if (d <? 2 * r)%Z then (q + 1)%Z
  else if Z.even q then q else (q + 1)%Z.

(** [x * 2 ^ e]. *)
Definition scale2 (x : Q) (e : Z) : Q :=
  if (0 <=? e)%Z then (Qnum x * 2 ^ e) # Qden x
  else Qnum x # (Qden x * Z.to_pos (2 ^ (- e))).

(** The double nearest to [x], ties to the even significand: the 53-bit
    significand [m] and the exponent [- e] with [2 ^ 52 <= m <= 2 ^ 53].
    The range of the exponent is not modelled; a score lies in [[0, 1]]
    and is zero or at least the inverse of a count of words. *)
Definition binary64 (x : Q) : Q :=
  if (Qnum x =? 0)%Z then 0%Q
  else
    let a := Z.abs (Qnum x) # Qden x in
    let e0 := (52 - (Z.log2 (Qnum a) - Z.log2 (Zpos (Qden a))))%Z in
    let e := if Qle_bool (inject_Z (2 ^ 52)) (scale2 a e0)
             then e0 else (e0 + 1)%Z in
    let m := round_half_even (scale2 a e) in
    scale2 (inject_Z (Z.sgn (Qnum x) * m)) (- e).

(** The float sum and the float quotient: the exact result, rounded. *)
Definition float_add (a b : Q) : Q := binary64 (a + b).
Definition float_div (a b : Q) : Q := binary64 (a / b).

Definition two_digits (n : Z) : string :=
  (if (n <? 10)%Z then "0" else EmptyString) +:+ pretty n.

(** [f"{x:.2f}"] of the non-negative score [x].  Python prints the value
    of the double it holds, to two decimals, the nearest value, an exact
    half going to the even neighbour.  The double is the one nearest to
    the rational score: [1/40] is held as a double just above 0.025 and
    is printed [0.03], where the rational would give [0.02].

    Without the bonus the double is the quotient of the two counts,
    which is the nearest one.  With the bonus it is
    [min((k / n) + 0.3, 1.0)], computed in two roundings; there the query
    occurs in the content as a phrase, so that of its [n] tokens all but
    the first and the last are tokens of the content, [k >= n - 2]: from
    seven tokens on both values are 1, and below the two roundings print
    as the nearest double does ([shown_with_bonus]). *)
Definition two_decimals (x : Q) : string :=
  let h := round_half_even (x * 100) in
  pretty (h / 100)%Z +:+ "." +:+ two_digits (h mod 100)%Z.

Definition fmt_2f (x : Q) : string := two_decimals (binary64 x).

(** The score as Python computes it from the counts [k] and [n]. *)
Definition float_score (bonus : bool) (k n : nat) : Q :=
  let score := float_div (of_len k) (of_len n) in
  if bonus then Qmin (float_add score (binary64 (3 # 10))) 1 else score.

End PyNum.

(** ** The reasoning engine ([claude_reasoning_engine.py]) *)

Module ReasoningEngine.
Import PyStr PyNum.

Definition word_set (s : string) : gset string :=
  list_to_set (findall_words (lower s)).

(** [_calculate_relevance_score] *)
Definition _calculate_relevance_score (query content : string) : Q :=
  let query_words := word_set query in
  let content_words := word_set content in
  if bool_decide (query_words = ∅) then 0%Q
  else
    let overlap := size (query_words ∩ content_words) in
    let score := (of_len overlap / of_len (size query_words))%Q in
    let score :=
      if contains (lower query) (lower content)
      then (score + (3 # 10))%Q else score in
    Qmin score 1.

(** *** Answer extractor *)

(** The variables of the line loop of [_extract_best_answer]. *)
Record ParseState := {
  qa_pairs : list (string * string);
  current_question : string;
  current_answer : string
}.

Definition parse_init : ParseState :=
  {| qa_pairs := []; current_question := EmptyString; current_answer := EmptyString |}.

(** [line.split(":", 1)[1]]; the index exists whenever [":" in line]. *)
Definition after_colon (line : string) : string :=
  default EmptyString (split1 ":" line !! 1%nat).

(** [qa_pairs.append(...)] guarded by [current_answer and current_question]. *)
Definition save_pair (st : ParseState) : list (string * string) :=
  if truthy (current_answer st) && truthy (current_question st)
  then qa_pairs st ++ [(current_question st, current_answer st)]
  else qa_pairs st.

(** One turn of [for line in content_lines]. *)
Definition parse_line (st : ParseState) (line : string) : ParseState :=
  let line := strip line in
  if startswith "Q" line && contains ":" line then
    {| qa_pairs := save_pair st;
       current_question := strip (after_colon line);
       current_answer := EmptyString |}
  else if startswith "A" line && contains ":" line then
    {| qa_pairs := qa_pairs st;
       current_question := current_question st;
       current_answer := strip (after_colon line) |}
  else if truthy (current_answer st) && truthy line && negb (startswith "Q" line) then
    {| qa_pairs := qa_pairs st;
       current_question := current_question st;
       current_answer := current_answer st +:+ " " +:+ line |}
  else st.

Definition parse_qa (content_lines : list string) : list (string * string) :=
  save_pair (foldl parse_line parse_init content_lines).

(** The variables of the selection loop: [best_answer], [best_score]. *)
Definition pick_step (query : string) (st : option string * Q)
    (qa : string * string) : option string * Q :=
  let score := _calculate_relevance_score (lower query) (lower qa.1) in
  if Qgtb score st.2 then (Some qa.2, score) else st.

Definition pick_best (query : string) (pairs : list (string * string))
    : option string * Q :=
  foldl (pick_step query) (None, 0%Q) pairs.

(** [_extract_best_answer] *)
Definition _extract_best_answer (content_lines : list string)
    (query : string) : option string :=
  let pairs := parse_qa content_lines in
  match pairs with
  | [] => None
  | first :: _ =>
      match (pick_best query pairs).1 with
      | Some a => if truthy a then Some a else Some first.2
      | None => Some first.2
      end
  end.

(** *** File matcher *)

(** [re.search(r"\(([^)]+\.txt)\)", header)], group 1.  A match opens at
    a ["("]; the class [[^)]+] can only stop at the first [")"] after it,
    so the text between the two must end in [".txt"] with at least one
    character before it.  The leftmost such ["("] is taken. *)
Fixpoint until_close (s : string) : string * string :=
  match s with
  | EmptyString => (EmptyString, EmptyString)
  | String c s' =>
      if Ascii.eqb c ")" then (EmptyString, s)
      else let '(run, rest) := until_close s' in (String c run, rest)
  end.

Definition filename_here (after_open : string) : option string :=
  let '(run, rest) := until_close after_open in
  if startswith ")" rest && endswith ".txt" run && (5 <=? String.length run)%nat
  then Some run else None.

Fixpoint search_filename (header : string) : option string :=
  match header with
  | EmptyString => None
  | String c s' =>
      if Ascii.eqb c "("
      then match filename_here s' with
           | Some f => Some f
           | None => search_filename s'
           end
      else search_filename s'
  end.

Inductive DecisionKind := ANSWER | NO_ANSWER.
Inductive Relevance := high | medium | low.

(** The variables [best_match_file], [best_match_score], [best_answer],
    [reasoning] of the section loop of [_simulate_claude_analysis]. *)
Record Scan := {
  v_best_match_file : option string;
  v_best_match_score : Q;
  v_best_answer : option string;
  v_reasoning : string
}.

Definition scan_init : Scan :=
  {| v_best_match_file := None; v_best_match_score := 0;
     v_best_answer := None; v_reasoning := EmptyString |}.

(** One turn of [for section in file_sections[1:]]; a [continue] leaves
    the variables as they are. *)
Definition scan_section (query_lower : string) (st : Scan)
    (section : string) : Scan :=
  if negb (truthy (strip section)) then st
  else
    let lines := split LF section in
    match lines with
    | [] => st
    | header :: _ =>
        match search_filename header with
        | None => st
        | Some filename =>
            let section_content := lower (join LF (from1 lines)) in
            let score := _calculate_relevance_score query_lower section_content in
            if Qgtb score (v_best_match_score st) then
              {| v_best_match_file := Some filename;
                 v_best_match_score := score;
                 v_best_answer := _extract_best_answer (from1 lines) query_lower;
                 v_reasoning := "Found relevant content in " +:+ filename
                              +:+ " with score " +:+ fmt_2f score |}
            else st
        end
    end.

(** The dictionary returned by the analysis. *)
Record Analysis := {
  analysis : string;
  best_match_file : option string;
  relevance_score : Relevance;
  decision : DecisionKind;
  answer : option string
}.

(** [_simulate_claude_analysis] *)
Definition _simulate_claude_analysis (query faq_content : string) : Analysis :=
  let query_lower := lower query in
  let file_sections := split "=== " faq_content in
  let st := foldl (scan_section query_lower) scan_init (from1 file_sections) in
  if Qgtb (v_best_match_score st) (1 # 2) then
    {| analysis := v_reasoning st;
       best_match_file := v_best_match_file st;
       relevance_score :=
         if Qgtb (v_best_match_score st) (8 # 10) then high
         else if Qgtb (v_best_match_score st) (6 # 10) then medium else low;
       decision := ANSWER;
       answer := v_best_answer st |}
  else
    {| analysis := "No sufficiently relevant content found. Best score was "
                   +:+ fmt_2f (v_best_match_score st)
                   +:+ ", required minimum is 0.5";
       best_match_file := v_best_match_file st;
       relevance_score := low;
       decision := NO_ANSWER;
       answer := None |}.

(** [analyze_query_against_faqs] *)
Definition analyze_query_against_faqs (query faq_content : string) : Analysis :=
  _simulate_claude_analysis query faq_content.

(** [format_reasoning_for_user]; [str(None)] is ["None"]. *)
Definition format_reasoning_for_user (r : Analysis) : string :=
  match decision r with
  | ANSWER =>
      "Found relevant information in "
      +:+ default "None" (best_match_file r)
      +:+ " (relevance: "
      +:+ match relevance_score r with
          | high => "high" | medium => "medium" | low => "low"
          end
      +:+ "). " +:+ analysis r
  | NO_ANSWER =>
      "Could not find sufficiently relevant content. " +:+ analysis r
  end.

End ReasoningEngine.

(** ** The knowledge base ([faq_content_manager.py]) *)

Module ContentManager.
Import PyStr.

(** A [{"question": ..., "answer": ...}] dictionary. *)
Record Entry := { question : string; answer : string }.

(** [faq_content]: file name to entries, in insertion order. *)
Definition KnowledgeBase := list (string * list Entry).

(** [load_all_faqs], given what [_parse_faq_file] yields for each file of
    the directory: a file without entries is not entered. *)
Definition load_all_faqs (parsed : list (string * list Entry)) : KnowledgeBase :=
  List.filter (λ f, match f.2 with [] => false | _ => true end) parsed.

(** The two lines appended for entry number [i]. *)
Definition entry_lines (i : nat) (qa : Entry) : list string :=
  [ LF +:+ "Q" +:+ str_of_nat i +:+ ": " +:+ question qa;
    "A" +:+ str_of_nat i +:+ ": " +:+ answer qa ].

(** [for i, qa in enumerate(qa_pairs, 1)] *)
Fixpoint entries_lines (i : nat) (qa_pairs : list Entry) : list string :=
  match qa_pairs with
  | [] => []
  | qa :: rest => entry_lines i qa ++ entries_lines (S i) rest
  end.

Definition file_lines (f : string * list Entry) : list string :=
  let filename := f.1 in
  let file_title := title (replace "_" " " (replace ".txt" EmptyString filename)) in
  (LF +:+ "=== " +:+ file_title +:+ " (" +:+ filename +:+ ") ===")
  :: entries_lines 1 f.2.

(** [get_structured_content_for_claude], on loaded content. *)
Definition get_structured_content_for_claude (kb : KnowledgeBase) : string :=
  join LF (concat (map file_lines kb)).

End ContentManager.

(** ** The request handler ([faq_mcp_server.py]) *)

Module Server.
Import PyStr ReasoningEngine ContentManager.

(** What the directory holds when [load_all_faqs] runs: the parsed files,
    or an exception raised while listing it. *)
Inductive Disk :=
| Readable (parsed : list (string * list Entry))
| Unreadable (err : string).

(** What a call leaves behind, in order: log lines, a reload of the
    content, an analysis by the reasoning engine. *)
Inductive Event :=
| Logged (msg : string)
| Reloaded
| Analyzed (query faq_content : string).

(** The dictionary returned by [handle_query], without its
    [processing_time]. *)
Inductive Response :=
| Error (message : string)
| Success (answer : option string) (source_file : option string)
          (reasoning : string)
| NoAnswer (message reasoning : string).

Fixpoint stake (n : nat) (s : string) : string :=
  match n, s with
  | S k, String c s' => String c (stake k s')
  | _, _ => EmptyString
  end.

Definition log (msg : string) : Event := Logged ("[FAQ-Server] " +:+ msg).

Definition no_answer_message : string :=
  "I cannot answer this question based on the available FAQ content. Please contact customer support for assistance.".

(** The part of [handle_query] after the content is known to be there. *)
Definition answer_from (kb : KnowledgeBase) (query : string)
    : Response * list Event :=
  let faq_content := get_structured_content_for_claude kb in
  let analysis_result := analyze_query_against_faqs query faq_content in
  match decision analysis_result with
  | ANSWER =>
      (Success (ReasoningEngine.answer analysis_result)
               (best_match_file analysis_result)
               (format_reasoning_for_user analysis_result),
       [Analyzed query faq_content;
        log ("Query answered successfully from "
             +:+ default "None" (best_match_file analysis_result))])
  | NO_ANSWER =>
      (NoAnswer no_answer_message (format_reasoning_for_user analysis_result),
       [Analyzed query faq_content;
        log "Query could not be answered - no relevant content found"])
  end.

(** [handle_query]: the response, the content held afterwards, and the
    events of the call. *)
Definition handle_query (disk : Disk) (kb : KnowledgeBase) (query : string)
    : Response * KnowledgeBase * list Event :=
  if negb (truthy query) || negb (truthy (strip query)) then
    (Error "Query cannot be empty", kb, [])
  else
    let started := log ("Processing query: " +:+ stake 100 query +:+ "...") in
    match kb with
    | _ :: _ =>
        let '(resp, evs) := answer_from kb query in
        (resp, kb, started :: evs)
    | [] =>
        match disk with
        | Unreadable err =>
            let error_msg := "Error processing query: " +:+ err in
            (Error error_msg, [], [started; Reloaded; log error_msg])
        | Readable parsed =>
            let kb' := load_all_faqs parsed in
            match kb' with
            | [] => (Error "No FAQ content available", kb', [started; Reloaded])
            | _ :: _ =>
                let '(resp, evs) := answer_from kb' query in
                (resp, kb', started :: Reloaded :: evs)
            end
        end
    end.

End Server.

(** ** The backlog ([database_models.py], [analytics_logger.py]) *)

Module AnalyticsLogger.
Import PyStr PyNum.

(** A row of [unanswered_questions]; time stamps are instants counted
    from some origin. *)
Record UnansweredQuestion := {
  id : nat;
  question : string;
  frequency : Z;
  first_asked : Z;
  last_asked : Z;
  status : string;
  priority : string;
  assigned_to : option nat;
  category : option string;
  tags : option (list string);
  suggested_faq_file : option string;
  draft_answer : option string;
  resolution_notes : option string;
  business_impact : string;
  estimated_resolution_time : option Z;
  actual_resolution_time : option Z;
  created_at : Z;
  updated_at : Z
}.

(** The database as the logger sees it: the table, and whether a read
    or a commit raises (with the exception text). *)
Record Database := {
  rows : list UnansweredQuestion;
  read_fault : option string;
  commit_fault : option string
}.

Fixpoint sfilter (p : ascii → bool) (s : string) : string :=
  match s with
  | EmptyString => EmptyString
  | String c s' => if p c then String c (sfilter p s') else sfilter p s'
  end.

(** Kept by [re.sub] with the pattern [[^a-zA-Z0-9\s]], which deletes
    every other character. *)
Definition kept (c : ascii) : bool := is_alpha c || is_digit c || is_space c.

(** [_normalize_text] *)
Definition _normalize_text (text : string) : string :=
  let normalized := sfilter kept (lower text) in
  join " " (split_ws normalized).

Definition norm_words (text : string) : gset string :=
  list_to_set (split_ws (_normalize_text text)).

(** The body of [for existing in existing_questions]: does it return
    [existing]? *)
Definition similar_enough (question_words : gset string)
    (existing : UnansweredQuestion) : bool :=
  let existing_words := norm_words (question existing) in
  let intersection := size (question_words ∩ existing_words) in
  let union := size (question_words ∪ existing_words) in
  if (0 <? union)%nat then
    let similarity := (of_len intersection / of_len union)%Q in
    Qgtb similarity (7 # 10)
  else false.

Fixpoint first_similar (question_words : gset string)
    (existing_questions : list UnansweredQuestion)
    : option UnansweredQuestion :=
  match existing_questions with
  | [] => None
  | existing :: rest =>
      if similar_enough question_words existing then Some existing
      else first_similar question_words rest
  end.

(** [status.in_(["pending", "in_progress"])] *)
Definition is_open (q : UnansweredQuestion) : bool :=
  String.eqb (status q) "pending" || String.eqb (status q) "in_progress".

(** [_find_similar_question]: the value returned and the lines written
    to the error log. *)
Definition _find_similar_question (db : Database) (question_text : string)
    : option UnansweredQuestion * list string :=
  match read_fault db with
  | Some e => (None, ["Failed to find similar questions: " +:+ e])
  | None =>
      let existing_questions := List.filter is_open (rows db) in
      let question_words := norm_words question_text in
      (first_similar question_words existing_questions, [])
  end.

(** [any(keyword in question_lower for keyword in keywords)] *)
Definition any_keyword (keywords : list string) (question_lower : string) : bool :=
  existsb (λ keyword, contains keyword question_lower) keywords.

Definition urgent_keywords : list string :=
  ["urgent"; "emergency"; "critical"; "broken"; "down"; "error"; "failed"; "crash"].
Definition high_keywords : list string :=
  ["billing"; "payment"; "subscription"; "account"; "login"; "access"; "security"].
Definition medium_keywords : list string :=
  ["device"; "sync"; "connection"; "setup"; "install"; "update"].

(** [_calculate_priority] *)
Definition _calculate_priority (question_text : string) : string :=
  let question_lower := lower question_text in
  if any_keyword urgent_keywords question_lower then "urgent"
  else if any_keyword high_keywords question_lower then "high"
  else if any_keyword medium_keywords question_lower then "medium"
  else "low".

Definition categories : list (string * list string) :=
  [ ("account_management",
     ["account"; "profile"; "login"; "password"; "signup"; "register"]);
    ("billing_payments",
     ["billing"; "payment"; "subscription"; "plan"; "charge"; "invoice"]);
    ("technical_issues",
     ["error"; "bug"; "broken"; "fix"; "issue"; "problem"; "crash"]);
    ("device_setup", ["device"; "setup"; "install"; "connect"; "sync"; "pair"]);
    ("mobile_app", ["app"; "mobile"; "android"; "ios"; "phone"]);
    ("privacy_security", ["privacy"; "security"; "data"; "encryption"; "safe"]);
    ("general", []) ].

Fixpoint first_category (cats : list (string * list string))
    (question_lower : string) : string :=
  match cats with
  | [] => "general"
  | (category, keywords) :: rest =>
      if any_keyword keywords question_lower then category
      else first_category rest question_lower
  end.

(** [_categorize_question] *)
Definition _categorize_question (question_text : string) : string :=
  first_category categories (lower question_text).

(** The update branch: [frequency += 1], [last_asked = datetime.now()]. *)
Definition bump (similar_question : UnansweredQuestion) (now : Z)
    : UnansweredQuestion :=
  {| id := id similar_question;
     question := question similar_question;
     frequency := frequency similar_question + 1;
     first_asked := first_asked similar_question;
     last_asked := now;
     status := status similar_question;
     priority := priority similar_question;
     assigned_to := assigned_to similar_question;
     category := category similar_question;
     tags := tags similar_question;
     suggested_faq_file := suggested_faq_file similar_question;
     draft_answer := draft_answer similar_question;
     resolution_notes := resolution_notes similar_question;
     business_impact := business_impact similar_question;
     estimated_resolution_time := estimated_resolution_time similar_question;
     actual_resolution_time := actual_resolution_time similar_question;
     created_at := created_at similar_question;
     updated_at := updated_at similar_question |}.

(** What the flush of an update adds: the column [updated_at] carries
    [onupdate=func.now()]. *)
Definition touch (db_now : Z) (q : UnansweredQuestion) : UnansweredQuestion :=
  {| id := id q;
     question := question q;
     frequency := frequency q;
     first_asked := first_asked q;
     last_asked := last_asked q;
     status := status q;
     priority := priority q;
     assigned_to := assigned_to q;
     category := category q;
     tags := tags q;
     suggested_faq_file := suggested_faq_file q;
     draft_answer := draft_answer q;
     resolution_notes := resolution_notes q;
     business_impact := business_impact q;
     estimated_resolution_time := estimated_resolution_time q;
     actual_resolution_time := actual_resolution_time q;
     created_at := created_at q;
     updated_at := db_now |}.

(** [session.merge(obj)] followed by the commit: the row with the
    primary key of [obj] takes the state of [obj]. *)
Definition merge_row (db_now : Z) (obj : UnansweredQuestion)
    (table : list UnansweredQuestion) : list UnansweredQuestion :=
  map (λ r, if (id r =? id obj)%nat then touch db_now obj else r) table.

(** The next value of the [autoincrement] key. *)
Definition next_id (table : list UnansweredQuestion) : nat :=
  S (foldr (λ r m, Nat.max (id r) m) 0%nat table).

(** The row inserted for a new question; the columns not given take
    their declared defaults. *)
Definition new_row (table : list UnansweredQuestion) (db_now : Z)
    (question_text priority category : string) : UnansweredQuestion :=
  {| id := next_id table;
     question := question_text;
     frequency := 1;
     first_asked := db_now;
     last_asked := db_now;
     status := "pending";
     priority := priority;
     assigned_to := None;
     category := Some category;
     tags := None;
     suggested_faq_file := None;
     draft_answer := None;
     resolution_notes := None;
     business_impact := "medium";
     estimated_resolution_time := None;
     actual_resolution_time := None;
     created_at := db_now;
     updated_at := db_now |}.

(** Calls to the classifiers and to the logger made by a run. *)
Inductive Trace :=
| ErrorLog (msg : string)
| InfoLog (msg : string)
| Called_calculate_priority (question_text : string)
| Called_categorize_question (question_text : string).

(** [log_unanswered_question]: the boolean returned, the database
    afterwards, the trace.  [question_text] is the value of
    [question_data] at the key [question] (the empty text without it),
    [now] is [datetime.now()], [db_now] the server's [now()]. *)
Definition log_unanswered_question (db : Database) (now db_now : Z)
    (question_text : string) : bool * Database * list Trace :=
  let '(similar_question, errs) := _find_similar_question db question_text in
  let tr := map ErrorLog errs in
  let '(table, tr) :=
    match similar_question with
    | Some similar_question =>
        let obj := bump similar_question now in
        (merge_row db_now obj (rows db),
         (tr ++ [InfoLog ("Updated frequency for similar question: "
                          +:+ str_of_nat (id obj))]))
    | None =>
        let priority := _calculate_priority question_text in
        let category := _categorize_question question_text in
        (rows db ++ [new_row (rows db) db_now question_text priority category],
         (tr ++ [Called_calculate_priority question_text;
                 Called_categorize_question question_text;
                 InfoLog "Created new unanswered question entry"]))
    end in
  match commit_fault db with
  | Some e =>
      (false, db,
       (tr ++ [ErrorLog ("Failed to log unanswered question: " +:+ e)]))
  | None =>
      (true,
       {| rows := table; read_fault := read_fault db;
          commit_fault := commit_fault db |},
       tr)
  end.

End AnalyticsLogger.

(** ** Reading the files ([faq_content_manager.py]) *)

Module ContentLoader.
Import PyStr ContentManager.

(** [re.sub(r"\s+", " ", s)]: every maximal run of white space becomes
    one blank.  [in_run] tells that the character before was white. *)
Fixpoint sub_ws (in_run : bool) (s : string) : string :=
  match s with
  | EmptyString => EmptyString
  | String c s' =>
      if is_space c
      then if in_run then sub_ws true s' else String " " (sub_ws true s')
      else String c (sub_ws false s')
  end.

(** [_clean_text] *)
Definition _clean_text (text : string) : string := sub_ws false (strip text).

(** The pattern [Q:\s*(.*?)\s*A:\s*(.*?)(?=Q:|$)] under [re.DOTALL] and
    [re.IGNORECASE], read as the backtracking matcher runs it.

    [label letter s]: the text [s] begins with the letter, in either
    case, and a colon. *)
Definition label (letter : ascii) (s : string) : bool :=
  match s with
  | String c (String d _) => Ascii.eqb (lower_char c) letter && Ascii.eqb d ":"
  | _ => false
  end.

(** [(.*?)\s*A:]: the lazy group grows by one character at a time until
    white space and the answer label follow; the greedy [\s*] before the
    label takes the whole run of white space, a shorter run being
    followed by white space and not by the label.  The value is the
    group and the text after the label; none when no label follows. *)
Fixpoint until_a (s : string) : option (string * string) :=
  if label "a" (lstrip s) then Some (EmptyString, sdrop 2 (lstrip s))
  else match s with
       | EmptyString => None
       | String c s' =>
           match until_a s' with
           | Some (group, rest) => Some (String c group, rest)
           | None => None
           end
       end.

(** [$] without [re.MULTILINE]: at the end of the text, or before a line
    feed that ends it. *)
Definition at_end (s : string) : bool :=
  match s with
  | EmptyString => true
  | String c EmptyString => Ascii.eqb c (chr 10)
  | _ => false
  end.

(** [(.*?)(?=Q:|$)]: the lazy group grows until a question label or the
    end follows; the value is the group and the text from there on. *)
Fixpoint until_q (s : string) : string * string :=
  if label "q" s || at_end s then (EmptyString, s)
  else match s with
       | EmptyString => (EmptyString, EmptyString)
       | String c s' => let '(group, rest) := until_q s' in (String c group, rest)
       end.

(** A match that begins at the first character of [s]: the two groups and
    the text after the match. *)
Definition match_here (s : string) : option (string * string * string) :=
  if label "q" s then
    match until_a (lstrip (sdrop 2 s)) with
    | Some (question, after_label) =>
        let '(answer, rest) := until_q (lstrip after_label) in
        Some (question, answer, rest)
    | None => None
    end
  else None.

(** [re.findall]: the matches from left to right, each search beginning
    where the match before ended.  [skip] counts the characters of a
    match still to be passed. *)
Fixpoint findall_qa_from (skip : nat) (s : string) : list (string * string) :=
  match s with
  | EmptyString => []
  | String _ s' =>
      match skip with
      | S k => findall_qa_from k s'
      | O =>
          match match_here s with
          | Some (question, answer, rest) =>
              (question, answer)
              :: findall_qa_from (String.length s - String.length rest - 1) s'
          | None => findall_qa_from 0 s'
          end
      end
  end.
Definition findall_qa (content : string) : list (string * string) :=
  findall_qa_from 0 content.

(** The body of [for question, answer in matches]. *)
Definition cleaned_entry (m : string * string) : option Entry :=
  let question := _clean_text m.1 in
  let answer := _clean_text m.2 in
  if truthy question && truthy answer
  then Some {| question := question; answer := answer |}
  else None.

(** [_parse_faq_file], on the text [file.read()] returns. *)
Definition _parse_faq_file (content : string) : list Entry :=
  omap cleaned_entry (findall_qa content).

(** The [*.txt] files of the directory, in the order [glob] lists them:
    the name and the text read, or none when opening or decoding the file
    raises. *)
Definition Directory := list (string * option string).

(** The [try] of the loop of [load_all_faqs]: an exception leaves the
    file out, as a file without entries is left out. *)
Definition parse_files (dir : Directory) : list (string * list Entry) :=
  map (λ f, (f.1, match f.2 with
                  | Some content => _parse_faq_file content
                  | None => []
                  end)) dir.

(** [load_all_faqs], from the directory. *)
Definition load_directory (dir : Directory) : KnowledgeBase :=
  load_all_faqs (parse_files dir).

(** [_count_total_qas] *)
Definition _count_total_qas (kb : KnowledgeBase) : nat :=
  sum_list (map (λ f, length f.2) kb).

(** [get_file_summary] *)
Definition get_file_summary (kb : KnowledgeBase) : list (string * nat) :=
  map (λ f, (f.1, length f.2)) kb.

(** [self.faq_content[filename]], none when [filename not in
    self.faq_content]. *)
Fixpoint entries_of (kb : KnowledgeBase) (filename : string)
    : option (list Entry) :=
  match kb with
  | [] => None
  | f :: kb' => if String.eqb f.1 filename then Some f.2 else entries_of kb' filename
  end.

(** [extract_answer_from_file]; the query is not looked at. *)
Definition extract_answer_from_file (kb : KnowledgeBase)
    (filename query : string) : option string :=
  match entries_of kb filename with
  | None => None
  | Some qa_pairs =>
      match qa_pairs with
      | qa :: _ => Some (answer qa)
      | [] => None
      end
  end.

End ContentLoader.

(** ** The tools of the server ([faq_mcp_server.py]) *)

Module ServerTools.
Import PyStr ContentManager ContentLoader Server.

(** An element of ["files"]. *)
Record FileInfo := {
  filename : string;
  qa_count : nat;
  category : string
}.

(** The dictionary returned by [list_available_faqs], without its
    [last_loaded] time. *)
Inductive Listing :=
| ListingError (message : string)
| ListingSuccess (total_files total_qa_pairs : nat) (files : list FileInfo).

Definition listing_of (kb : KnowledgeBase) : Listing :=
  let file_summary := get_file_summary kb in
  let total_qas := sum_list (map snd file_summary) in
  ListingSuccess (length file_summary) total_qas
    (map (λ fc, {| filename := fc.1; qa_count := fc.2;
                   category := title (replace "_" " "
                                 (replace ".txt" EmptyString fc.1)) |})
         file_summary).

(** [list_available_faqs]: the dictionary and the content held
    afterwards. *)
Definition list_available_faqs (disk : Disk) (kb : KnowledgeBase)
    : Listing * KnowledgeBase :=
  match kb with
  | _ :: _ => (listing_of kb, kb)
  | [] =>
      match disk with
      | Unreadable err => (ListingError ("Error listing FAQ files: " +:+ err), [])
      | Readable parsed =>
          let kb' := load_all_faqs parsed in (listing_of kb', kb')
      end
  end.

(** The dictionary returned by [reload_faqs], without its [reload_time]. *)
Inductive Reload :=
| ReloadError (message : string)
| ReloadSuccess (message : string) (files_loaded : nat) (files_changed : Z).

(** [reload_faqs]: the dictionary and the content held afterwards. *)
Definition reload_faqs (disk : Disk) (kb : KnowledgeBase)
    : Reload * KnowledgeBase :=
  let old_count := length kb in
  match disk with
  | Unreadable err => (ReloadError ("Error reloading FAQ content: " +:+ err), [])
  | Readable parsed =>
      let kb' := load_all_faqs parsed in
      let new_count := length kb' in
      (ReloadSuccess "FAQ content reloaded successfully" new_count
         (Z.of_nat new_count - Z.of_nat old_count),
       kb')
  end.

(** A [types.Tool]: its name, its description, and of its input schema
    the names of the properties and of the required ones. *)
Record Tool := {
  name : string;
  description : string;
  properties : list string;
  required : list string
}.

(** [handle_list_tools] *)
Definition handle_list_tools : list Tool :=
  [ {| name := "answer_faq";
       description := "Answer questions based on FAQ knowledge base";
       properties := ["query"]; required := ["query"] |};
    {| name := "list_faq_files";
       description := "List all available FAQ files and their content summary";
       properties := []; required := [] |};
    {| name := "reload_faq_content";
       description := "Reload FAQ content from files";
       properties := []; required := [] |} ].

(** The text content returned by [handle_call_tool]: a text of its own,
    or [str(result)] for the dictionary of one of the three handlers. *)
Inductive Reply :=
| ReplyText (text : string)
| ReplyQuery (result : Response)
| ReplyListing (result : Listing)
| ReplyReload (result : Reload).

(** [handle_call_tool]: the reply and the content held afterwards, its
    log lines left out; [arguments] is the dictionary of the call, or
    [None].  The three handlers catch what they raise, so the [except] of
    the dispatcher is not reached. *)
Definition handle_call_tool (disk : Disk) (kb : KnowledgeBase)
    (name : string) (arguments : option (gmap string string))
    : Reply * KnowledgeBase :=
  if String.eqb name "answer_faq" then
    match arguments with
    | None => (ReplyText "Error: Missing 'query' parameter", kb)
    | Some args =>
        match args !! "query" with
        | None => (ReplyText "Error: Missing 'query' parameter", kb)
        | Some query =>
            let '(result, kb', _) := handle_query disk kb query in
            (ReplyQuery result, kb')
        end
    end
  else if String.eqb name "list_faq_files" then
    let '(result, kb') := list_available_faqs disk kb in
    (ReplyListing result, kb')
  else if String.eqb name "reload_faq_content" then
    let '(result, kb') := reload_faqs disk kb in
    (ReplyReload result, kb')
  else (ReplyText ("Error: Unknown tool '" +:+ name +:+ "'"), kb).

End ServerTools.

(** ** The interaction log ([database_models.py], [analytics_logger.py]) *)

Module FileStats.
Import PyStr PyNum.

(** A row of [faq_file_stats]. *)
Record FaqFileStat := {
  id : nat;
  timestamp : Z;
  file_name : string;
  total_queries : Z;
  successful_queries : Z;
  last_updated : Z
}.

(** The property [success_rate]. *)
Definition success_rate (self : FaqFileStat) : Q :=
  if (0 <? total_queries self)%Z
  then (inject_Z (successful_queries self) / inject_Z (total_queries self) * 100)%Q
  else 0%Q.

(** The rows [filter(file_name == ..., timestamp >= today)] keeps;
    [today] is the first instant of the day. *)
Definition of_today (file_name' : string) (today : Z) (r : FaqFileStat) : bool :=
  String.eqb (file_name r) file_name' && (today <=? timestamp r)%Z.

(** [stats.total_queries += 1], [stats.successful_queries += 1] when
    [is_success], [stats.last_updated = datetime.now()]. *)
Definition count (is_success : bool) (now : Z) (stats : FaqFileStat)
    : FaqFileStat :=
  {| id := id stats;
     timestamp := timestamp stats;
     file_name := file_name stats;
     total_queries := total_queries stats + 1;
     successful_queries :=
       if is_success then successful_queries stats + 1
       else successful_queries stats;
     last_updated := now |}.

(** The row [.first()] gives is counted in place; the rows before it and
    after it stay. *)
Fixpoint count_first (file_name' : string) (today : Z) (is_success : bool)
    (now : Z) (table : list FaqFileStat) : option (list FaqFileStat) :=
  match table with
  | [] => None
  | r :: rest =>
      if of_today file_name' today r
      then Some (count is_success now r :: rest)
      else match count_first file_name' today is_success now rest with
           | Some rest' => Some (r :: rest')
           | None => None
           end
  end.

Definition next_id (table : list FaqFileStat) : nat :=
  S (foldr (λ r m, Nat.max (id r) m) 0%nat table).

(** [FaqFileStat(file_name=file_name, total_queries=0,
    successful_queries=0)] as inserted: the key and [timestamp] take their
    defaults. *)
Definition fresh (table : list FaqFileStat) (db_now : Z) (file_name' : string)
    : FaqFileStat :=
  {| id := next_id table;
     timestamp := db_now;
     file_name := file_name';
     total_queries := 0;
     successful_queries := 0;
     last_updated := db_now |}.

(** [_update_faq_file_stats]: the table afterwards and the lines written
    to the error log.  [fault] is the exception the session raises, if
    any; [now] is [datetime.now()], [today] the first instant of its day,
    [db_now] the server's [now()]. *)
Definition _update_faq_file_stats (fault : option string)
    (today now db_now : Z) (table : list FaqFileStat)
    (file_name' : string) (is_success : bool)
    : list FaqFileStat * list string :=
  match fault with
  | Some e => (table, ["Failed to update FAQ file stats: " +:+ e])
  | None =>
      match count_first file_name' today is_success now table with
      | Some table' => (table', [])
      | None =>
          (table ++ [count is_success now (fresh table db_now file_name')], [])
      end
  end.

End FileStats.

Module InteractionLog.
Import PyStr PyNum FileStats.

(** A row of [faq_interactions]. *)
Record FaqInteraction := {
  id : nat;
  timestamp : Z;
  query_text : string;
  status : string;
  source_file : option string;
  reasoning : option string;
  processing_time : option Q;
  session_id : option string;
  user_feedback : option Z;
  user_agent : option string;
  ip_address : option string
}.

(** The dictionary [interaction_data]: a key that is absent, or present
    with its value. *)
Record InteractionData := {
  d_query_text : option string;
  d_status : option string;
  d_source_file : option string;
  d_reasoning : option string;
  d_processing_time : option Q;
  d_session_id : option string;
  d_user_agent : option string;
  d_ip_address : option string
}.

(** The two tables, and whether the session of the interaction or the
    session of the statistics raises. *)
Record Database := {
  interactions : list FaqInteraction;
  file_stats : list FaqFileStat;
  interaction_fault : option string;
  stats_fault : option string
}.

Definition next_interaction_id (table : list FaqInteraction) : nat :=
  S (foldr (λ r m, Nat.max (id r) m) 0%nat table).

Inductive Trace :=
| ErrorLog (msg : string)
| InfoLog (msg : string).

(** [log_faq_interaction]: the boolean returned, the database
    afterwards, the log lines.  [now] is [datetime.now()] as the
    interaction is built; [today], [stats_now] and [db_now] are the clock
    readings of the statistics session. *)
Definition log_faq_interaction (db : Database) (now today stats_now db_now : Z)
    (interaction_data : InteractionData) : bool * Database * list Trace :=
  match interaction_fault db with
  | Some e => (false, db, [ErrorLog ("Failed to log FAQ interaction: " +:+ e)])
  | None =>
      let interaction :=
        {| id := next_interaction_id (interactions db);
           timestamp := now;
           query_text := default EmptyString (d_query_text interaction_data);
           status := default "unknown" (d_status interaction_data);
           source_file := d_source_file interaction_data;
           reasoning := d_reasoning interaction_data;
           processing_time := d_processing_time interaction_data;
           session_id := d_session_id interaction_data;
           user_feedback := None;
           user_agent := d_user_agent interaction_data;
           ip_address := d_ip_address interaction_data |} in
      let '(stats, errs) :=
        match d_source_file interaction_data with
        | Some file =>
            if truthy file
            then _update_faq_file_stats (stats_fault db) today stats_now db_now
                   (file_stats db) file
                   (bool_decide (d_status interaction_data = Some "success"))
            else (file_stats db, [])
        | None => (file_stats db, [])
        end in
      (true,
       {| interactions := interactions db ++ [interaction];
          file_stats := stats;
          interaction_fault := interaction_fault db;
          stats_fault := stats_fault db |},
       map ErrorLog errs
       ++ [InfoLog ("Logged FAQ interaction: "
                    +:+ default "None" (d_status interaction_data))])
  end.

End InteractionLog.

Import PyStr PyNum.

(** * Vocabulary of the statements *)

(** [p] occurs in [s]. *)
Definition is_substring (p s : string) : Prop :=
  ∃ pre post, s = pre +:+ p +:+ post.


(** A string that is empty or made of white space only. *)
Definition is_blank (s : string) : Prop := sall is_space s = true.

(** The character [c] does not occur in [s]. *)
Definition lacks (c : ascii) (s : string) : Prop :=
  sall (λ x, negb (Ascii.eqb x c)) s = true.

(** The line feed as a character. *)
Definition LFc : ascii := chr 10.

(** A text the cutting at ["=== "] runs through without a cut. *)
Definition passes (x : string) : Prop :=
  ∀ piece rest,
    split_from "=== " 0 piece (x +:+ rest)
    = split_from "=== " 0 (srev x +:+ piece) rest.

(** The loop [if score > best_score: best_score = score; best = x], begun
    with no element and the score 0. *)
Definition keep_better {A} (score : A → Q) (st : option A * Q) (x : A)
    : option A * Q :=
  if Qgtb (score x) st.2 then (Some x, score x) else st.
Definition running_best {A} (score : A → Q) (l : list A) : option A * Q :=
  foldl (keep_better score) (None, 0%Q) l.

(** [x] is the first element of [l] that has the greatest score. *)
Definition first_greatest {A} (score : A → Q) (x : A) (l : list A) : Prop :=
  ∃ pre post, l = pre ++ x :: post
    ∧ (∀ y, y ∈ pre → (score y < score x)%Q)
    ∧ (∀ y, y ∈ post → (score y <= score x)%Q).

(** What the variables of that loop hold after the elements [l]. *)
Definition best_of {A} (score : A → Q) (l : list A) (st : option A * Q) : Prop :=
  match st.1 with
  | None => st.2 = 0%Q ∧ ∀ y, y ∈ l → (score y <= 0)%Q
  | Some x => st.2 = score x ∧ (0 < score x)%Q ∧ first_greatest score x l
  end.

(** Jaccard similarity of two token sets; 0 when both are empty. *)
Definition jaccard (a b : gset string) : Q :=
  if decide (size (a ∪ b) = 0%nat) then 0%Q
  else (of_len (size (a ∩ b)) / of_len (size (a ∪ b)))%Q.

(** Some keyword of the list occurs in the lower-cased question. *)
Definition hits (keywords : list string) (question_text : string) : Prop :=
  ∃ keyword, keyword ∈ keywords ∧ is_substring keyword (lower question_text).

Section EngineVocabulary.
Import ReasoningEngine.

(** The score of an entry of a file: the query against its question. *)
Definition entry_score (query : string) (qa : string * string) : Q :=
  _calculate_relevance_score (lower query) (lower qa.1).

(** A section of the content block that the file loop does not skip: the
    file name found in its header, and the lines under the header. *)
Definition read_section (section : string) : option (string * list string) :=
  if negb (truthy (strip section)) then None
  else match split LF section with
       | [] => None
       | header :: body =>
           match search_filename header with
           | Some filename => Some (filename, body)
           | None => None
           end
       end.
Definition sections_of (faq_content : string) : list (string * list string) :=
  omap read_section (from1 (split "=== " faq_content)).

(** The score of a file: the query against its lines taken as one text. *)
Definition section_score (query : string) (f : string * list string) : Q :=
  _calculate_relevance_score (lower query) (lower (join LF f.2)).

(** Every pair kept by the line loop has a non-empty question and a
    non-empty answer. *)
Definition filled (qa : string * string) : Prop :=
  truthy qa.1 = true ∧ truthy qa.2 = true.

(** The loop variables, given the file kept so far and its score. *)
Definition scan_view (query : string)
    (st : option (string * list string) * Q) : Scan :=
  match st.1 with
  | None =>
      {| v_best_match_file := None; v_best_match_score := st.2;
         v_best_answer := None; v_reasoning := EmptyString |}
  | Some f =>
      {| v_best_match_file := Some f.1; v_best_match_score := st.2;
         v_best_answer := _extract_best_answer f.2 (lower query);
         v_reasoning := "Found relevant content in " +:+ f.1
                      +:+ " with score " +:+ fmt_2f st.2 |}
  end.

Definition no_answer_text (m : Q) : string :=
  "No sufficiently relevant content found. Best score was "
  +:+ fmt_2f m +:+ ", required minimum is 0.5".

End EngineVocabulary.

Section BacklogVocabulary.
Import AnalyticsLogger.

(** The similarity of a question text to a backlog row. *)
Definition similarity (question_text : string)
    (existing : UnansweredQuestion) : Q :=
  jaccard (norm_words question_text)
          (norm_words (question existing)).

(** Two rows that agree on every column but [frequency] and [last_asked]. *)
Definition same_but_frequency_and_last_asked
    (a b : UnansweredQuestion) : Prop :=
  id a = id b
  ∧ question a = question b
  ∧ first_asked a = first_asked b
  ∧ status a = status b
  ∧ priority a = priority b
  ∧ assigned_to a = assigned_to b
  ∧ category a = category b
  ∧ tags a = tags b
  ∧ suggested_faq_file a = suggested_faq_file b
  ∧ draft_answer a = draft_answer b
  ∧ resolution_notes a = resolution_notes b
  ∧ business_impact a = business_impact b
  ∧ estimated_resolution_time a = estimated_resolution_time b
  ∧ actual_resolution_time a = actual_resolution_time b
  ∧ created_at a = created_at b
  ∧ updated_at a = updated_at b.

(** Two rows that agree on every column but [updated_at]. *)
Definition same_but_updated_at
    (a b : UnansweredQuestion) : Prop :=
  id a = id b
  ∧ question a = question b
  ∧ frequency a = frequency b
  ∧ first_asked a = first_asked b
  ∧ last_asked a = last_asked b
  ∧ status a = status b
  ∧ priority a = priority b
  ∧ assigned_to a = assigned_to b
  ∧ category a = category b
  ∧ tags a = tags b
  ∧ suggested_faq_file a = suggested_faq_file b
  ∧ draft_answer a = draft_answer b
  ∧ resolution_notes a = resolution_notes b
  ∧ business_impact a = business_impact b
  ∧ estimated_resolution_time a = estimated_resolution_time b
  ∧ actual_resolution_time a = actual_resolution_time b
  ∧ created_at a = created_at b.

End BacklogVocabulary.

Section RenderVocabulary.
Import ReasoningEngine ContentManager.

(** A file name the header pattern can read back, free of the characters
    on which the content block is cut. *)
Definition plain_name (filename : string) : Prop :=
  lacks "(" filename ∧ lacks ")" filename ∧ lacks "=" filename
  ∧ lacks LFc filename
  ∧ endswith ".txt" filename = true ∧ (5 ≤ String.length filename)%nat.

(** A text as [_clean_text] leaves it (not empty, no white space at either
    end, no line feed), and without the character ["="]. *)
Definition plain_text (s : string) : Prop :=
  s ≠ EmptyString ∧ lstrip s = s ∧ rstrip s = s ∧ lacks LFc s ∧ lacks "=" s.

(** An entry of two plain texts. *)
Definition plain_entry (qa : Entry) : Prop :=
  plain_text (question qa) ∧ plain_text (ContentManager.answer qa).

(** A plain file: a plain name and at least one entry, all entries
    plain. *)
Definition plain_file (f : string * list Entry) : Prop :=
  plain_name f.1 ∧ f.2 ≠ [] ∧ Forall plain_entry f.2.

(** The title and the header line written for a file. *)
Definition file_title (filename : string) : string :=
  title (replace "_" " " (replace ".txt" EmptyString filename)).

Definition header (filename : string) : string :=
  file_title filename +:+ " (" +:+ filename +:+ ") ===".

(** The two lines written for entry number [i], without the line feed
    that precedes the first. *)
Definition q_line (i : nat) (qa : Entry) : string :=
  "Q" +:+ str_of_nat i +:+ ": " +:+ question qa.
Definition a_line (i : nat) (qa : Entry) : string :=
  "A" +:+ str_of_nat i +:+ ": " +:+ ContentManager.answer qa.

(** The lines of the entries of a file as the matcher sees them. *)
Fixpoint flat_entries (i : nat) (qa_pairs : list Entry) : list string :=
  match qa_pairs with
  | [] => []
  | qa :: rest =>
      EmptyString :: q_line i qa :: a_line i qa :: flat_entries (S i) rest
  end.

Definition pair_of (qa : Entry) : string * string :=
  (question qa, ContentManager.answer qa).

(** The lines of the section of a file; the section of a file that is not
    the last ends in two empty lines. *)
Definition section_lines (last : bool) (f : string * list Entry) : list string :=
  header f.1 :: flat_entries 1 f.2 ++ (if last then [] else [EmptyString; EmptyString]).
Definition section_text (last : bool) (f : string * list Entry) : string :=
  join LF (section_lines last f).

(** The content block after its first header mark. *)
Fixpoint blocks (kb : KnowledgeBase) : string :=
  match kb with
  | [] => EmptyString
  | f :: kb' =>
      match kb' with
      | [] => section_text true f
      | _ => section_text false f +:+ "=== " +:+ blocks kb'
      end
  end.

(** What the matcher reads back from the content block. *)
Fixpoint read_back (kb : KnowledgeBase) : list (string * list string) :=
  match kb with
  | [] => []
  | f :: kb' =>
      (f.1, flat_entries 1 f.2
            ++ (match kb' with [] => [] | _ => [EmptyString; EmptyString] end))
      :: read_back kb'
  end.

End RenderVocabulary.

(** A word: not empty and without white space. *)
Definition is_wordlike (w : string) : Prop :=
  w ≠ EmptyString ∧ sall (λ c, negb (is_space c)) w = true.

(** The first character, if any, is not white; the same for the last. *)
Definition head_tight (s : string) : bool :=
  match s with
  | EmptyString => true
  | String c _ => negb (is_space c)
  end.
Fixpoint tail_tight (s : string) : bool :=
  match s with
  | EmptyString => true
  | String c EmptyString => negb (is_space c)
  | String _ s' => tail_tight s'
  end.

(** A character of a normalized question: a lower-case letter, a digit
    or the blank. *)
Definition norm_char (c : ascii) : bool :=
  is_lower c || is_digit c || Ascii.eqb c " ".

(** A character that is not white space, or is the blank. *)
Definition blank_or_black (c : ascii) : bool :=
  negb (is_space c) || Ascii.eqb c " ".

Section LoaderVocabulary.
Import ContentManager ContentLoader.

(** A text as [_clean_text] leaves it, not empty and without a colon. *)
Definition label_free (s : string) : Prop :=
  s ≠ EmptyString ∧ _clean_text s = s ∧ lacks ":" s.

Definition writable (qa : Entry) : Prop :=
  label_free (question qa) ∧ label_free (ContentManager.answer qa).

(** The text of a file that holds the entries: for each a line with the
    question, a line with the answer and an empty line. *)
Definition entry_text (qa : Entry) : string :=
  "Q: " +:+ question qa +:+ LF +:+ "A: " +:+ ContentManager.answer qa +:+ LF +:+ LF.
Fixpoint faq_text (qa_pairs : list Entry) : string :=
  match qa_pairs with
  | [] => EmptyString
  | qa :: rest => entry_text qa +:+ faq_text rest
  end.

(** An entry as the loader leaves it: both texts cleaned and not empty. *)
Definition cleaned (qa : Entry) : Prop :=
  question qa ≠ EmptyString ∧ ContentManager.answer qa ≠ EmptyString
  ∧ _clean_text (question qa) = question qa
  ∧ _clean_text (ContentManager.answer qa) = ContentManager.answer qa.

(** A file of the directory whose name is plain and whose text, when it
    can be read, is without the character ["="]. *)
Definition plain_source (f : string * option string) : Prop :=
  plain_name f.1 ∧ ∀ content, f.2 = Some content → lacks "=" content.

End LoaderVocabulary.

Section CounterVocabulary.
Import AnalyticsLogger.

(** How often the questions of the backlog were asked, in all. *)
Definition total_frequency (table : list UnansweredQuestion) : Z :=
  foldr (λ r total, (frequency r + total)%Z) 0%Z table.

End CounterVocabulary.

Section StatsVocabulary.
Import FileStats.

(** The queries, and the successful queries, counted for a file over
    all its rows. *)
Definition queries_of (name : string) (table : list FaqFileStat) : Z :=
  foldr (λ r total, if String.eqb (file_name r) name
                    then (total_queries r + total)%Z else total) 0%Z table.
Definition successes_of (name : string) (table : list FaqFileStat) : Z :=
  foldr (λ r total, if String.eqb (file_name r) name
                    then (successful_queries r + total)%Z else total) 0%Z table.

(** The rows dated today, and the table holding at most one of them for
    each file. *)
Definition dated_today (today : Z) (r : FaqFileStat) : bool :=
  (today <=? timestamp r)%Z.
Definition one_row_a_day (today : Z) (table : list FaqFileStat) : Prop :=
  NoDup (file_name <$> List.filter (dated_today today) table).

(** A row whose successes are counted among its queries. *)
Definition sound_stat (r : FaqFileStat) : Prop :=
  (0 <= successful_queries r)%Z ∧ (successful_queries r <= total_queries r)%Z.

End StatsVocabulary.

(** * Data of the examples *)

Section FileData.
Import ContentManager.

(** The file of two entries used below. *)
Definition two_entries : list string :=
  ["Q1: How do I change my password?"; "A1: Use the settings page.";
   EmptyString; "Q2: How do I reset it?"; "A2: Click reset."].

(** A knowledge base of one file with one entry. *)
Definition account_kb : KnowledgeBase :=
  [("account.txt",
    [{| question := "How do I change my password?";
        answer := "Use the settings page." |}])].

(** A knowledge base of two files. *)
Definition help_kb : KnowledgeBase :=
  [("account_management.txt",
    [{| question := "How do I change my password?";
        answer := "Use the settings page." |};
     {| question := "How do I reset it?"; answer := "Click reset." |}]);
   ("billing.txt",
    [{| question := "What payment methods exist?"; answer := "Cards." |}])].

End FileData.

Section BacklogData.
Import AnalyticsLogger.

(** A pending backlog row for a question, asked once at the instant 0. *)
Definition row (n : nat) (text : string) : UnansweredQuestion :=
  {| id := n; question := text; frequency := 1;
     first_asked := 0; last_asked := 0;
     status := "pending"; priority := "low";
     assigned_to := None; category := Some "general"; tags := None;
     suggested_faq_file := None; draft_answer := None;
     resolution_notes := None; business_impact := "medium";
     estimated_resolution_time := None; actual_resolution_time := None;
     created_at := 0; updated_at := 0 |}.

(** Two pending rows: a near duplicate first, the exact question second. *)
Definition near_first : Database :=
  {| rows := [ row 1 "How do I reset my password now?";
               row 2 "How do I reset my password?" ];
     read_fault := None; commit_fault := None |}.

(** The table of [near_first] behind a connection that fails on reads. *)
Definition read_down : Database :=
  {| rows := [ row 2 "How do I reset my password?" ];
     read_fault := Some "connection refused"; commit_fault := None |}.

Definition empty_table : Database :=
  {| rows := []; read_fault := None; commit_fault := None |}.

(** The backlog holds "How do I reset my password?" once. *)
Definition asked_once : Database :=
  {| rows := [ row 1 "How do I reset my password?" ];
     read_fault := None; commit_fault := None |}.

End BacklogData.

Section LoaderData.
Import ContentManager ContentLoader.

(** Two entries as a file holds them. *)
Definition password_entries : list Entry :=
  [{| question := "How do I change my password?";
      answer := "Use the settings page." |};
   {| question := "How do I reset it?"; answer := "Click reset." |}].

(** A directory of three files: two that can be read, the second without
    any entry, and one that cannot. *)
Definition help_dir : Directory :=
  [("account_management.txt", Some (faq_text password_entries));
   ("notes.txt", Some "Nothing to see here.");
   ("billing.txt", None)].

End LoaderData.

Section StatsData.
Import FileStats InteractionLog.

(** An answered query as [handle_query] reports it. *)
Definition answered : InteractionData :=
  {| d_query_text := Some "reset password";
     d_status := Some "success";
     d_source_file := Some "account.txt";
     d_reasoning := None; d_processing_time := None;
     d_session_id := None; d_user_agent := None; d_ip_address := None |}.

(** A database that holds yesterday's row for a file (the day begins at
    the instant 100) and nothing else, and answers every request. *)
Definition one_stat : InteractionLog.Database :=
  {| interactions := [];
     file_stats := [{| FileStats.id := 1; FileStats.timestamp := 40;
                       file_name := "account.txt"; total_queries := 3;
                       successful_queries := 2; last_updated := 50 |}];
     interaction_fault := None; stats_fault := None |}.

End StatsData.

(** * Properties *)

(** ** Strings *)

Section StringFacts.

Lemma app_cons (c : ascii) (s t : string) :
  String c s +:+ t = String c (s +:+ t).
Proof. reflexivity. Qed.

Lemma app_empty_l (t : string) : EmptyString +:+ t = t.
Proof. reflexivity. Qed.

Lemma app_empty_r (s : string) : s +:+ EmptyString = s.
Proof. induction s as [|c s IH]; [done | by rewrite app_cons, IH]. Qed.

Lemma app_assoc' (a b c : string) : (a +:+ b) +:+ c = a +:+ (b +:+ c).
Proof. induction a as [|x a IH]; [done | by rewrite !app_cons, IH]. Qed.

Lemma startswith_prefix (p s : string) :
  startswith p s = true ↔ ∃ post, s = p +:+ post.
Proof.
  revert s. induction p as [|a p IH]; intros s; simpl.
  - split; [intros _; by exists s | done].
  - destruct s as [|b s].
    + split; [done | intros [post H]; discriminate].
    + rewrite andb_true_iff, Ascii.eqb_eq, IH. split.
      * intros [-> [post ->]]. by exists post.
      * intros [post H]. injection H as -> ->. eauto.
Qed.

Lemma contains_substring (p s : string) :
  contains p s = true ↔ is_substring p s.
Proof.
  induction s as [|c s IH].
  - simpl. rewrite orb_false_r, startswith_prefix. split.
    + intros [post H]. by exists EmptyString, post.
    + intros [[|? pre] [post H]]; [by exists post | discriminate].
  - cbn [contains]. rewrite orb_true_iff, IH, startswith_prefix. split.
    + intros [[post H] | (pre & post & H)].
      * by exists EmptyString, post.
      * exists (String c pre), post. simpl. by rewrite H.
    + intros [[|x pre] [post H]].
      * left. by exists post.
      * right. injection H as -> ->. by exists pre, post.
Qed.

Lemma is_substring_refl (s : string) : is_substring s s.
Proof. exists EmptyString, EmptyString. by rewrite app_empty_r. Qed.

Lemma is_substring_trans (a b c : string) :
  is_substring a b → is_substring b c → is_substring a c.
Proof.
  intros (p1 & q1 & ->) (p2 & q2 & ->).
  exists (p2 +:+ p1), (q1 +:+ q2). by rewrite !app_assoc'.
Qed.

End StringFacts.

(** ** Numbers *)

Section NumberFacts.

Lemma Qgtb_lt (a b : Q) : Qgtb a b = true ↔ (b < a)%Q.
Proof.
  unfold Qgtb. rewrite negb_true_iff, <- not_true_iff_false, Qle_bool_iff.
  split; [apply Qnot_le_lt | apply Qlt_not_le].
Qed.

Lemma Qgtb_le (a b : Q) : Qgtb a b = false ↔ (a <= b)%Q.
Proof. unfold Qgtb. by rewrite negb_false_iff, Qle_bool_iff. Qed.

Lemma of_len_nonneg (n : nat) : (0 <= of_len n)%Q.
Proof. unfold of_len, Qle. simpl. lia. Qed.

Lemma of_len_pos (n : nat) : n ≠ 0%nat → (0 < of_len n)%Q.
Proof. intros H. unfold of_len, Qlt. simpl. lia. Qed.

Lemma of_len_le (m n : nat) : (m ≤ n)%nat → (of_len m <= of_len n)%Q.
Proof. intros H. unfold of_len, Qle. simpl. lia. Qed.

(** A part over the whole is a proportion. *)
Lemma ratio_bounds (m n : nat) :
  (m ≤ n)%nat → n ≠ 0%nat →
  (0 <= of_len m / of_len n)%Q ∧ (of_len m / of_len n <= 1)%Q.
Proof.
  intros Hle Hn. pose proof (of_len_pos n Hn) as Hpos. split.
  - apply Qle_shift_div_l; [done |]. rewrite Qmult_0_l. apply of_len_nonneg.
  - apply Qle_shift_div_r; [done |]. rewrite Qmult_1_l. by apply of_len_le.
Qed.

End NumberFacts.

(** ** Relevance scorer *)

Section Scorer.
Import ReasoningEngine.

Lemma lower_char_not_upper (c : ascii) : is_upper (lower_char c) = false.
Proof. destruct c as [[] [] [] [] [] [] [] []]; reflexivity. Qed.

Lemma sall_lower (s : string) : sall (λ c, negb (is_upper c)) (lower s) = true.
Proof.
  unfold lower. induction s as [|c s IH]; simpl; [done |].
  by rewrite lower_char_not_upper.
Qed.

Lemma sall_srev_onto (p : ascii → bool) (s acc : string) :
  sall p (srev_onto s acc) = sall p s && sall p acc.
Proof.
  revert acc. induction s as [|c s IH]; intros acc; simpl; [done |].
  rewrite IH. simpl. by destruct (p c), (sall p s), (sall p acc).
Qed.





Lemma overlap_le (a b : gset string) : (size (a ∩ b) ≤ size a)%nat.
Proof. apply subseteq_size, intersection_subseteq_l. Qed.

Lemma score_range (query content : string) :
  (0 <= _calculate_relevance_score query content)%Q ∧
  (_calculate_relevance_score query content <= 1)%Q.
Proof.
  unfold _calculate_relevance_score.
  case_bool_decide as Hq; [split; [apply Qle_refl | discriminate] |].
  assert (size (word_set query) ≠ 0%nat) as Hn.
  { intros H%size_empty_iff%leibniz_equiv. done. }
  destruct (ratio_bounds _ _ (overlap_le (word_set query) (word_set content)) Hn)
    as [H0 H1].
  split.
  - apply Q.min_glb; [| discriminate].
    destruct (contains _ _); [| done].
    apply (Qle_trans _ (0 + 0)); [discriminate |].
    apply Qplus_le_compat; [done | discriminate].
  - apply Q.le_min_r.
Qed.


(** A query without a word token scores 0 even where it occurs in the
    content; with tokens, the phrase adds 0.3 and the sum is cut at 1. *)
Example score_examples :
  (_calculate_relevance_score "?" "Why?" == 0)%Q
  ∧ (_calculate_relevance_score "reset password" "Change my PASSWORD" == 1 # 2)%Q
  ∧ (_calculate_relevance_score "my password" "Change my PASSWORD" == 1)%Q
  ∧ (_calculate_relevance_score "a_b c" "x a_b cd" == 8 # 10)%Q.
Proof. vm_compute. done. Qed.

End Scorer.

(** ** The running maximum *)

Section RunningBest.
Context {A : Type} (score : A → Q).

Lemma first_greatest_bound (x : A) (l : list A) :
  first_greatest score x l → ∀ y, y ∈ l → (score y <= score x)%Q.
Proof.
  intros (pre & post & -> & Hpre & Hpost) y Hy.
  apply elem_of_app in Hy as [Hy | Hy]; [by apply Qlt_le_weak, Hpre |].
  apply elem_of_cons in Hy as [-> | Hy]; [apply Qle_refl | by apply Hpost].
Qed.

Lemma first_greatest_elem (x : A) (l : list A) :
  first_greatest score x l → x ∈ l.
Proof. intros (pre & post & -> & _). set_solver. Qed.

Lemma best_of_step (l : list A) (st : option A * Q) (x : A) :
  best_of score l st → best_of score (l ++ [x]) (keep_better score st x).
Proof.
  destruct st as [[b|] m]; unfold best_of, keep_better; simpl.
  - intros (-> & Hpos & Hfg).
    destruct (Qgtb (score x) (score b)) eqn:Hgt; simpl.
    + apply Qgtb_lt in Hgt. split; [done |].
      split; [by eapply Qlt_trans |].
      exists l, []. split; [done |]. split; [| by intros y Hy%elem_of_nil].
      intros y Hy.
      eapply Qle_lt_trans; [by eapply first_greatest_bound | done].
    + apply Qgtb_le in Hgt. split; [done |]. split; [done |].
      destruct Hfg as (pre & post & -> & Hpre & Hpost).
      exists pre, (post ++ [x]). split; [by rewrite <- app_assoc |].
      split; [done |].
      intros y [Hy | ->%list_elem_of_singleton]%elem_of_app; [by apply Hpost | done].
  - intros (-> & Hall).
    destruct (Qgtb (score x) 0) eqn:Hgt; simpl.
    + apply Qgtb_lt in Hgt. split; [done |]. split; [done |].
      exists l, []. split; [done |]. split; [| by intros y Hy%elem_of_nil].
      intros y Hy. eapply Qle_lt_trans; [by apply Hall | done].
    + apply Qgtb_le in Hgt. split; [done |].
      intros y [Hy | ->%list_elem_of_singleton]%elem_of_app; [by apply Hall | done].
Qed.

Lemma running_best_spec (l : list A) : best_of score l (running_best score l).
Proof.
  unfold running_best. induction l as [|x l IH] using rev_ind.
  - split; [done |]. by intros y Hy%elem_of_nil.
  - rewrite foldl_app. simpl. by apply best_of_step.
Qed.


End RunningBest.

(** ** Answer extractor *)

Section Extractor.
Import ReasoningEngine.

(** The selection loop is the running maximum of the entry scores. *)
Lemma pick_best_running (query : string) (pairs : list (string * string))
    (st : option (string * string) * Q) :
  foldl (pick_step query) (snd <$> st.1, st.2) pairs
  = let b := foldl (keep_better (entry_score query)) st pairs in
    (snd <$> b.1, b.2).
Proof.
  revert st. induction pairs as [|qa pairs IH]; intros st; simpl; [done |].
  rewrite <- IH. f_equal.
  unfold pick_step, keep_better, entry_score. simpl.
  by destruct (Qgtb _ _).
Qed.

Lemma pick_best_eq (query : string) (pairs : list (string * string)) :
  pick_best query pairs
  = (snd <$> (running_best (entry_score query) pairs).1,
     (running_best (entry_score query) pairs).2).
Proof. apply (pick_best_running query pairs (None, 0%Q)). Qed.

Lemma save_pair_filled (st : ParseState) :
  Forall filled (qa_pairs st) → Forall filled (save_pair st).
Proof.
  intros H. unfold save_pair.
  destruct (truthy (current_answer st)) eqn:Ha; simpl; [| done].
  destruct (truthy (current_question st)) eqn:Hq; simpl; [| done].
  apply Forall_app. split; [done |]. by repeat constructor.
Qed.

Lemma parse_line_filled (st : ParseState) (line : string) :
  Forall filled (qa_pairs st) → Forall filled (qa_pairs (parse_line st line)).
Proof.
  intros H. unfold parse_line.
  repeat (destruct (_ && _); simpl; try done).
  by apply save_pair_filled.
Qed.

Lemma parse_qa_filled (content_lines : list string) :
  Forall filled (parse_qa content_lines).
Proof.
  unfold parse_qa. apply save_pair_filled.
  induction content_lines as [|line ls IH] using rev_ind; [constructor |].
  rewrite foldl_app. simpl. by apply parse_line_filled.
Qed.

(** A file without entries yields no answer. *)
Lemma extract_no_entries (content_lines : list string) (query : string) :
  parse_qa content_lines = [] →
  _extract_best_answer content_lines query = None.
Proof. intros H. unfold _extract_best_answer. by rewrite H. Qed.

(** The answer returned for a file with entries is that of the first
    entry with the greatest score. *)
Lemma extract_first_greatest (content_lines : list string) (query : string)
    (first : string * string) (rest : list (string * string)) :
  parse_qa content_lines = first :: rest →
  ∃ best,
    first_greatest (entry_score query) best (first :: rest)
    ∧ _extract_best_answer content_lines query = Some best.2
    ∧ (best = first ∨ (0 < entry_score query best)%Q).
Proof.
  intros Hp. unfold _extract_best_answer. rewrite Hp, pick_best_eq.
  pose proof (running_best_spec (entry_score query) (first :: rest)) as Hb.
  unfold best_of in Hb.
  destruct (running_best (entry_score query) (first :: rest)) as [[b|] m];
    simpl in *.
  - destruct Hb as (-> & Hpos & Hfg). exists b. split; [done |].
    split; [| by right].
    pose proof (parse_qa_filled content_lines) as HF.
    rewrite Hp, Forall_forall in HF.
    destruct (HF b (first_greatest_elem _ _ _ Hfg)) as [_ ->]. done.
  - destruct Hb as (_ & Hall). exists first. split; [| by split; [| left]].
    exists [], rest. split; [done |].
    split; [by intros y Hy%elem_of_nil |].
    intros y Hy. eapply Qle_trans; [apply Hall; by right |].
    apply score_range.
Qed.

(** C4.  For a file with at least one entry, the extractor returns the
    answer of the first entry whose score is the greatest, the score of an
    entry being the score of the query against its question alone; when
    every entry scores 0 this is the first entry of the file. *)
Theorem extract_best_answer_spec (content_lines : list string)
    (query : string) (first : string * string) (rest : list (string * string)) :
  parse_qa content_lines = first :: rest →
  ∃ best,
    first_greatest (entry_score query) best (first :: rest)
    ∧ _extract_best_answer content_lines query = Some best.2
    ∧ ((∀ qa, qa ∈ first :: rest → (entry_score query qa == 0)%Q) → best = first).
Proof.
  intros Hp.
  destruct (extract_first_greatest content_lines query first rest Hp)
    as (best & Hfg & Hres & Hcase).
  exists best. split; [done |]. split; [done |].
  intros Hzero. destruct Hcase as [-> | Hpos]; [done |]. exfalso.
  rewrite (Hzero best (first_greatest_elem _ _ _ Hfg)) in Hpos.
  by apply Qlt_irrefl in Hpos.
Qed.

(** A file with a single entry answers every query with that entry. *)
Corollary single_entry_answer (content_lines : list string) (query : string)
    (only : string * string) :
  parse_qa content_lines = [only] →
  _extract_best_answer content_lines query = Some only.2.
Proof.
  intros Hp.
  destruct (extract_first_greatest content_lines query only [] Hp)
    as (best & Hfg & Hres & _).
  apply first_greatest_elem, list_elem_of_singleton in Hfg. by subst.
Qed.

Lemma extract_best_answer_spec_witness :
  parse_qa two_entries
  = [("How do I change my password?", "Use the settings page.");
     ("How do I reset it?", "Click reset.")]
  ∧ ∃ best,
      first_greatest (entry_score "reset it") best
        [("How do I change my password?", "Use the settings page.");
         ("How do I reset it?", "Click reset.")]
      ∧ _extract_best_answer two_entries "reset it" = Some best.2
      ∧ ((∀ qa, qa ∈ [("How do I change my password?", "Use the settings page.");
                      ("How do I reset it?", "Click reset.")]
                → (entry_score "reset it" qa == 0)%Q)
         → best = ("How do I change my password?", "Use the settings page.")).
Proof.
  split; [reflexivity |].
  apply (extract_best_answer_spec two_entries "reset it"). reflexivity.
Defined.

(** With a query that meets no question the first answer comes back. *)
Example extract_fallback :
  _extract_best_answer two_entries "refund" = Some "Use the settings page.".
Proof. vm_compute. reflexivity. Qed.

Example extract_second :
  _extract_best_answer two_entries "reset it" = Some "Click reset.".
Proof. vm_compute. reflexivity. Qed.

End Extractor.

(** ** File matcher *)

Section Matcher.
Import ReasoningEngine.

Lemma scan_section_read (query section : string)
    (st : option (string * list string) * Q) :
  scan_section (lower query) (scan_view query st) section
  = match read_section section with
    | None => scan_view query st
    | Some f => scan_view query (keep_better (section_score query) st f)
    end.
Proof.
  unfold scan_section, read_section.
  destruct (negb (truthy (strip section))); [done |].
  destruct (split LF section) as [|header body]; [done |].
  destruct (search_filename header) as [filename|]; [| done].
  unfold keep_better, section_score, from1. simpl.
  replace (v_best_match_score (scan_view query st)) with st.2
    by (unfold scan_view; by destruct st.1).
  by destruct (Qgtb _ _).
Qed.

Lemma scan_fold (query : string) (raw : list string)
    (st : option (string * list string) * Q) :
  foldl (scan_section (lower query)) (scan_view query st) raw
  = scan_view query
      (foldl (keep_better (section_score query)) st (omap read_section raw)).
Proof.
  revert st. induction raw as [|section raw IH]; intros st; simpl; [done |].
  rewrite scan_section_read.
  destruct (read_section section) as [f|]; simpl; by rewrite IH.
Qed.

(** The loop of the matcher is the running maximum over the files. *)
Lemma scan_running (query faq_content : string) :
  foldl (scan_section (lower query)) scan_init
        (from1 (split "=== " faq_content))
  = scan_view query
      (running_best (section_score query) (sections_of faq_content)).
Proof. apply (scan_fold query _ (None, 0%Q)). Qed.



End Matcher.

(** ** Blank strings *)

Section Blank.

Lemma lstrip_empty (s : string) : lstrip s = EmptyString ↔ is_blank s.
Proof.
  unfold is_blank. induction s as [|c s IH]; simpl; [done |].
  destruct (is_space c); simpl; [done |]. split; discriminate.
Qed.

Lemma srev_onto_empty (s acc : string) : srev_onto s acc = EmptyString ↔ s = EmptyString ∧ acc = EmptyString.
Proof.
  revert acc. induction s as [|c s IH]; intros acc; simpl.
  - split; [by intros -> | by intros [_ ->]].
  - rewrite IH. split; [by intros [_ ?] | by intros [? _]].
Qed.

Lemma srev_empty (s : string) : srev s = EmptyString ↔ s = EmptyString.
Proof.
  unfold srev. rewrite srev_onto_empty. split; [by intros [-> _] | by intros ->].
Qed.

Lemma is_blank_srev (s : string) : is_blank (srev s) ↔ is_blank s.
Proof.
  unfold is_blank, srev. rewrite sall_srev_onto. simpl.
  by rewrite andb_true_r.
Qed.

Lemma rstrip_empty (s : string) : rstrip s = EmptyString ↔ is_blank s.
Proof. unfold rstrip. by rewrite srev_empty, lstrip_empty, is_blank_srev. Qed.

Lemma lstrip_blank (s : string) : is_blank (lstrip s) ↔ is_blank s.
Proof.
  unfold is_blank. induction s as [|c s IH]; simpl; [done |].
  destruct (is_space c) eqn:Hc; simpl; [done |]. by rewrite Hc.
Qed.

(** [s.strip()] is empty exactly for a blank [s]. *)
Lemma strip_empty (s : string) : strip s = EmptyString ↔ is_blank s.
Proof. unfold strip. by rewrite rstrip_empty, lstrip_blank. Qed.

Lemma truthy_false (s : string) : truthy s = false ↔ s = EmptyString.
Proof. by destruct s. Qed.

End Blank.

(** ** Request handler *)

Section Handler.
Import ReasoningEngine ContentManager Server.

(** C8.  A query that is empty or made of white space only gets the
    empty-query error; the call leaves no event behind (no reload, no
    analysis by the engine), keeps the content as it is, and its response
    is not a no-answer response. *)
Theorem empty_query_rejected (disk : Disk) (kb : KnowledgeBase) (query : string) :
  is_blank query →
  handle_query disk kb query = (Error "Query cannot be empty", kb, [])
  ∧ ∀ message reasoning,
      (handle_query disk kb query).1.1 ≠ NoAnswer message reasoning.
Proof.
  intros Hb. apply strip_empty in Hb.
  assert (handle_query disk kb query = (Error "Query cannot be empty", kb, []))
    as ->; [| done].
  unfold handle_query. rewrite Hb. simpl. by rewrite orb_true_r.
Qed.

Lemma empty_query_rejected_witness :
  is_blank "   "
  ∧ handle_query (Readable []) account_kb "   "
    = (Error "Query cannot be empty", account_kb, [])
  ∧ ∀ message reasoning,
      (handle_query (Readable []) account_kb "   ").1.1
      ≠ NoAnswer message reasoning.
Proof.
  split; [reflexivity |].
  apply (empty_query_rejected (Readable []) account_kb "   "). reflexivity.
Defined.

(** The guard of [handle_query] lets a query pass exactly when it is not
    blank. *)
Lemma guard_passes (query : string) :
  ¬ is_blank query →
  negb (truthy query) || negb (truthy (strip query)) = false.
Proof.
  intros Hb. apply orb_false_iff. split; apply negb_false_iff.
  - destruct query; [| done]. by destruct Hb.
  - destruct (truthy (strip query)) eqn:E; [done |].
    apply truthy_false, strip_empty in E. done.
Qed.

(** The content block of the empty knowledge base is the empty text, and
    the engine finds nothing in it. *)
Lemma analysis_of_nothing (query : string) :
  _simulate_claude_analysis query (get_structured_content_for_claude [])
  = {| analysis := no_answer_text 0;
       best_match_file := None;
       relevance_score := low;
       decision := NO_ANSWER;
       ReasoningEngine.answer := None |}.
Proof. reflexivity. Qed.

(** C7, as the code has it.  For a query that is not blank: when no file
    is loaded and the directory yields none, [handle_query] returns the
    error "No FAQ content available" without calling the engine; the engine
    itself, given the content block of an empty knowledge base, returns
    NO_ANSWER with the rationale for the score 0; and for a file without
    entries the extractor returns no answer instead of raising. *)
Theorem no_content_outcome (query : string) (parsed : list (string * list Entry)) :
  ¬ is_blank query →
  load_all_faqs parsed = [] →
  (∃ started,
     handle_query (Readable parsed) [] query
     = (Error "No FAQ content available", [], [Logged started; Reloaded]))
  ∧ (let r := _simulate_claude_analysis query
                (get_structured_content_for_claude []) in
     decision r = NO_ANSWER ∧ analysis r = no_answer_text 0
     ∧ best_match_file r = None ∧ ReasoningEngine.answer r = None)
  ∧ (∀ content_lines,
       parse_qa content_lines = [] →
       _extract_best_answer content_lines (lower query) = None).
Proof.
  intros Hb Hload. split; [| split].
  - eexists. unfold handle_query. rewrite (guard_passes query Hb), Hload.
    reflexivity.
  - by rewrite analysis_of_nothing.
  - intros content_lines. apply extract_no_entries.
Qed.

Lemma no_content_outcome_witness :
  ¬ is_blank "reset password"
  ∧ load_all_faqs [("empty.txt", [])] = []
  ∧ (∃ started,
       handle_query (Readable [("empty.txt", [])]) [] "reset password"
       = (Error "No FAQ content available", [], [Logged started; Reloaded])).
Proof.
  assert (¬ is_blank "reset password") as Hb by (intros H; discriminate H).
  split; [exact Hb |]. split; [reflexivity |].
  exact (proj1 (no_content_outcome "reset password" [("empty.txt", [])]
                  Hb eq_refl)).
Defined.

(** C7, as the claim has it, fails: with no file at all the response is an
    error outcome, not a no-answer response. *)
Lemma zero_files_is_error :
  (handle_query (Readable []) [] "reset password").1.1
  = Error "No FAQ content available"
  ∧ ∀ message reasoning,
      (handle_query (Readable []) [] "reset password").1.1
      ≠ NoAnswer message reasoning.
Proof. split; [reflexivity | intros m r H; discriminate H]. Qed.

(** A section that wins without a single entry under it is answered with
    no answer text. *)
Example winning_section_without_entries :
  let faq_content := "=== Notes (notes.txt) ===" +:+ LF +:+ "reset password" in
  let r := _simulate_claude_analysis "reset password" faq_content in
  decision r = ANSWER ∧ ReasoningEngine.answer r = None
  ∧ best_match_file r = Some "notes.txt".
Proof. vm_compute. done. Qed.

(** C3.  The query "reset password" meets half of its tokens in the one
    file of [account_kb]: the score 0.5 is not above the threshold, the
    decision is NO_ANSWER and the answer is unset, but the file name
    stays in the result. *)
Theorem no_answer_keeps_file :
  let r := _simulate_claude_analysis "reset password"
             (get_structured_content_for_claude account_kb) in
  decision r = NO_ANSWER
  ∧ ReasoningEngine.answer r = None
  ∧ best_match_file r = Some "account.txt"
  ∧ analysis r = no_answer_text (1 # 2).
Proof. vm_compute. done. Qed.

(** On NO_ANSWER the answer is always unset. *)
Lemma no_answer_unsets_answer (query faq_content : string) :
  decision (_simulate_claude_analysis query faq_content) = NO_ANSWER →
  ReasoningEngine.answer (_simulate_claude_analysis query faq_content) = None.
Proof.
  unfold _simulate_claude_analysis. by destruct (Qgtb _ _).
Qed.

End Handler.

(** ** Triage classifier *)

Section Triage.
Import AnalyticsLogger.

Lemma any_keyword_hits (keywords : list string) (question_text : string) :
  any_keyword keywords (lower question_text) = true ↔ hits keywords question_text.
Proof.
  unfold any_keyword, hits. rewrite existsb_exists. split.
  - intros (k & Hin & Hc). exists k.
    split; [by apply list_elem_of_In | by apply contains_substring].
  - intros (k & Hin & Hs). exists k.
    split; [by apply list_elem_of_In | by apply contains_substring].
Qed.




(** A text without a keyword of any category is general. *)
Lemma categorize_default (question_text : string) :
  (∀ cat, cat ∈ categories → ¬ hits cat.2 question_text) →
  _categorize_question question_text = "general".
Proof.
  unfold _categorize_question.
  induction categories as [|[category keywords] cats IH]; intros H; [done |].
  simpl. destruct (any_keyword keywords _) eqn:E.
  - apply any_keyword_hits in E. destruct (H (category, keywords)); [by left | done].
  - apply IH. intros cat Hc. apply H. by right.
Qed.

(** The keyword lists are searched in order: a text with keywords of two
    lists takes the priority of the earlier one. *)
Example priority_order :
  _calculate_priority "Billing page is DOWN" = "urgent"
  ∧ _calculate_priority "update my billing address" = "high"
  ∧ _calculate_priority "how to install" = "medium"
  ∧ _calculate_priority "hello there" = "low".
Proof. vm_compute. done. Qed.

End Triage.

(** ** Deduplicator *)

Section Deduplicator.
Import AnalyticsLogger.

Lemma jaccard_range (a b : gset string) :
  (0 <= jaccard a b)%Q ∧ (jaccard a b <= 1)%Q.
Proof.
  unfold jaccard. destruct (decide _) as [E | N]; [split; discriminate |].
  apply ratio_bounds; [| done].
  apply subseteq_size. intros w [Hw _]%elem_of_intersection.
  apply elem_of_union. by left.
Qed.

Lemma jaccard_sym (a b : gset string) : jaccard a b = jaccard b a.
Proof.
  unfold jaccard.
  by rewrite (comm_L (∪) a b), (comm_L (∩) a b).
Qed.

Lemma jaccard_self (a : gset string) : a ≠ ∅ → (jaccard a a == 1)%Q.
Proof.
  intros Hne. unfold jaccard. rewrite (idemp_L (∪) a), (idemp_L (∩) a).
  destruct (decide _) as [E%size_empty_iff%leibniz_equiv | N]; [done |].
  apply Qmult_inv_r. intros H0.
  pose proof (of_len_pos _ N) as Hpos. rewrite H0 in Hpos.
  by apply Qlt_irrefl in Hpos.
Qed.

(** The test made by the loop is [similarity > 0.7], a pair of empty token
    sets counting for the similarity 0. *)
Lemma similar_enough_jaccard (question_text : string)
    (existing : UnansweredQuestion) :
  similar_enough (norm_words question_text) existing = true
  ↔ (7 # 10 < similarity question_text existing)%Q.
Proof.
  unfold similar_enough, similarity, jaccard.
  destruct (decide _) as [E | N].
  - rewrite E. simpl. split; discriminate.
  - destruct (0 <? _)%nat eqn:Hpos; [apply Qgtb_lt |].
    apply Nat.ltb_ge in Hpos. lia.
Qed.

Lemma first_similar_spec (question_text : string)
    (l : list UnansweredQuestion) :
  match first_similar (norm_words question_text) l with
  | Some r =>
      ∃ pre post, l = pre ++ r :: post
        ∧ (7 # 10 < similarity question_text r)%Q
        ∧ ∀ c, c ∈ pre → (similarity question_text c <= 7 # 10)%Q
  | None => ∀ c, c ∈ l → (similarity question_text c <= 7 # 10)%Q
  end.
Proof.
  induction l as [|x l IH]; simpl; [by intros c Hc%elem_of_nil |].
  destruct (similar_enough _ x) eqn:Hx.
  - apply similar_enough_jaccard in Hx.
    exists [], l. split; [done |]. split; [done |]. by intros c Hc%elem_of_nil.
  - assert (similarity question_text x <= 7 # 10)%Q as Hle.
    { apply Qnot_lt_le. intros H%similar_enough_jaccard. congruence. }
    destruct (first_similar _ l) as [r|].
    + destruct IH as (pre & post & -> & Hr & Hpre).
      exists (x :: pre), post. split; [done |]. split; [done |].
      intros c [-> | Hc]%elem_of_cons; [done | by apply Hpre].
    + intros c [-> | Hc]%elem_of_cons; [done | by apply IH].
Qed.

Lemma elem_of_open (db : Database) (c : UnansweredQuestion) :
  c ∈ List.filter is_open (rows db)
  ↔ c ∈ rows db ∧ (status c = "pending" ∨ status c = "in_progress").
Proof.
  rewrite !list_elem_of_In, filter_In. unfold is_open.
  by rewrite orb_true_iff, !String.eqb_eq.
Qed.

(** C5, as the code has it.  The candidates are the rows whose status is
    pending or in_progress, in table order.  The scan returns the first
    candidate whose Jaccard similarity to the question exceeds 0.7 (two
    empty token sets have similarity 0) and stops there; it returns nothing
    exactly when no candidate exceeds 0.7.  The write that follows merges
    into the returned row, and adds a new row when nothing was returned. *)
Theorem find_similar_first_match (db : Database) (question_text : string) :
  read_fault db = None →
  let candidates := List.filter is_open (rows db) in
  let sim := similarity question_text in
  (∀ c, c ∈ candidates
        ↔ c ∈ rows db ∧ (status c = "pending" ∨ status c = "in_progress"))
  ∧ (∀ c, (0 <= sim c)%Q ∧ (sim c <= 1)%Q)
  ∧ match (_find_similar_question db question_text).1 with
    | Some r =>
        ∃ pre post, candidates = pre ++ r :: post
          ∧ (7 # 10 < sim r)%Q
          ∧ ∀ c, c ∈ pre → (sim c <= 7 # 10)%Q
    | None => ∀ c, c ∈ candidates → (sim c <= 7 # 10)%Q
    end
  ∧ ∀ now db_now,
      commit_fault db = None →
      rows (log_unanswered_question db now db_now question_text).1.2
      = match (_find_similar_question db question_text).1 with
        | Some r => merge_row db_now (bump r now) (rows db)
        | None =>
            rows db ++ [new_row (rows db) db_now question_text
                          (_calculate_priority question_text)
                          (_categorize_question question_text)]
        end.
Proof.
  intros Hread candidates sim.
  split; [apply elem_of_open |]. split; [intros c; apply jaccard_range |].
  split.
  - unfold _find_similar_question. rewrite Hread. simpl.
    apply first_similar_spec.
  - intros now db_now Hcommit. unfold log_unanswered_question.
    destruct (_find_similar_question db question_text) as [[r|] errs];
      simpl; by rewrite Hcommit.
Qed.

Lemma find_similar_first_match_witness :
  read_fault near_first = None
  ∧ (∃ pre post,
       List.filter is_open (rows near_first)
       = pre ++ row 1 "How do I reset my password now?" :: post
       ∧ (7 # 10 < similarity "how do i reset my password"
                     (row 1 "How do I reset my password now?"))%Q
       ∧ ∀ c, c ∈ pre → (similarity "how do i reset my password" c <= 7 # 10)%Q).
Proof.
  split; [reflexivity |].
  exact (proj1 (proj2 (proj2
    (find_similar_first_match near_first "how do i reset my password" eq_refl)))).
Defined.

(** C5, as the claim has it, fails: the row returned is the first one above
    0.7 (similarity 6/7), while the second row has the greatest similarity
    (1). *)
Lemma find_similar_not_greatest :
  (_find_similar_question near_first "how do i reset my password").1
  = Some (row 1 "How do I reset my password now?")
  ∧ row 2 "How do I reset my password?" ∈ List.filter is_open (rows near_first)
  ∧ (similarity "how do i reset my password"
       (row 1 "How do I reset my password now?")
     < similarity "how do i reset my password"
         (row 2 "How do I reset my password?"))%Q
  ∧ ¬ first_greatest (similarity "how do i reset my password")
        (row 1 "How do I reset my password now?")
        (List.filter is_open (rows near_first)).
Proof.
  assert (similarity "how do i reset my password"
            (row 1 "How do I reset my password now?")
          < similarity "how do i reset my password"
              (row 2 "How do I reset my password?"))%Q as Hlt
    by (vm_compute; reflexivity).
  split; [vm_compute; reflexivity |].
  split; [apply elem_of_open; split; [set_solver | by left] |].
  split; [exact Hlt |].
  intros Hfg.
  assert (row 2 "How do I reset my password?"
          ∈ List.filter is_open (rows near_first)) as Hin
    by (apply elem_of_open; split; [set_solver | by left]).
  pose proof (first_greatest_bound _ _ _ Hfg _ Hin) as Hle.
  by apply Qlt_not_le in Hlt.
Qed.

(** *** Failures of the persistence layer *)

(** C9, as the code has it.  The scan never raises.  When the read fails,
    the failure goes to the error log and the scan returns [None], the
    value it also returns when no candidate is similar; the caller then
    takes the new-question path.  [log_unanswered_question] reports [False]
    exactly when its own commit fails, and then leaves the table as it
    was. *)
Theorem scan_failure_swallowed (db : Database) (now db_now : Z)
    (question_text e : string) :
  read_fault db = Some e →
  _find_similar_question db question_text
  = (None, ["Failed to find similar questions: " +:+ e])
  ∧ (_find_similar_question db question_text).1
    = (_find_similar_question empty_table question_text).1
  ∧ (commit_fault db = None →
     (log_unanswered_question db now db_now question_text).1
     = (true,
        {| rows := rows db ++ [new_row (rows db) db_now question_text
                                 (_calculate_priority question_text)
                                 (_categorize_question question_text)];
           read_fault := read_fault db;
           commit_fault := commit_fault db |}))
  ∧ (∀ e', commit_fault db = Some e' →
     (log_unanswered_question db now db_now question_text).1 = (false, db)).
Proof.
  intros Hread.
  assert (_find_similar_question db question_text
          = (None, ["Failed to find similar questions: " +:+ e])) as Hfind.
  { unfold _find_similar_question. by rewrite Hread. }
  split; [done |]. split; [by rewrite Hfind |].
  unfold log_unanswered_question. rewrite Hfind. simpl.
  split; [intros -> | intros e' ->]; done.
Qed.

Lemma scan_failure_swallowed_witness :
  read_fault read_down = Some "connection refused"
  ∧ _find_similar_question read_down "how do i reset my password"
    = (None, ["Failed to find similar questions: connection refused"]).
Proof.
  split; [reflexivity |].
  exact (proj1 (scan_failure_swallowed read_down 7 7
                  "how do i reset my password" "connection refused" eq_refl)).
Defined.

(** C9, as the claim has it, fails: with the read failing, the scan gives
    the caller the very value of "no duplicate found", and the caller
    reports success after adding a second row for a question that was
    already in the table. *)
Lemma scan_failure_not_surfaced :
  (_find_similar_question read_down "how do i reset my password").1
  = (_find_similar_question empty_table "how do i reset my password").1
  ∧ (log_unanswered_question read_down 7 7 "how do i reset my password").1.1
    = true
  ∧ question
      <$> rows (log_unanswered_question read_down 7 7
                  "how do i reset my password").1.2
    = ["How do I reset my password?"; "how do i reset my password"].
Proof. vm_compute. done. Qed.

(** *** The merge *)

(** C10.  When the scan returns a row and the commit succeeds, the call
    reports success; the row object gets its frequency raised by exactly 1
    and its last-asked instant set, every other column of the object
    staying as it was (question text, priority, category, status and key
    among them); the table keeps its length, the rows with another key
    are untouched, and the row with that key takes the state of the object
    (with the column [updated_at] refreshed by the flush); the trace holds
    one information line and no call to a classifier. *)
Theorem merge_frame (db : Database) (now db_now : Z) (question_text : string)
    (similar : UnansweredQuestion) :
  (_find_similar_question db question_text).1 = Some similar →
  commit_fault db = None →
  let out := log_unanswered_question db now db_now question_text in
  let obj := bump similar now in
  out.1.1 = true
  ∧ frequency obj = (frequency similar + 1)%Z
  ∧ last_asked obj = now
  ∧ same_but_frequency_and_last_asked similar obj
  ∧ same_but_updated_at obj (touch db_now obj)
  ∧ length (rows out.1.2) = length (rows db)
  ∧ (∀ i r, rows db !! i = Some r →
       rows out.1.2 !! i
       = Some (if (id r =? id similar)%nat then touch db_now obj else r))
  ∧ (∃ msg, out.2 = [InfoLog msg])
  ∧ (∀ t q, t ∈ out.2 →
       t ≠ Called_calculate_priority q ∧ t ≠ Called_categorize_question q).
Proof.
  intros Hfind Hcommit out obj.
  assert (_find_similar_question db question_text = (Some similar, [])) as Hf.
  { revert Hfind. unfold _find_similar_question.
    destruct (read_fault db); simpl; [discriminate | by intros ->]. }
  assert (out = (true,
                 {| rows := merge_row db_now obj (rows db);
                    read_fault := read_fault db;
                    commit_fault := commit_fault db |},
                 [InfoLog ("Updated frequency for similar question: "
                           +:+ str_of_nat (id obj))])) as ->.
  { unfold out, log_unanswered_question. rewrite Hf. simpl. by rewrite Hcommit. }
  simpl. split; [done |]. split; [done |]. split; [done |].
  split; [by repeat split |]. split; [by repeat split |].
  split; [apply length_map |]. split.
  - intros i r Hi. unfold merge_row. rewrite list_lookup_fmap, Hi. done.
  - split; [by eexists |].
    intros t q ->%list_elem_of_singleton. done.
Qed.

Lemma merge_frame_witness :
  (_find_similar_question asked_once "how do i reset my password").1
  = Some (row 1 "How do I reset my password?")
  ∧ commit_fault asked_once = None
  ∧ frequency <$> rows (log_unanswered_question asked_once 7 8
                          "how do i reset my password").1.2 = [2%Z]
  ∧ length (rows (log_unanswered_question asked_once 7 8
                    "how do i reset my password").1.2) = 1%nat.
Proof.
  assert ((_find_similar_question asked_once "how do i reset my password").1
          = Some (row 1 "How do I reset my password?")) as Hfind
    by (vm_compute; reflexivity).
  split; [exact Hfind |]. split; [reflexivity |].
  split; [vm_compute; reflexivity |].
  exact (proj1 (proj2 (proj2 (proj2 (proj2 (proj2
    (merge_frame asked_once 7 8 "how do i reset my password"
       (row 1 "How do I reset my password?") Hfind eq_refl))))))).
Defined.

(** The similarity of the two texts is 1. *)
Example same_question_similarity :
  (similarity "how do i reset my password"
     (row 1 "How do I reset my password?") == 1)%Q.
Proof. vm_compute. reflexivity. Qed.

End Deduplicator.

(** ** From the knowledge base to the engine and back *)

Section MoreStrings.

Lemma sall_app (p : ascii → bool) (a b : string) :
  sall p (a +:+ b) = sall p a && sall p b.
Proof.
  induction a as [|c a IH]; [done |].
  rewrite app_cons. simpl. by rewrite IH, andb_assoc.
Qed.

Lemma lacks_app (c : ascii) (a b : string) :
  lacks c (a +:+ b) ↔ lacks c a ∧ lacks c b.
Proof. unfold lacks. by rewrite sall_app, andb_true_iff. Qed.

Lemma lacks_cons (c x : ascii) (s : string) :
  lacks c (String x s) ↔ x ≠ c ∧ lacks c s.
Proof.
  unfold lacks. simpl. rewrite andb_true_iff, negb_true_iff.
  by rewrite <- not_true_iff_false, Ascii.eqb_eq.
Qed.

Lemma srev_onto_app (s acc : string) : srev_onto s acc = srev s +:+ acc.
Proof.
  unfold srev. revert acc. induction s as [|c s IH]; intros acc; simpl; [done |].
  rewrite IH, (IH (String c EmptyString)), app_assoc'. done.
Qed.

Lemma srev_cons (c : ascii) (s : string) :
  srev (String c s) = srev s +:+ String c EmptyString.
Proof. unfold srev at 1. simpl. apply srev_onto_app. Qed.

Lemma srev_app (a b : string) : srev (a +:+ b) = srev b +:+ srev a.
Proof.
  induction a as [|c a IH]; [by rewrite app_empty_l, app_empty_r |].
  by rewrite app_cons, !srev_cons, IH, app_assoc'.
Qed.

Lemma srev_involutive (s : string) : srev (srev s) = s.
Proof.
  induction s as [|c s IH]; [done |].
  by rewrite srev_cons, srev_app, IH.
Qed.

Lemma startswith_app (p s : string) : startswith p (p +:+ s) = true.
Proof. apply startswith_prefix. by exists s. Qed.

End MoreStrings.

Section Split.
Context (c0 : ascii) (sep' : string).
Let sep := String c0 sep'.

Lemma split_from_end (piece : string) :
  split_from sep 0 piece EmptyString = [srev piece].
Proof. done. Qed.

Lemma split_from_free (a rest piece : string) :
  lacks c0 a →
  split_from sep 0 piece (a +:+ rest) = split_from sep 0 (srev a +:+ piece) rest.
Proof.
  revert piece. induction a as [|x a IH]; intros piece Ha; [done |].
  apply lacks_cons in Ha as [Hx Ha].
  rewrite app_cons. cbn [split_from]. unfold sep at 1. cbn [startswith].
  destruct (Ascii.eqb_spec c0 x) as [-> | _]; [done |]. simpl.
  rewrite IH by done. by rewrite srev_cons, app_assoc'.
Qed.

Lemma split_from_skip (s rest piece : string) :
  split_from sep (String.length s) piece (s +:+ rest) = split_from sep 0 piece rest.
Proof. induction s as [|x s IH]; [done |]. rewrite app_cons. simpl. apply IH. Qed.

Lemma split_from_sep (rest piece : string) :
  split_from sep 0 piece (sep +:+ rest)
  = srev piece :: split_from sep 0 EmptyString rest.
Proof.
  unfold sep at 2. rewrite app_cons. cbn [split_from].
  change (String c0 (sep' +:+ rest)) with (sep +:+ rest).
  rewrite startswith_app. f_equal.
  unfold sep at 2. simpl. rewrite Nat.sub_0_r. apply split_from_skip.
Qed.

Lemma split_from_free_end (a piece : string) :
  lacks c0 a → split_from sep 0 piece a = [srev piece +:+ a].
Proof.
  intros Ha. rewrite <- (app_empty_r a) at 1.
  rewrite split_from_free by done. simpl.
  by rewrite srev_app, srev_involutive.
Qed.

End Split.

Section Lines.

Lemma join_cons (sep x : string) (l : list string) :
  l ≠ [] → join sep (x :: l) = x +:+ sep +:+ join sep l.
Proof. by destruct l. Qed.

Lemma join_app (sep : string) (a b : list string) :
  a ≠ [] → b ≠ [] →
  join sep (a ++ b) = join sep a +:+ sep +:+ join sep b.
Proof.
  intros Ha Hb. induction a as [|x a IH]; [done |].
  destruct a as [|y a].
  - simpl app. by rewrite join_cons.
  - change ((x :: y :: a) ++ b) with (x :: ((y :: a) ++ b)).
    rewrite !join_cons by done. rewrite IH by done.
    by rewrite !app_assoc'.
Qed.

Lemma split_from_join (piece x : string) (l : list string) :
  lacks LFc x → Forall (lacks LFc) l →
  split_from LF 0 piece (join LF (x :: l)) = (srev piece +:+ x) :: l.
Proof.
  revert piece x. induction l as [|y l IH]; intros piece x Hx Hl.
  - apply (split_from_free_end LFc EmptyString). done.
  - apply Forall_cons in Hl as [Hy Hl].
    rewrite join_cons by done.
    rewrite (split_from_free LFc EmptyString) by done.
    rewrite (split_from_sep LFc EmptyString).
    rewrite srev_app, srev_involutive. f_equal.
    rewrite IH by done. done.
Qed.

(** Lines without a line feed are read back from their joined text. *)
Lemma split_join (x : string) (l : list string) :
  lacks LFc x → Forall (lacks LFc) l → split LF (join LF (x :: l)) = x :: l.
Proof. intros Hx Hl. unfold split. by rewrite split_from_join. Qed.

End Lines.

Section Characters.

Lemma sall_impl (p q : ascii → bool) (s : string) :
  (∀ c, p c = true → q c = true) → sall p s = true → sall q s = true.
Proof.
  intros Hpq. induction s as [|c s IH]; simpl; [done |].
  intros [Hc Hs]%andb_true_iff. by rewrite (Hpq c Hc), IH.
Qed.

Lemma replace_from_sall (p : ascii → bool) (old new : string) (skip : nat)
    (s : string) :
  sall p new = true → sall p s = true →
  sall p (replace_from old new skip s) = true.
Proof.
  intros Hnew. revert skip. induction s as [|c s IH]; intros skip; simpl; [done |].
  intros [Hc Hs]%andb_true_iff. destruct skip as [|k]; [| by apply IH].
  destruct (startswith old (String c s)).
  - rewrite sall_app, Hnew. by apply IH.
  - simpl. by rewrite Hc, IH.
Qed.

Lemma alpha_case (x : ascii) :
  is_alpha x = true →
  is_alpha (lower_char x) = true ∧ is_alpha (upper_char x) = true.
Proof. destruct x as [[] [] [] [] [] [] [] []]; vm_compute; by intros. Qed.

(** Putting a text in title case brings in no character that is not a
    letter. *)
Lemma title_from_lacks (c : ascii) (prev_cased : bool) (s : string) :
  is_alpha c = false → lacks c s → lacks c (title_from prev_cased s).
Proof.
  intros Hc. revert prev_cased.
  induction s as [|x s IH]; intros prev_cased; simpl; [done |].
  intros [Hx Hs]%lacks_cons.
  destruct (is_alpha x) eqn:Ha.
  - apply lacks_cons. split; [| by apply IH].
    destruct (alpha_case x Ha) as [Hl Hu].
    destruct prev_cased; intros E; [rewrite E in Hl | rewrite E in Hu]; congruence.
  - apply lacks_cons. split; [done | by apply IH].
Qed.

Lemma pretty_N_char_digit (x : N) : is_digit (pretty_N_char x) = true.
Proof. unfold pretty_N_char. by repeat case_match. Qed.

Lemma pretty_N_go_digits (x : N) (s : string) :
  sall is_digit s = true → sall is_digit (pretty_N_go x s) = true.
Proof.
  revert s. induction (N.lt_wf_0 x) as [x _ IH]; intros s Hs.
  destruct (decide (x = 0%N)) as [-> | Hx]; [by rewrite pretty_N_go_0 |].
  rewrite pretty_N_go_step by lia.
  apply IH; [apply N.div_lt; lia |].
  simpl. by rewrite pretty_N_char_digit.
Qed.

(** The decimal numeral of a number is made of digits. *)
Lemma str_of_nat_digits (n : nat) : sall is_digit (str_of_nat n) = true.
Proof.
  unfold str_of_nat, pretty, pretty_nat, pretty, pretty_N.
  case_decide; [done |]. by apply pretty_N_go_digits.
Qed.

Lemma str_of_nat_lacks (c : ascii) (n : nat) :
  is_digit c = false → lacks c (str_of_nat n).
Proof.
  intros Hc. apply (sall_impl is_digit); [| apply str_of_nat_digits].
  intros x Hx. apply negb_true_iff, not_true_iff_false.
  intros ->%Ascii.eqb_eq. congruence.
Qed.

End Characters.

Section Header.
Import ReasoningEngine ContentManager.

Lemma search_filename_skip (a b : string) :
  lacks "(" a → search_filename (a +:+ b) = search_filename b.
Proof.
  induction a as [|x a IH]; [done |]. intros [Hx Ha]%lacks_cons.
  rewrite app_cons. simpl.
  destruct (Ascii.eqb_spec x "("); [done | by apply IH].
Qed.

Lemma until_close_run (run rest : string) :
  lacks ")" run →
  until_close (run +:+ String ")" rest) = (run, String ")" rest).
Proof.
  induction run as [|x run IH]; [done |]. intros [Hx Hr]%lacks_cons.
  rewrite app_cons. simpl.
  destruct (Ascii.eqb_spec x ")"); [done |]. by rewrite IH.
Qed.

Lemma file_title_lacks (c : ascii) (filename : string) :
  is_alpha c = false → c ≠ " "%char →
  lacks c filename → lacks c (file_title filename).
Proof.
  intros Hc Hsp Hf. unfold file_title, title.
  apply title_from_lacks; [done |].
  assert (lacks c " ") as Hblank
    by (apply lacks_cons; split; [by intros <- | done]).
  unfold replace. apply replace_from_sall; [exact Hblank |].
  by apply replace_from_sall.
Qed.

(** The header written for a plain file name gives the name back. *)
Lemma search_filename_header (filename : string) :
  plain_name filename → search_filename (header filename) = Some filename.
Proof.
  intros (Hopen & Hclose & _ & _ & Htxt & Hlen). unfold header.
  rewrite search_filename_skip
    by (apply file_title_lacks; [done | done | done]).
  change (" (" +:+ filename +:+ ") ===")
    with (String " " (String "(" (filename +:+ String ")" " ==="))).
  cbn [search_filename]. simpl Ascii.eqb. cbv iota.
  unfold filename_here. rewrite until_close_run by done.
  simpl startswith. rewrite Htxt.
  apply Nat.leb_le in Hlen. by rewrite Hlen.
Qed.

End Header.

Section Strip.
Import ReasoningEngine.

Lemma length_lstrip (s : string) : (String.length (lstrip s) ≤ String.length s)%nat.
Proof.
  induction s as [|c s IH]; simpl; [done |].
  destruct (is_space c); simpl; lia.
Qed.

Lemma lstrip_fixed_head (c : ascii) (s : string) :
  lstrip (String c s) = String c s → is_space c = false.
Proof.
  simpl. destruct (is_space c); [| done]. intros E.
  pose proof (length_lstrip s) as H. rewrite E in H. simpl in H. lia.
Qed.

Lemma lstrip_app_fixed (s t : string) :
  s ≠ EmptyString → lstrip s = s → lstrip (s +:+ t) = s +:+ t.
Proof.
  destruct s as [|c s]; [done |]. intros _ H%lstrip_fixed_head.
  rewrite app_cons. simpl. by rewrite H.
Qed.

Lemma rstrip_app_fixed (t s : string) :
  s ≠ EmptyString → rstrip s = s → rstrip (t +:+ s) = t +:+ s.
Proof.
  intros Hne Hr. unfold rstrip in *.
  assert (lstrip (srev s) = srev s) as Hl.
  { rewrite <- Hr at 2. by rewrite srev_involutive. }
  rewrite srev_app, lstrip_app_fixed; [| by rewrite srev_empty | done].
  by rewrite srev_app, !srev_involutive.
Qed.

(** A text that begins with a character that is no white space and ends
    in a plain text is left as it is by [strip]. *)
Lemma strip_labelled (c : ascii) (t s : string) :
  is_space c = false → s ≠ EmptyString → rstrip s = s →
  strip (String c t +:+ s) = String c t +:+ s.
Proof.
  intros Hc Hne Hr. unfold strip.
  rewrite app_cons. cbn [lstrip]. rewrite Hc, <- app_cons.
  by apply rstrip_app_fixed.
Qed.

Lemma strip_after_blank (s : string) :
  lstrip s = s → rstrip s = s → strip (" " +:+ s) = s.
Proof.
  intros Hl Hr. unfold strip.
  change (" " +:+ s) with (String " " s). cbn [lstrip].
  change (is_space " ") with true. cbv iota. by rewrite Hl.
Qed.

Lemma split1_from_colon (a b piece : string) :
  lacks ":" a →
  split1_from ":" piece (a +:+ String ":" b) = [srev piece +:+ a; b].
Proof.
  revert piece. induction a as [|x a IH]; intros piece.
  - intros _. rewrite app_empty_l. simpl. by rewrite app_empty_r.
  - intros [Hx Ha]%lacks_cons. rewrite app_cons. cbn [split1_from startswith].
    destruct (Ascii.eqb_spec ":" x) as [<- | _]; [done |]. simpl.
    rewrite IH by done. by rewrite srev_cons, app_assoc'.
Qed.

Lemma after_colon_label (a b : string) :
  lacks ":" a → after_colon (a +:+ String ":" b) = b.
Proof.
  intros Ha. unfold after_colon, split1. by rewrite split1_from_colon.
Qed.

End Strip.

Section ReadEntries.
Import ReasoningEngine ContentManager.

(** A line made of a tag, a number, a colon, a blank and a plain text:
    stripping leaves it as it is, it holds a colon, and what follows its
    first colon is the text. *)
Lemma labelled_line (tag : ascii) (i : nat) (text : string) :
  is_space tag = false → tag ≠ ":"%char → plain_text text →
  let line := String tag (str_of_nat i +:+ ": " +:+ text) in
  strip line = line
  ∧ contains ":" line = true
  ∧ strip (after_colon line) = text.
Proof.
  intros Htag Hcolon (Hne & Hl & Hr & _ & _) line.
  assert (line = String tag (str_of_nat i +:+ ": ") +:+ text) as Hshape1.
  { unfold line. by rewrite (app_cons tag), app_assoc'. }
  assert (line = String tag (str_of_nat i) +:+ String ":" (" " +:+ text))
    as Hshape2 by done.
  split; [| split].
  - rewrite Hshape1. by apply strip_labelled.
  - apply contains_substring. rewrite Hshape2.
    by exists (String tag (str_of_nat i)), (" " +:+ text).
  - rewrite Hshape2, after_colon_label.
    + by apply strip_after_blank.
    + apply lacks_cons. split; [done |]. by apply str_of_nat_lacks.
Qed.

Lemma truthy_plain (s : string) : plain_text s → truthy s = true.
Proof. intros [Hne _]. by destruct s. Qed.

Lemma parse_line_empty (st : ParseState) : parse_line st EmptyString = st.
Proof.
  unfold parse_line. change (strip EmptyString) with EmptyString. simpl.
  by rewrite andb_false_r.
Qed.

Lemma parse_line_q (st : ParseState) (i : nat) (qa : Entry) :
  plain_entry qa →
  parse_line st (q_line i qa)
  = {| qa_pairs := save_pair st;
       current_question := question qa;
       current_answer := EmptyString |}.
Proof.
  intros [Hq _].
  destruct (labelled_line "Q" i (question qa) eq_refl ltac:(done) Hq)
    as (Hs & Hc & Ha).
  unfold parse_line, q_line.
  change ("Q" +:+ str_of_nat i +:+ ": " +:+ question qa)
    with (String "Q" (str_of_nat i +:+ ": " +:+ question qa)).
  rewrite Hs, Hc, Ha. done.
Qed.

Lemma parse_line_a (st : ParseState) (i : nat) (qa : Entry) :
  plain_entry qa →
  parse_line st (a_line i qa)
  = {| qa_pairs := qa_pairs st;
       current_question := current_question st;
       current_answer := ContentManager.answer qa |}.
Proof.
  intros [_ Ha'].
  destruct (labelled_line "A" i (ContentManager.answer qa) eq_refl ltac:(done) Ha')
    as (Hs & Hc & Ha).
  unfold parse_line, a_line.
  change ("A" +:+ str_of_nat i +:+ ": " +:+ ContentManager.answer qa)
    with (String "A" (str_of_nat i +:+ ": " +:+ ContentManager.answer qa)).
  rewrite Hs, Hc, Ha. done.
Qed.

Lemma parse_flat_entries (i : nat) (es : list Entry) (st : ParseState) :
  Forall plain_entry es →
  save_pair (foldl parse_line st (flat_entries i es))
  = save_pair st ++ (pair_of <$> es).
Proof.
  revert i st. induction es as [|qa es IH]; intros i st Hes.
  - simpl. by rewrite app_nil_r.
  - apply Forall_cons in Hes as [Hqa Hes].
    cbn [flat_entries foldl].
    rewrite parse_line_empty, parse_line_q, parse_line_a by done.
    rewrite IH by done. cbn [fmap list_fmap].
    unfold save_pair at 1. cbn [current_answer current_question qa_pairs].
    destruct Hqa as [Hq Ha].
    rewrite (truthy_plain _ Hq), (truthy_plain _ Ha). simpl.
    by rewrite <- app_assoc.
Qed.

(** The lines of a file's entries, with or without the two empty lines
    that precede the next header, are read back as the entries. *)
Lemma parse_qa_flat (es : list Entry) (pad : list string) :
  Forall plain_entry es → Forall (λ l, l = EmptyString) pad →
  parse_qa (flat_entries 1 es ++ pad) = pair_of <$> es.
Proof.
  intros Hes Hpad. unfold parse_qa. rewrite foldl_app.
  assert (∀ st, foldl parse_line st pad = st) as ->.
  { induction Hpad as [|l pad -> _ IH]; intros st; [done |].
    simpl. by rewrite parse_line_empty. }
  by rewrite parse_flat_entries.
Qed.

End ReadEntries.

Section Render.
Import ReasoningEngine ContentManager.

Lemma join_entries_flat (i : nat) (es : list Entry) :
  join LF (entries_lines i es) = join LF (flat_entries i es).
Proof.
  revert i. induction es as [|qa es IH]; intros i; [done |].
  cbn [entries_lines entry_lines flat_entries app].
  change (LF +:+ "Q" +:+ str_of_nat i +:+ ": " +:+ question qa)
    with (LF +:+ q_line i qa).
  change ("A" +:+ str_of_nat i +:+ ": " +:+ ContentManager.answer qa)
    with (a_line i qa).
  rewrite (join_cons LF (LF +:+ q_line i qa)) by done.
  rewrite (join_cons LF EmptyString), (join_cons LF (q_line i qa)) by done.
  rewrite app_empty_l, app_assoc'. do 3 f_equal.
  destruct es as [|qa' es]; [done |].
  rewrite !join_cons by done. by rewrite IH.
Qed.

Lemma section_text_pad (f : string * list Entry) :
  section_text false f = section_text true f +:+ LF +:+ LF.
Proof.
  unfold section_text, section_lines. rewrite app_nil_r.
  change (header f.1 :: flat_entries 1 f.2 ++ [EmptyString; EmptyString])
    with ((header f.1 :: flat_entries 1 f.2) ++ [EmptyString; EmptyString]).
  rewrite join_app by done. reflexivity.
Qed.

Lemma join_file_lines (f : string * list Entry) :
  f.2 ≠ [] → join LF (file_lines f) = LF +:+ "=== " +:+ section_text true f.
Proof.
  intros Hes. unfold file_lines, section_text, section_lines.
  rewrite app_nil_r.
  assert (entries_lines 1 f.2 ≠ []) as H1 by by destruct f.2.
  assert (flat_entries 1 f.2 ≠ []) as H2 by by destruct f.2.
  rewrite !join_cons by done. rewrite join_entries_flat.
  fold (file_title f.1). fold (header f.1).
  by rewrite !app_assoc'.
Qed.

Lemma render_blocks (kb : KnowledgeBase) :
  kb ≠ [] → Forall (λ f, f.2 ≠ []) kb →
  get_structured_content_for_claude kb = LF +:+ "=== " +:+ blocks kb.
Proof.
  unfold get_structured_content_for_claude.
  induction kb as [|f kb IH]; [done |]. intros _ [Hf Hkb]%Forall_cons.
  cbn [map concat]. destruct kb as [|g kb].
  - simpl concat. rewrite app_nil_r. by apply join_file_lines.
  - rewrite join_app; [| done | by destruct g].
    rewrite join_file_lines, IH by done.
    change (blocks (f :: g :: kb))
      with (section_text false f +:+ "=== " +:+ blocks (g :: kb)).
    rewrite (section_text_pad f). by rewrite !app_assoc'.
Qed.

End Render.

Section ReadBack.
Import ReasoningEngine ContentManager.

Lemma passes_free (x : string) : lacks "=" x → passes x.
Proof. intros Hx piece rest. by apply (split_from_free "=" "== "). Qed.

Lemma passes_app (x y : string) : passes x → passes y → passes (x +:+ y).
Proof.
  intros Hx Hy piece rest.
  by rewrite app_assoc', Hx, Hy, srev_app, app_assoc'.
Qed.

(** The three signs that close a header are followed by a line feed, not
    by the blank of the mark. *)
Lemma passes_closing : passes ("===" +:+ LF).
Proof. intros piece rest. reflexivity. Qed.

Lemma split_passes_end (x : string) :
  passes x → split "=== " x = [x].
Proof.
  intros Hx. unfold split. rewrite <- (app_empty_r x) at 1.
  rewrite Hx. simpl. by rewrite app_empty_r, srev_involutive.
Qed.

Lemma split_passes_sep (x rest : string) :
  passes x →
  split "=== " (x +:+ "=== " +:+ rest) = x :: split "=== " rest.
Proof.
  intros Hx. unfold split. rewrite Hx.
  rewrite (split_from_sep "=" "== ").
  by rewrite app_empty_r, srev_involutive.
Qed.

Lemma lacks_join (c : ascii) (sep : string) (l : list string) :
  lacks c sep → Forall (lacks c) l → lacks c (join sep l).
Proof.
  intros Hsep. induction 1 as [|x l Hx Hl IH]; [done |].
  destruct l as [|y l]; [done |].
  rewrite join_cons by done. apply lacks_app. split; [done |].
  apply lacks_app. by split.
Qed.

Lemma lacks_labelled (c tag : ascii) (i : nat) (text : string) :
  tag ≠ c → ":"%char ≠ c → " "%char ≠ c → is_digit c = false →
  lacks c text → lacks c (String tag (str_of_nat i +:+ ": " +:+ text)).
Proof.
  intros Htag Hcolon Hblank Hdigit Htext.
  apply lacks_cons. split; [done |].
  apply lacks_app. split; [by apply str_of_nat_lacks |].
  change (": " +:+ text) with (String ":" (String " " text)).
  by rewrite !lacks_cons.
Qed.

Lemma lacks_flat_entries (c : ascii) (i : nat) (es : list Entry) :
  "Q"%char ≠ c → "A"%char ≠ c → ":"%char ≠ c → " "%char ≠ c →
  is_digit c = false →
  Forall (λ qa, lacks c (question qa) ∧ lacks c (ContentManager.answer qa)) es →
  Forall (lacks c) (flat_entries i es).
Proof.
  intros HQ HA Hcolon Hblank Hdigit Hes. revert i.
  induction Hes as [|qa es [Hq Ha] _ IH]; intros i; [constructor |].
  cbn [flat_entries]. repeat constructor; [| | apply IH].
  - by apply lacks_labelled.
  - by apply lacks_labelled.
Qed.

Lemma plain_entries_lack (c : ascii) (es : list Entry) :
  c = LFc ∨ c = "="%char →
  Forall plain_entry es →
  Forall (λ qa, lacks c (question qa) ∧ lacks c (ContentManager.answer qa)) es.
Proof.
  intros Hc Hes. eapply Forall_impl; [exact Hes |].
  intros qa [(_ & _ & _ & Hq1 & Hq2) (_ & _ & _ & Ha1 & Ha2)].
  by destruct Hc as [-> | ->].
Qed.

Lemma lacks_pad (c : ascii) (last : bool) :
  Forall (lacks c) (if last then [] else [EmptyString; EmptyString]).
Proof. destruct last; by repeat constructor. Qed.

(** The lines of a section hold no line feed. *)
Lemma section_lines_LF (last : bool) (f : string * list Entry) :
  plain_file f → Forall (lacks LFc) (section_lines last f).
Proof.
  intros ((Hopen & Hclose & Heq & Hlf & _) & _ & Hes).
  unfold section_lines. constructor.
  - unfold header. apply lacks_app.
    split; [by apply file_title_lacks |].
    change (" (" +:+ f.1 +:+ ") ===")
      with (String " " (String "(" (f.1 +:+ ") ==="))).
    rewrite !lacks_cons, lacks_app. by repeat split.
  - apply Forall_app. split; [| apply lacks_pad].
    apply lacks_flat_entries; try done.
    by apply plain_entries_lack; [left |].
Qed.

(** The text of a section is cut nowhere. *)
Lemma section_text_passes (last : bool) (f : string * list Entry) :
  plain_file f → passes (section_text last f).
Proof.
  intros ((Hopen & Hclose & Heq & Hlf & _) & Hne & Hes).
  unfold section_text, section_lines.
  assert (flat_entries 1 f.2
          ++ (if last then [] else [EmptyString; EmptyString]) ≠ []) as Hbody
    by by destruct f.2.
  rewrite join_cons by done.
  assert (header f.1 = (file_title f.1 +:+ " (" +:+ f.1 +:+ ") ") +:+ "===")
    as -> by (unfold header; by rewrite !app_assoc').
  rewrite app_assoc'.
  rewrite <- (app_assoc' "===" LF).
  apply passes_app; [| apply passes_app; [apply passes_closing |]].
  - apply passes_free. apply lacks_app.
    split; [by apply file_title_lacks |].
    change (" (" +:+ f.1 +:+ ") ")
      with (String " " (String "(" (f.1 +:+ ") "))).
    rewrite !lacks_cons, lacks_app. by repeat split.
  - apply passes_free, lacks_join; [done |].
    apply Forall_app. split; [| apply lacks_pad].
    apply lacks_flat_entries; try done.
    by apply plain_entries_lack; [right |].
Qed.

(** A section is read as the name of its file and the lines under its
    header. *)
Lemma read_section_text (last : bool) (f : string * list Entry) :
  plain_file f →
  read_section (section_text last f)
  = Some (f.1, flat_entries 1 f.2
               ++ (if last then [] else [EmptyString; EmptyString])).
Proof.
  intros Hf. unfold read_section.
  assert (truthy (strip (section_text last f)) = true) as ->.
  { destruct (truthy _) eqn:E; [done |].
    apply truthy_false, strip_empty in E. exfalso. revert E.
    unfold is_blank, section_text, section_lines, header.
    assert (flat_entries 1 f.2
            ++ (if last then [] else [EmptyString; EmptyString]) ≠ []) as Hbody
      by (destruct Hf as (_ & Hne & _); by destruct f.2).
    rewrite join_cons by done. rewrite !sall_app.
    change (sall is_space " (") with false.
    by rewrite andb_false_l, andb_false_r. }
  simpl negb. cbv iota.
  pose proof (section_lines_LF last f Hf) as [Hh Hl]%Forall_cons.
  unfold section_text, section_lines. rewrite split_join by done.
  rewrite search_filename_header; [done |]. by destruct Hf.
Qed.

Lemma sections_of_blocks (kb : KnowledgeBase) :
  kb ≠ [] → Forall plain_file kb →
  omap read_section (split "=== " (blocks kb)) = read_back kb.
Proof.
  induction kb as [|f kb IH]; [done |]. intros _ [Hf Hkb]%Forall_cons.
  destruct kb as [|g kb].
  - cbn [blocks read_back].
    rewrite split_passes_end by by apply section_text_passes.
    cbn [omap list_omap]. by rewrite read_section_text.
  - change (blocks (f :: g :: kb))
      with (section_text false f +:+ "=== " +:+ blocks (g :: kb)).
    rewrite split_passes_sep by by apply section_text_passes.
    cbn [omap list_omap]. rewrite read_section_text by done.
    rewrite IH by done. done.
Qed.

(** The content block written for plain files is read back by the matcher
    as these files, in order, under their names. *)
Theorem sections_of_rendered (kb : KnowledgeBase) :
  Forall plain_file kb →
  sections_of (get_structured_content_for_claude kb) = read_back kb.
Proof.
  intros Hkb. destruct kb as [|f kb]; [done |].
  unfold sections_of. rewrite render_blocks; [| done |].
  - assert (passes LF) as HLF by by apply passes_free.
    rewrite split_passes_sep by done. unfold from1. cbn [tail].
    by apply sections_of_blocks.
  - eapply Forall_impl; [exact Hkb |]. by intros g (_ & Hne & _).
Qed.

(** X19.  The content block written for plain files is read back as these
    files: the matcher finds the files in order under their names, and
    the extractor reads the lines of each file as its entries. *)
Corollary entries_of_rendered (kb : KnowledgeBase) :
  Forall plain_file kb →
  (λ sec, (sec.1, parse_qa sec.2))
    <$> sections_of (get_structured_content_for_claude kb)
  = (λ f, (f.1, pair_of <$> f.2)) <$> kb.
Proof.
  intros Hkb. rewrite sections_of_rendered by done.
  induction Hkb as [|f kb Hf Hkb IH]; [done |].
  cbn [read_back fmap list_fmap]. f_equal.
  - cbn [fst snd]. f_equal. apply parse_qa_flat.
    + by destruct Hf as (_ & _ & Hes).
    + destruct kb; by repeat constructor.
  - apply IH.
Qed.

End ReadBack.

Section OnKnowledgeBase.
Import ReasoningEngine ContentManager.

Lemma read_back_lookup (kb : KnowledgeBase) (i : nat)
    (sec : string * list string) :
  Forall plain_file kb → read_back kb !! i = Some sec →
  ∃ f, kb !! i = Some f ∧ sec.1 = f.1 ∧ parse_qa sec.2 = pair_of <$> f.2.
Proof.
  intros Hkb. revert i. induction Hkb as [|f kb Hf Hkb IH]; intros i; [done |].
  destruct i as [|i]; [| apply IH].
  intros [= <-]. exists f. split; [done |]. split; [done |].
  apply parse_qa_flat; [by destruct Hf as (_ & _ & Hes) |].
  destruct kb; by repeat constructor.
Qed.

(** For a knowledge base of plain files, an answered query gets the answer
    of the first best-scoring entry of the first best-scoring file. *)
Theorem answer_of_knowledge_base (kb : KnowledgeBase) (query : string) :
  Forall plain_file kb →
  let r := _simulate_claude_analysis query
             (get_structured_content_for_claude kb) in
  decision r = ANSWER →
  ∃ i f sec best,
    kb !! i = Some f ∧ read_back kb !! i = Some sec
    ∧ first_greatest (section_score query) sec (read_back kb)
    ∧ best_match_file r = Some f.1
    ∧ first_greatest (entry_score (lower query)) best (pair_of <$> f.2)
    ∧ ReasoningEngine.answer r = Some best.2.
Proof.
  intros Hkb r. subst r. unfold _simulate_claude_analysis.
  rewrite scan_running, sections_of_rendered by done.
  pose proof (running_best_spec (section_score query) (read_back kb)) as Hb.
  unfold best_of in Hb. unfold scan_view.
  destruct (running_best (section_score query) (read_back kb)) as [[sec|] m];
    simpl in *.
  - destruct Hb as (-> & Hpos & Hfg).
    destruct (Qgtb (section_score query sec) (1 # 2)); [| discriminate].
    intros _. simpl.
    pose proof (first_greatest_elem _ _ _ Hfg) as [i Hi]%list_elem_of_lookup.
    destruct (read_back_lookup kb i sec Hkb Hi) as (f & Hf & Hname & Hparse).
    assert (f.2 ≠ []) as Hne.
    { apply list_elem_of_lookup_2 in Hf.
      rewrite Forall_forall in Hkb. by destruct (Hkb f Hf) as (_ & ? & _). }
    destruct (pair_of <$> f.2) as [|first rest] eqn:Hpairs;
      [by destruct f.2 |].
    destruct (extract_first_greatest sec.2 (lower query) first rest Hparse)
      as (best & Hbest & Hres & _).
    exists i, f, sec, best. rewrite Hname, Hpairs. by repeat split.
  - destruct Hb as [-> _]. discriminate.
Qed.

End OnKnowledgeBase.

Section EndToEnd.
Import ReasoningEngine ContentManager Server.

(** The files of [help_kb] are plain. *)
Example help_kb_plain : Forall plain_file help_kb.
Proof.
  repeat constructor; try done; try (intros H; discriminate H).
Qed.

(** The content block of [help_kb] is read back by the matcher as two
    files, under the names of the knowledge base. *)
Example sections_of_help_kb :
  sections_of (get_structured_content_for_claude help_kb)
  = [("account_management.txt",
      [EmptyString; "Q1: How do I change my password?"; "A1: Use the settings page.";
       EmptyString; "Q2: How do I reset it?"; "A2: Click reset."; EmptyString; EmptyString]);
     ("billing.txt",
      [EmptyString; "Q1: What payment methods exist?"; "A1: Cards."])].
Proof. vm_compute. reflexivity. Qed.

(** The lines of each file are read back by the extractor as the entries
    of the knowledge base. *)
Example entries_of_help_kb :
  (λ f, (f.1, parse_qa f.2))
    <$> sections_of (get_structured_content_for_claude help_kb)
  = (λ f, (f.1, (λ qa, (question qa, ContentManager.answer qa)) <$> f.2))
    <$> help_kb.
Proof. vm_compute. reflexivity. Qed.

(** Both entries of the first file score 0.5 for "reset password": the
    file scores 1, and the first entry gives the answer. *)
Example handle_query_answers :
  (handle_query (Readable []) help_kb "reset password").1.1
  = Success (Some "Use the settings page.") (Some "account_management.txt")
      ("Found relevant information in account_management.txt "
       +:+ "(relevance: high). Found relevant content in "
       +:+ "account_management.txt with score 1.00").
Proof. vm_compute. reflexivity. Qed.

Example handle_query_defers :
  (handle_query (Readable []) help_kb "refund policy").1.1
  = NoAnswer no_answer_message
      ("Could not find sufficiently relevant content. "
       +:+ no_answer_text 0).
Proof. vm_compute. reflexivity. Qed.

End EndToEnd.

(** ** The round trip on an example *)

Section RenderedExample.
Import ReasoningEngine ContentManager.

Lemma entries_of_rendered_witness :
  Forall plain_file help_kb
  ∧ (λ sec, (sec.1, parse_qa sec.2))
      <$> sections_of (get_structured_content_for_claude help_kb)
    = (λ f, (f.1, pair_of <$> f.2)) <$> help_kb.
Proof.
  split; [exact help_kb_plain |].
  exact (entries_of_rendered help_kb help_kb_plain).
Defined.

End RenderedExample.

(** ** White space and words *)

Section Words.
Import ContentLoader.

Lemma split_ws_from_blank (run pad : string) :
  is_blank pad → split_ws_from run pad = split_ws_from run EmptyString.
Proof.
  unfold is_blank. revert run. induction pad as [|c pad IH]; intros run; [done |].
  simpl. intros [Hc Hpad]%andb_true_iff. rewrite Hc.
  destruct run; [by rewrite IH | by rewrite IH].
Qed.

Lemma split_ws_from_app_blank (run a pad : string) :
  is_blank pad → split_ws_from run (a +:+ pad) = split_ws_from run a.
Proof.
  intros Hpad. revert run. induction a as [|c a IH]; intros run.
  - rewrite app_empty_l. by apply split_ws_from_blank.
  - rewrite app_cons. simpl. destruct (is_space c); [| by rewrite IH].
    destruct run; by rewrite IH.
Qed.

Lemma split_ws_lstrip (s : string) : split_ws (lstrip s) = split_ws s.
Proof.
  unfold split_ws. induction s as [|c s IH]; [done |]. simpl.
  destruct (is_space c) eqn:Hc; [done |]. simpl. by rewrite Hc.
Qed.

(** A string is its stripped part followed by white space. *)
Lemma lstrip_split (s : string) : ∃ pad, is_blank pad ∧ s = pad +:+ lstrip s.
Proof.
  induction s as [|c s (pad & Hpad & Hs)]; [by exists EmptyString |].
  simpl. destruct (is_space c) eqn:Hc.
  - exists (String c pad). split; [unfold is_blank; simpl; by rewrite Hc |].
    by rewrite app_cons, <- Hs.
  - by exists EmptyString.
Qed.

Lemma rstrip_split (s : string) : ∃ pad, is_blank pad ∧ s = rstrip s +:+ pad.
Proof.
  destruct (lstrip_split (srev s)) as (pad & Hpad & Hs).
  exists (srev pad). split; [by apply is_blank_srev |].
  unfold rstrip. rewrite <- srev_app, <- Hs. by rewrite srev_involutive.
Qed.

Lemma split_ws_rstrip (s : string) : split_ws (rstrip s) = split_ws s.
Proof.
  destruct (rstrip_split s) as (pad & Hpad & Hs).
  rewrite Hs at 2. unfold split_ws. by rewrite split_ws_from_app_blank.
Qed.

Lemma split_ws_strip (s : string) : split_ws (strip s) = split_ws s.
Proof. unfold strip. by rewrite split_ws_rstrip, split_ws_lstrip. Qed.

Lemma head_tight_lstrip (s : string) : head_tight (lstrip s) = true.
Proof.
  induction s as [|c s IH]; [done |]. simpl.
  destruct (is_space c) eqn:Hc; [done |]. simpl. by rewrite Hc.
Qed.

Lemma tail_tight_snoc (s : string) (c : ascii) :
  tail_tight (s +:+ String c EmptyString) = negb (is_space c).
Proof.
  induction s as [|x s IH]; [done |]. rewrite app_cons.
  cbn [tail_tight]. rewrite IH.
  by destruct (s +:+ String c EmptyString) eqn:E; [destruct s; discriminate |].
Qed.

Lemma tail_tight_srev (s : string) : tail_tight (srev s) = head_tight s.
Proof.
  destruct s as [|c s]; [done |]. rewrite srev_cons. apply tail_tight_snoc.
Qed.

Lemma head_tight_srev (s : string) : head_tight (srev s) = tail_tight s.
Proof. by rewrite <- tail_tight_srev, srev_involutive. Qed.

Lemma tail_tight_rstrip (s : string) : tail_tight (rstrip s) = true.
Proof. unfold rstrip. by rewrite tail_tight_srev, head_tight_lstrip. Qed.

Lemma lstrip_head_tight (s : string) : head_tight s = true → lstrip s = s.
Proof. destruct s as [|c s]; [done |]. simpl. by intros ->%negb_true_iff. Qed.

Lemma rstrip_tail_tight (s : string) : tail_tight s = true → rstrip s = s.
Proof.
  intros H. unfold rstrip. rewrite lstrip_head_tight by by rewrite head_tight_srev.
  apply srev_involutive.
Qed.

Lemma lstrip_snoc (a : string) (c : ascii) :
  is_space c = false →
  lstrip (a +:+ String c EmptyString) = lstrip a +:+ String c EmptyString.
Proof.
  intros Hc. induction a as [|x a IH]; [simpl; by rewrite Hc |].
  rewrite app_cons. simpl. destruct (is_space x); [done | by rewrite app_cons].
Qed.

Lemma head_tight_rstrip (s : string) :
  head_tight s = true → head_tight (rstrip s) = true.
Proof.
  destruct s as [|c s]; [done |]. simpl. intros Hc%negb_true_iff.
  unfold rstrip. rewrite srev_cons, lstrip_snoc, srev_app by done.
  simpl. by rewrite Hc.
Qed.

Lemma head_tight_strip (s : string) : head_tight (strip s) = true.
Proof. unfold strip. apply head_tight_rstrip, head_tight_lstrip. Qed.

Lemma tail_tight_strip (s : string) : tail_tight (strip s) = true.
Proof. apply tail_tight_rstrip. Qed.


Lemma is_wordlike_srev (run : string) :
  run ≠ EmptyString → sall (λ c, negb (is_space c)) run = true →
  is_wordlike (srev run).
Proof.
  intros Hne Hrun. split; [by rewrite srev_empty |].
  unfold srev. by rewrite sall_srev_onto, Hrun.
Qed.

Lemma split_ws_from_words (run s : string) :
  sall (λ c, negb (is_space c)) run = true →
  Forall is_wordlike (split_ws_from run s).
Proof.
  revert run. induction s as [|c s IH]; intros run Hrun; simpl.
  - destruct run; [constructor |]. constructor; [| constructor].
    by apply is_wordlike_srev.
  - destruct (is_space c) eqn:Hc.
    + destruct run; [by apply IH |].
      constructor; [by apply is_wordlike_srev | by apply IH].
    + apply IH. simpl. by rewrite Hc.
Qed.

Lemma split_ws_words (s : string) : Forall is_wordlike (split_ws s).
Proof. by apply split_ws_from_words. Qed.

(** The characters of the words are characters of the text. *)
Lemma split_ws_from_sall (p : ascii → bool) (run s : string) :
  sall p run = true → sall p s = true →
  Forall (λ w, sall p w = true) (split_ws_from run s).
Proof.
  revert run. induction s as [|c s IH]; intros run Hrun Hs; simpl.
  - destruct run; [constructor |]. constructor; [| constructor].
    unfold srev. by rewrite sall_srev_onto, Hrun.
  - simpl in Hs. apply andb_true_iff in Hs as [Hc Hs].
    destruct (is_space c).
    + destruct run; [by apply IH |].
      constructor; [unfold srev; by rewrite sall_srev_onto, Hrun | by apply IH].
    + apply IH; [| done]. simpl. by rewrite Hc.
Qed.

Lemma sall_join (p : ascii → bool) (sep : string) (l : list string) :
  sall p sep = true → Forall (λ w, sall p w = true) l →
  sall p (join sep l) = true.
Proof.
  intros Hsep. induction 1 as [|x l Hx Hl IH]; [done |].
  destruct l as [|y l]; [done |].
  rewrite join_cons by done. by rewrite !sall_app, Hx, Hsep, IH.
Qed.

(** Reading the words of a text that has no white space at its end. *)
Lemma split_ws_from_nonempty (run s : string) :
  s ≠ EmptyString → tail_tight s = true → split_ws_from run s ≠ [].
Proof.
  revert run. induction s as [|c s IH]; intros run Hne Ht; [done |].
  simpl. destruct s as [|d s].
  - simpl in Ht. apply negb_true_iff in Ht. rewrite Ht. simpl. by destruct run.
  - change (tail_tight (String d s) = true) in Ht.
    destruct (is_space c); [destruct run |]; try done; by apply IH.
Qed.

Lemma join_split_ws_from (run s : string) :
  tail_tight s = true →
  join " " (split_ws_from run s)
  = srev run +:+ sub_ws (negb (truthy run)) s.
Proof.
  revert run. induction s as [|c s IH]; intros run Ht.
  - simpl. destruct run; [done |]. simpl. by rewrite app_empty_r.
  - assert (Hs : tail_tight s = true) by by destruct s.
    simpl. destruct (is_space c) eqn:Hc.
    + assert (Hne : s ≠ EmptyString).
      { intros ->. simpl in Ht. by rewrite Hc in Ht. }
      destruct run as [|r run].
      * by rewrite IH.
      * rewrite join_cons by by apply split_ws_from_nonempty.
        rewrite IH by done. reflexivity.
    + rewrite IH by done. rewrite srev_cons, app_assoc'. reflexivity.
Qed.

Lemma sub_ws_head_tight (s : string) :
  head_tight s = true → sub_ws true s = sub_ws false s.
Proof. destruct s as [|c s]; [done |]. simpl. by intros ->%negb_true_iff. Qed.

(** The two idioms of the sources agree: collapsing the runs of white
    space of the stripped text, and joining the words by one blank. *)
Lemma clean_text_words (text : string) :
  _clean_text text = join " " (split_ws text).
Proof.
  unfold _clean_text. rewrite <- (split_ws_strip text). unfold split_ws.
  rewrite join_split_ws_from by apply tail_tight_strip.
  rewrite app_empty_l. symmetry. apply sub_ws_head_tight, head_tight_strip.
Qed.

(** Words joined by one blank are read back as these words. *)
Lemma split_ws_from_word (w run rest : string) :
  sall (λ c, negb (is_space c)) w = true →
  split_ws_from run (w +:+ rest) = split_ws_from (srev w +:+ run) rest.
Proof.
  revert run. induction w as [|c w IH]; intros run Hw; [done |].
  simpl in Hw. apply andb_true_iff in Hw as [Hc Hw].
  rewrite app_cons. simpl. apply negb_true_iff in Hc. rewrite Hc.
  rewrite IH by done. by rewrite srev_cons, app_assoc'.
Qed.

Lemma split_ws_join (ws : list string) :
  Forall is_wordlike ws → split_ws (join " " ws) = ws.
Proof.
  unfold split_ws. induction 1 as [|w ws [Hne Hw] Hws IH]; [done |].
  destruct ws as [|v ws].
  - simpl. rewrite <- (app_empty_r w) at 1. rewrite split_ws_from_word by done.
    simpl. rewrite app_empty_r.
    destruct (srev w) eqn:E; [apply (proj1 (srev_empty _)) in E; congruence |].
    by rewrite <- E, srev_involutive.
  - rewrite join_cons by done. rewrite split_ws_from_word by done.
    rewrite app_empty_r. rewrite app_cons, app_empty_l.
    change (split_ws_from (srev w) (String " " (join " " (v :: ws))))
      with (match srev w with
            | EmptyString => split_ws_from EmptyString (join " " (v :: ws))
            | _ => srev (srev w) :: split_ws_from EmptyString (join " " (v :: ws))
            end).
    destruct (srev w) eqn:E; [apply (proj1 (srev_empty _)) in E; congruence |].
    by rewrite <- E, srev_involutive, IH.
Qed.

Lemma split_ws_clean_text (text : string) :
  split_ws (_clean_text text) = split_ws text.
Proof. rewrite clean_text_words. apply split_ws_join, split_ws_words. Qed.

Lemma join_words_tight (ws : list string) :
  Forall is_wordlike ws →
  head_tight (join " " ws) = true ∧ tail_tight (join " " ws) = true.
Proof.
  induction 1 as [|w ws [Hne Hw] Hws [IHh IHt]]; [done |].
  assert (Hh : head_tight w = true).
  { destruct w as [|c w]; [done |]. simpl in *. by apply andb_true_iff in Hw as [-> _]. }
  assert (Htl : tail_tight w = true).
  { clear -Hw. induction w as [|c w IH]; [done |]. simpl in Hw.
    apply andb_true_iff in Hw as [Hc Hw]. destruct w; [done | by apply IH]. }
  destruct ws as [|v ws]; [done |]. rewrite join_cons by done. split.
  - destruct w; [done |]. by rewrite app_cons.
  - clear -IHt Hws. inversion Hws as [|? ? [Hv _] _]; subst.
    assert (Hj : join " " (v :: ws) ≠ EmptyString).
    { destruct ws; [done |]. rewrite join_cons by done. by destruct v. }
    revert Hj IHt. generalize (join " " (v :: ws)) as j. intros j Hj Hjt.
    induction w as [|c w IH].
    + rewrite app_empty_l, app_cons, app_empty_l. by destruct j.
    + rewrite app_cons. cbn [tail_tight].
      by destruct (w +:+ " " +:+ j) eqn:E; [destruct w; discriminate |].
Qed.

End Words.

Section Clean.
Import ContentLoader AnalyticsLogger.

Lemma strip_tight (s : string) :
  head_tight s = true → tail_tight s = true → strip s = s.
Proof.
  intros Hh Ht. unfold strip. rewrite lstrip_head_tight by done.
  by apply rstrip_tail_tight.
Qed.

Lemma strip_join_words (ws : list string) :
  Forall is_wordlike ws → strip (join " " ws) = join " " ws.
Proof. intros [Hh Ht]%join_words_tight. by apply strip_tight. Qed.

Lemma sub_ws_empty (s : string) : sub_ws false s = EmptyString ↔ s = EmptyString.
Proof. destruct s as [|c s]; [done |]. simpl. by destruct (is_space c). Qed.

Lemma clean_text_empty (text : string) :
  _clean_text text = EmptyString ↔ is_blank text.
Proof. unfold _clean_text. by rewrite sub_ws_empty, strip_empty. Qed.

Lemma wordlike_blank_or_black (w : string) :
  is_wordlike w → sall blank_or_black w = true.
Proof.
  intros [_ Hw]. eapply sall_impl; [| exact Hw].
  intros c Hc. unfold blank_or_black. by rewrite Hc.
Qed.

Lemma clean_text_idempotent (text : string) :
  _clean_text (_clean_text text) = _clean_text text.
Proof.
  rewrite (clean_text_words (_clean_text text)).
  by rewrite split_ws_clean_text, <- clean_text_words.
Qed.

Lemma clean_text_strip (text : string) :
  strip (_clean_text text) = _clean_text text.
Proof. rewrite clean_text_words. apply strip_join_words, split_ws_words. Qed.

Lemma clean_text_chars (text : string) :
  sall blank_or_black (_clean_text text) = true.
Proof.
  rewrite clean_text_words. apply sall_join; [done |].
  eapply Forall_impl; [apply split_ws_words |]. apply wordlike_blank_or_black.
Qed.

(** Cleaning brings in no character but the blank. *)
Lemma clean_text_sall (p : ascii → bool) (text : string) :
  p " "%char = true → sall p text = true → sall p (_clean_text text) = true.
Proof.
  intros Hb Ht. rewrite clean_text_words. apply sall_join; [by simpl; rewrite Hb |].
  by apply split_ws_from_sall.
Qed.

Lemma clean_text_lacks (c : ascii) (text : string) :
  c ≠ " "%char → lacks c text → lacks c (_clean_text text).
Proof.
  intros Hc Ht. apply clean_text_sall; [| done].
  apply negb_true_iff, Ascii.eqb_neq. congruence.
Qed.

Lemma blank_or_black_lacks (c : ascii) (s : string) :
  is_space c = true → c ≠ " "%char → sall blank_or_black s = true → lacks c s.
Proof.
  intros Hs Hc. apply sall_impl. intros x. unfold blank_or_black.
  intros [Hx | Hx%Ascii.eqb_eq]%orb_true_iff; apply negb_true_iff, Ascii.eqb_neq.
  - intros ->. by rewrite Hs in Hx.
  - congruence.
Qed.

(** A cleaned text that is not empty, of a text without ["="], is plain. *)
Lemma clean_text_plain (text : string) :
  lacks "=" text → _clean_text text ≠ EmptyString →
  plain_text (_clean_text text).
Proof.
  intros Heq Hne. pose proof (clean_text_words text) as Hw.
  destruct (join_words_tight (split_ws text) (split_ws_words text)) as [Hh Ht].
  rewrite <- Hw in Hh, Ht.
  repeat split; [done | by apply lstrip_head_tight | by apply rstrip_tail_tight | |].
  - apply blank_or_black_lacks; [done | done | apply clean_text_chars].
  - by apply clean_text_lacks.
Qed.

End Clean.

Section Normalize.
Import ContentLoader AnalyticsLogger.

Lemma normalize_text_clean (text : string) :
  _normalize_text text = _clean_text (sfilter kept (lower text)).
Proof. unfold _normalize_text. by rewrite clean_text_words. Qed.

Lemma lower_fixed (s : string) :
  sall (λ c, negb (is_upper c)) s = true → lower s = s.
Proof.
  induction s as [|c s IH]; [done |]. simpl.
  intros [Hc Hs]%andb_true_iff. unfold lower in *. simpl.
  rewrite IH by done. unfold lower_char.
  by apply negb_true_iff in Hc as ->.
Qed.

Lemma sfilter_fixed (p : ascii → bool) (s : string) :
  sall p s = true → sfilter p s = s.
Proof.
  induction s as [|c s IH]; [done |]. simpl.
  intros [Hc Hs]%andb_true_iff. by rewrite Hc, IH.
Qed.

Lemma sall_sfilter (p : ascii → bool) (s : string) : sall p (sfilter p s) = true.
Proof.
  induction s as [|c s IH]; [done |]. simpl.
  destruct (p c) eqn:Hc; [simpl; by rewrite Hc | done].
Qed.

Lemma sall_sfilter_keeps (p q : ascii → bool) (s : string) :
  sall q s = true → sall q (sfilter p s) = true.
Proof.
  induction s as [|c s IH]; [done |]. simpl.
  intros [Hc Hs]%andb_true_iff.
  destruct (p c); [simpl; by rewrite Hc, IH | by apply IH].
Qed.

Lemma kept_not_upper_norm (c : ascii) :
  kept c = true → is_upper c = false → blank_or_black c = true →
  norm_char c = true.
Proof. destruct c as [[] [] [] [] [] [] [] []]; vm_compute; by intros. Qed.

Lemma norm_char_kept (c : ascii) :
  norm_char c = true → kept c = true ∧ is_upper c = false.
Proof. destruct c as [[] [] [] [] [] [] [] []]; vm_compute; by intros. Qed.

Lemma sall_and (p q : ascii → bool) (s : string) :
  sall p s = true → sall q s = true → sall (λ c, p c && q c) s = true.
Proof.
  induction s as [|c s IH]; [done |]. simpl.
  intros [Hp Hps]%andb_true_iff [Hq Hqs]%andb_true_iff.
  by rewrite Hp, Hq, IH.
Qed.

Lemma normalize_text_chars (text : string) :
  sall norm_char (_normalize_text text) = true.
Proof.
  rewrite normalize_text_clean.
  set (x := sfilter kept (lower text)).
  assert (Hk : sall kept (_clean_text x) = true).
  { apply clean_text_sall; [done | apply sall_sfilter]. }
  assert (Hu : sall (λ c, negb (is_upper c)) (_clean_text x) = true).
  { apply clean_text_sall; [done |]. apply sall_sfilter_keeps, sall_lower. }
  pose proof (clean_text_chars x) as Hb.
  pose proof (sall_and _ _ _ (sall_and _ _ _ Hk Hu) Hb) as H.
  eapply sall_impl; [| exact H]. intros c. cbv beta.
  intros [[Hc1 Hc2%negb_true_iff]%andb_true_iff Hc3]%andb_true_iff.
  by apply kept_not_upper_norm.
Qed.

Lemma normalize_text_fixed (n : string) :
  sall norm_char n = true → _clean_text n = n → _normalize_text n = n.
Proof.
  intros Hn Hc. rewrite normalize_text_clean.
  rewrite lower_fixed, sfilter_fixed; [done | |].
  - eapply sall_impl; [| exact Hn]. intros c Hx. by apply norm_char_kept.
  - eapply sall_impl; [| exact Hn]. intros c Hx.
    apply negb_true_iff. by apply norm_char_kept.
Qed.

Lemma normalize_text_idem (text : string) :
  _normalize_text (_normalize_text text) = _normalize_text text.
Proof.
  apply normalize_text_fixed; [apply normalize_text_chars |].
  rewrite normalize_text_clean. apply clean_text_idempotent.
Qed.

End Normalize.

(** ** The file parser *)

Section Parser.
Import ContentManager ContentLoader.

Lemma string_length_app (a b : string) :
  String.length (a +:+ b) = (String.length a + String.length b)%nat.
Proof. induction a as [|c a IH]; [done |]. rewrite app_cons. simpl. by rewrite IH. Qed.

Lemma findall_qa_from_skip (x rest : string) :
  findall_qa_from (String.length x) (x +:+ rest) = findall_qa_from 0 rest.
Proof. induction x as [|c x IH]; [by destruct rest |]. rewrite app_cons. simpl. apply IH. Qed.

Lemma until_a_eq (s : string) :
  until_a s
  = if label "a" (lstrip s) then Some (EmptyString, sdrop 2 (lstrip s))
    else match s with
         | EmptyString => None
         | String c s' =>
             match until_a s' with
             | Some (group, rest) => Some (String c group, rest)
             | None => None
             end
         end.
Proof. by destruct s. Qed.

Lemma until_q_eq (s : string) :
  until_q s
  = if label "q" s || at_end s then (EmptyString, s)
    else match s with
         | EmptyString => (EmptyString, EmptyString)
         | String c s' => let '(group, rest) := until_q s' in (String c group, rest)
         end.
Proof. by destruct s. Qed.

(** No label begins inside a text without colon that is followed by
    another character than the colon. *)
Lemma label_cons (l c d : ascii) (t : string) :
  label l (String c (String d t)) = Ascii.eqb (lower_char c) l && Ascii.eqb d ":".
Proof. reflexivity. Qed.

Lemma startswith_colon (d : ascii) (t : string) :
  startswith ":" (String d t) = Ascii.eqb ":" d.
Proof. unfold startswith. apply andb_true_r. Qed.

Lemma label_inside (l c : ascii) (x rest : string) :
  lacks ":" (String c x) → startswith ":" rest = false →
  label l (String c x +:+ rest) = false.
Proof.
  intros [_ Hx]%lacks_cons Hrest. rewrite app_cons. destruct x as [|d x].
  - rewrite app_empty_l. destruct rest as [|d rest]; [done |].
    rewrite startswith_colon in Hrest. rewrite label_cons.
    rewrite (Ascii.eqb_sym d), Hrest. apply andb_false_r.
  - apply lacks_cons in Hx as [Hd _]. rewrite app_cons, label_cons.
    apply Ascii.eqb_neq in Hd. rewrite Hd. apply andb_false_r.
Qed.

Lemma label_lacks (l : ascii) (s : string) : lacks ":" s → label l s = false.
Proof.
  destruct s as [|c [|d s]]; [done | done |].
  intros [_ [Hd _]%lacks_cons]%lacks_cons. rewrite label_cons.
  apply Ascii.eqb_neq in Hd. rewrite Hd. apply andb_false_r.
Qed.

Lemma lstrip_blank_app (pad t : string) :
  is_blank pad → lstrip (pad +:+ t) = lstrip t.
Proof.
  unfold is_blank. induction pad as [|c pad IH]; [done |]. simpl.
  intros [Hc Hpad]%andb_true_iff. rewrite Hc. by apply IH.
Qed.

Lemma tight_not_blank (s : string) :
  s ≠ EmptyString → tail_tight s = true → lstrip s ≠ EmptyString.
Proof.
  intros Hne Ht Hb. apply lstrip_empty in Hb. unfold is_blank in Hb.
  induction s as [|c s IH]; [done |]. simpl in Hb.
  apply andb_true_iff in Hb as [Hc Hs]. destruct s as [|d s].
  - simpl in Ht. by rewrite Hc in Ht.
  - by apply IH.
Qed.

Lemma lstrip_app_black (s t : string) :
  lstrip s ≠ EmptyString → lstrip (s +:+ t) = lstrip s +:+ t.
Proof.
  induction s as [|c s IH]; [done |]. rewrite app_cons. simpl.
  destruct (is_space c); [apply IH | by rewrite app_cons].
Qed.

Lemma sall_lstrip (p : ascii → bool) (s : string) :
  sall p s = true → sall p (lstrip s) = true.
Proof.
  induction s as [|c s IH]; [done |]. simpl.
  destruct (is_space c); [| done]. by intros [_ Hs]%andb_true_iff; apply IH.
Qed.

Lemma sall_sdrop (p : ascii → bool) (n : nat) (s : string) :
  sall p s = true → sall p (sdrop n s) = true.
Proof.
  revert s. induction n as [|n IH]; intros s; [by destruct s |].
  destruct s as [|c s]; [done |]. simpl.
  by intros [_ Hs]%andb_true_iff; apply IH.
Qed.

Lemma blank_head_not_colon (pad t : string) :
  is_blank pad → startswith ":" t = false → startswith ":" (pad +:+ t) = false.
Proof.
  destruct pad as [|c pad]; [done |]. intros Hpad _.
  rewrite app_cons, startswith_colon.
  unfold is_blank in Hpad. simpl in Hpad. apply andb_true_iff in Hpad as [Hc _].
  apply Ascii.eqb_neq. intros <-. done.
Qed.

(** The question group: a text without colon and without white space at
    its end is read up to the white space before the answer label. *)
Lemma until_a_text (x pad r : string) :
  lacks ":" x → tail_tight x = true → is_blank pad →
  until_a (x +:+ pad +:+ "A:" +:+ r) = Some (x, r).
Proof.
  intros Hx Ht Hpad. induction x as [|c x IH].
  - rewrite app_empty_l, until_a_eq. by rewrite lstrip_blank_app.
  - assert (Htx : tail_tight x = true) by by destruct x.
    rewrite until_a_eq.
    rewrite lstrip_app_black by by apply tight_not_blank.
    destruct (lstrip (String c x)) as [|d y] eqn:Ey;
      [by apply tight_not_blank in Ey |].
    rewrite label_inside; first last.
    { by apply blank_head_not_colon. }
    { rewrite <- Ey. by apply sall_lstrip. }
    rewrite app_cons.
    rewrite IH; [done | by apply lacks_cons in Hx as [_ Hx] | done].
Qed.

(** The answer group runs through a text without colon. *)
Lemma until_q_text (x rest : string) :
  lacks ":" x → startswith ":" rest = false → rest ≠ EmptyString →
  until_q (x +:+ rest) = ((x +:+ (until_q rest).1), (until_q rest).2).
Proof.
  intros Hx Hr Hne. induction x as [|c x IH].
  - rewrite !app_empty_l. by destruct (until_q rest).
  - rewrite until_q_eq. rewrite label_inside by done.
    rewrite app_cons.
    assert (Hend : at_end (String c (x +:+ rest)) = false).
    { simpl. destruct (x +:+ rest) eqn:E; [| done].
      destruct x; [by rewrite app_empty_l in E | discriminate]. }
    rewrite Hend. simpl.
    rewrite IH by by apply lacks_cons in Hx as [_ Hx].
    by rewrite app_cons.
Qed.

Lemma until_q_label (s : string) : label "q" s = true → until_q s = (EmptyString, s).
Proof. intros H. rewrite until_q_eq. by rewrite H. Qed.

Lemma label_free_tight (s : string) :
  label_free s → head_tight s = true ∧ tail_tight s = true.
Proof.
  intros (_ & Hc & _). rewrite <- Hc, clean_text_words.
  apply join_words_tight, split_ws_words.
Qed.

Lemma clean_text_pad (s pad : string) :
  is_blank pad → _clean_text (s +:+ pad) = _clean_text s.
Proof.
  intros Hpad. rewrite !clean_text_words. unfold split_ws.
  by rewrite split_ws_from_app_blank.
Qed.

(** What follows an entry in the text of a file: nothing, or the label
    of the next entry. *)
Lemma faq_text_next (qa_pairs : list Entry) :
  faq_text qa_pairs = EmptyString ∨ label "q" (faq_text qa_pairs) = true.
Proof. destruct qa_pairs; [by left | by right]. Qed.

Lemma until_q_gap (rest : string) :
  label "q" rest = true →
  until_q (LF +:+ LF +:+ rest) = (LF +:+ LF, rest).
Proof.
  intros Hrest. destruct rest as [|c [|d t]]; [done | done |].
  change (LF +:+ LF +:+ String c (String d t))
    with (String (chr 10) (String (chr 10) (String c (String d t)))).
  rewrite until_q_eq.
  change (label "q" (String (chr 10) (String (chr 10) (String c (String d t)))))
    with false.
  change (at_end (String (chr 10) (String (chr 10) (String c (String d t)))))
    with false.
  cbv beta iota. change (false || false) with false. cbv iota.
  rewrite (until_q_eq (String (chr 10) (String c (String d t)))).
  change (label "q" (String (chr 10) (String c (String d t)))) with false.
  change (at_end (String (chr 10) (String c (String d t)))) with false.
  change (false || false) with false. cbv iota.
  by rewrite (until_q_label _ Hrest).
Qed.

Lemma until_q_last : until_q (LF +:+ LF) = (LF, LF).
Proof. reflexivity. Qed.

(** The match that begins at an entry of the text of a file. *)
Lemma match_here_entry (qa : Entry) (rest : string) :
  writable qa →
  match_here (entry_text qa +:+ rest)
  = Some (question qa,
          ContentManager.answer qa +:+ (until_q (LF +:+ LF +:+ rest)).1,
          (until_q (LF +:+ LF +:+ rest)).2).
Proof.
  intros [Hq Ha].
  destruct (label_free_tight _ Hq) as [Hqh Hqt].
  destruct (label_free_tight _ Ha) as [Hah Hat].
  destruct Hq as (Hqne & _ & Hqc). destruct Ha as (Hane & _ & Hac).
  unfold entry_text. rewrite !app_assoc'.
  unfold match_here.
  change (label "q" ("Q: " +:+ ?t)) with true. cbv iota.
  change (sdrop 2 ("Q: " +:+ ?t)) with (String " " t).
  change (lstrip (String " " ?t)) with (lstrip t).
  rewrite lstrip_app_fixed by (by try apply lstrip_head_tight).
  change ("A: " +:+ ?t) with ("A:" +:+ String " " t).
  rewrite until_a_text by done.
  change (lstrip (String " " ?t)) with (lstrip t).
  rewrite lstrip_app_fixed by (by try apply lstrip_head_tight).
  by rewrite until_q_text.
Qed.

Lemma cleaned_entry_writable (qa : Entry) (pad : string) :
  writable qa → is_blank pad →
  cleaned_entry (question qa, ContentManager.answer qa +:+ pad) = Some qa.
Proof.
  intros [(Hqne & Hq & _) (Hane & Ha & _)] Hpad. unfold cleaned_entry.
  cbn [fst snd]. rewrite clean_text_pad by done. rewrite Hq, Ha.
  destruct qa as [q a]. cbn in *. by destruct q, a.
Qed.

Lemma findall_qa_entry (qa : Entry) (rest : string) :
  writable qa → label "q" rest = true →
  findall_qa (entry_text qa +:+ rest)
  = (question qa, ContentManager.answer qa +:+ LF +:+ LF) :: findall_qa rest.
Proof.
  intros Hqa Hrest. unfold findall_qa.
  pose proof (match_here_entry qa rest Hqa) as Hm.
  rewrite until_q_gap in Hm by done. cbn [fst snd] in Hm.
  remember (entry_text qa) as m eqn:Em.
  destruct m as [|c m']; [done |].
  rewrite app_cons in *. cbn [findall_qa_from]. rewrite Hm.
  f_equal. cbn [String.length]. rewrite string_length_app.
  replace (S (String.length m' + String.length rest) - String.length rest - 1)%nat
    with (String.length m') by lia.
  apply findall_qa_from_skip.
Qed.

Lemma findall_qa_last (qa : Entry) :
  writable qa →
  findall_qa (entry_text qa)
  = [(question qa, ContentManager.answer qa +:+ LF)].
Proof.
  intros Hqa. unfold findall_qa.
  pose proof (match_here_entry qa EmptyString Hqa) as Hm.
  rewrite app_empty_r in Hm. change (LF +:+ LF +:+ EmptyString) with (LF +:+ LF) in Hm.
  rewrite until_q_last in Hm. cbn [fst snd] in Hm.
  assert (∃ m', entry_text qa = String "Q" (m' +:+ LF)) as [m' Em].
  { exists (": " +:+ question qa +:+ LF +:+ "A: " +:+ ContentManager.answer qa +:+ LF).
    unfold entry_text. by rewrite !app_assoc'. }
  rewrite Em in *. cbn [findall_qa_from]. rewrite Hm.
  f_equal. cbn [String.length]. rewrite string_length_app.
  replace (S (String.length m' + String.length LF) - String.length LF - 1)%nat
    with (String.length m') by lia.
  by rewrite findall_qa_from_skip.
Qed.

Lemma omap_cons {A B} (f : A → option B) (x : A) (l : list A) :
  omap f (x :: l)
  = match f x with Some y => y :: omap f l | None => omap f l end.
Proof. reflexivity. Qed.

(** A file written entry by entry is parsed back as these entries. *)
Lemma findall_faq_text (qa_pairs : list Entry) :
  Forall writable qa_pairs →
  omap cleaned_entry (findall_qa (faq_text qa_pairs)) = qa_pairs.
Proof.
  induction 1 as [|qa rest Hqa Hrest IH]; [done |].
  cbn [faq_text]. destruct (faq_text_next rest) as [Hend | Hnext].
  - destruct rest as [|qa' rest]; [| by destruct (entry_text qa')].
    cbn [faq_text]. rewrite app_empty_r, findall_qa_last by done.
    rewrite omap_cons. by rewrite cleaned_entry_writable.
  - rewrite findall_qa_entry by done. rewrite omap_cons.
    rewrite cleaned_entry_writable by done. by rewrite IH.
Qed.

(** No match begins in a text without colon that stands before a
    question label or at the end. *)
Lemma findall_qa_preamble (preamble s : string) :
  lacks ":" preamble → startswith ":" s = false →
  findall_qa (preamble +:+ s) = findall_qa s.
Proof.
  intros Hp Hs. unfold findall_qa. induction preamble as [|c pre IH]; [done |].
  rewrite app_cons. cbn [findall_qa_from]. unfold match_here.
  rewrite <- app_cons, label_inside by done.
  apply IH. by apply lacks_cons in Hp as [_ Hp].
Qed.

(** X3.  A file that holds, after a heading without colon, for each
    entry a line [Q: question], a line [A: answer] and an empty line is
    parsed back as these entries, when the texts are as [_clean_text]
    leaves them, not empty and without a colon. *)
Theorem parse_faq_file_round_trip (preamble : string) (qa_pairs : list Entry) :
  lacks ":" preamble → Forall writable qa_pairs →
  _parse_faq_file (preamble +:+ faq_text qa_pairs) = qa_pairs.
Proof.
  intros Hp Hqa. unfold _parse_faq_file.
  rewrite findall_qa_preamble; [by apply findall_faq_text | done |].
  by destruct qa_pairs.
Qed.

(** The groups of the matches are made of characters of the text. *)
Lemma until_a_sall (p : ascii → bool) (s group rest : string) :
  sall p s = true → until_a s = Some (group, rest) →
  sall p group = true ∧ sall p rest = true.
Proof.
  revert group rest. induction s as [|c s IH]; intros group rest Hs;
    rewrite until_a_eq.
  - destruct (label "a" (lstrip EmptyString)); [| done].
    by intros [= <- <-].
  - destruct (label "a" (lstrip (String c s))).
    + intros [= <- <-]. split; [done |].
      apply (sall_sdrop p 2 (lstrip (String c s))). by apply sall_lstrip.
    + simpl in Hs. apply andb_true_iff in Hs as [Hc Hs].
      destruct (until_a s) as [[g r]|]; [| done]. intros [= <- <-].
      destruct (IH g r Hs eq_refl) as [Hg Hr]. simpl. by rewrite Hc, Hg.
Qed.

Lemma until_q_sall (p : ascii → bool) (s : string) :
  sall p s = true →
  sall p (until_q s).1 = true ∧ sall p (until_q s).2 = true.
Proof.
  induction s as [|c s IH]; intros Hs; rewrite until_q_eq.
  - by destruct (label "q" EmptyString || at_end EmptyString).
  - destruct (label "q" (String c s) || at_end (String c s)); [done |].
    simpl in Hs. apply andb_true_iff in Hs as [Hc Hs].
    destruct (IH Hs) as [Hg Hr]. destruct (until_q s) as [g r].
    simpl in *. by rewrite Hc, Hg.
Qed.

Lemma match_here_sall (p : ascii → bool) (s question answer rest : string) :
  sall p s = true → match_here s = Some (question, answer, rest) →
  sall p question = true ∧ sall p answer = true.
Proof.
  intros Hs. unfold match_here. destruct (label "q" s); [| done].
  destruct (until_a (lstrip (sdrop 2 s))) as [[g r]|] eqn:Ea; [| done].
  apply until_a_sall with (p := p) in Ea as [Hg Hr];
    [| by apply sall_lstrip, sall_sdrop].
  destruct (until_q_sall p (lstrip r)) as [Ha _]; [by apply sall_lstrip |].
  destruct (until_q (lstrip r)) as [a r']. by intros [= <- <- <-].
Qed.

Lemma findall_qa_from_sall (p : ascii → bool) (skip : nat) (s : string) :
  sall p s = true →
  Forall (λ m, sall p m.1 = true ∧ sall p m.2 = true) (findall_qa_from skip s).
Proof.
  revert skip. induction s as [|c s IH]; intros skip Hs; [constructor |].
  assert (Hs' : sall p s = true) by by simpl in Hs; apply andb_true_iff in Hs as [_ Hs].
  cbn [findall_qa_from]. destruct skip; [| by apply IH].
  destruct (match_here (String c s)) as [[[q a] r]|] eqn:Em; [| by apply IH].
  constructor; [| by apply IH]. by apply (match_here_sall p) in Em.
Qed.

Lemma findall_qa_from_lacks (skip : nat) (s : string) :
  lacks ":" s → findall_qa_from skip s = [].
Proof.
  revert skip. induction s as [|c s IH]; intros skip Hs; [done |].
  cbn [findall_qa_from]. destruct skip as [|k];
    [| by apply IH; apply lacks_cons in Hs as [_ Hs]].
  unfold match_here. rewrite label_lacks by done.
  by apply IH; apply lacks_cons in Hs as [_ Hs].
Qed.

Lemma cleaned_entry_cleaned (m : string * string) (qa : Entry) :
  cleaned_entry m = Some qa →
  cleaned qa
  ∧ question qa = _clean_text m.1 ∧ ContentManager.answer qa = _clean_text m.2.
Proof.
  unfold cleaned_entry.
  destruct (truthy (_clean_text m.1)) eqn:Hq; [| done].
  destruct (truthy (_clean_text m.2)) eqn:Ha; [| done].
  intros [= <-]. unfold cleaned. cbn [question ContentManager.answer].
  rewrite !clean_text_idempotent.
  repeat split; try done; intros E; [by rewrite E in Hq | by rewrite E in Ha].
Qed.

Lemma parse_faq_file_elem (content : string) (qa : Entry) :
  qa ∈ _parse_faq_file content →
  ∃ m, m ∈ findall_qa content ∧ cleaned_entry m = Some qa.
Proof. unfold _parse_faq_file. by rewrite list_elem_of_omap. Qed.

End Parser.

(** ** The loader *)

Section Loader.
Import ReasoningEngine ContentManager ContentLoader Server.

Lemma parse_faq_file_cleaned (content : string) :
  Forall cleaned (_parse_faq_file content).
Proof.
  apply Forall_forall. intros qa (m & _ & Hm)%parse_faq_file_elem.
  by apply cleaned_entry_cleaned in Hm as [Hc _].
Qed.

Lemma parse_faq_file_sall (p : ascii → bool) (content : string) :
  p " "%char = true → sall p content = true →
  Forall (λ qa, sall p (question qa) = true
                ∧ sall p (ContentManager.answer qa) = true)
         (_parse_faq_file content).
Proof.
  intros Hb Hc. apply Forall_forall. intros qa (m & Hin & Hm)%parse_faq_file_elem.
  apply cleaned_entry_cleaned in Hm as (_ & -> & ->).
  pose proof (findall_qa_from_sall p 0 content Hc) as Hall.
  rewrite Forall_forall in Hall. destruct (Hall m Hin) as [H1 H2].
  split; by apply clean_text_sall.
Qed.

Lemma parse_faq_file_plain (content : string) :
  lacks "=" content → Forall plain_entry (_parse_faq_file content).
Proof.
  intros Hc. apply Forall_forall. intros qa (m & Hin & Hm)%parse_faq_file_elem.
  apply cleaned_entry_cleaned in Hm as ((Hq & Ha & _) & Eq & Ea).
  pose proof (findall_qa_from_sall _ 0 content Hc) as Hall.
  rewrite Forall_forall in Hall. destruct (Hall m Hin) as [H1 H2].
  split.
  - rewrite Eq in *. by apply clean_text_plain.
  - rewrite Ea in *. by apply clean_text_plain.
Qed.

Lemma load_all_faqs_elem (parsed : list (string * list Entry))
    (f : string * list Entry) :
  f ∈ load_all_faqs parsed ↔ f ∈ parsed ∧ f.2 ≠ [].
Proof.
  unfold load_all_faqs. rewrite !list_elem_of_In, filter_In.
  destruct f.2; split; intros [? ?]; by split.
Qed.

Lemma parse_files_elem (dir : Directory) (f : string * list Entry) :
  f ∈ parse_files dir ∧ f.2 ≠ []
  ↔ ∃ content, (f.1, Some content) ∈ dir
      ∧ f.2 = _parse_faq_file content ∧ f.2 ≠ [].
Proof.
  unfold parse_files. split.
  - intros [Hin Hne]. apply list_elem_of_In, in_map_iff in Hin as ([name text] & <- & Hin).
    apply list_elem_of_In in Hin. cbn [fst snd] in *.
    destruct text as [content|]; [| done]. by exists content.
  - intros (content & Hin & Hf & Hne). split; [| done].
    apply list_elem_of_In, in_map_iff. exists (f.1, Some content).
    split; [| by apply list_elem_of_In]. cbn [fst snd]. rewrite <- Hf. by destruct f.
Qed.

Lemma load_directory_elem (dir : Directory) (f : string * list Entry) :
  f ∈ load_directory dir
  ↔ ∃ content, (f.1, Some content) ∈ dir
      ∧ f.2 = _parse_faq_file content ∧ f.2 ≠ [].
Proof. unfold load_directory. by rewrite load_all_faqs_elem, parse_files_elem. Qed.

Lemma load_directory_plain (dir : Directory) :
  Forall plain_source dir → Forall plain_file (load_directory dir).
Proof.
  rewrite !Forall_forall. intros Hdir f (content & Hin & Hf & Hne)%load_directory_elem.
  destruct (Hdir _ Hin) as [Hname Htext]. cbn [fst snd] in *.
  split; [done |]. split; [done |]. rewrite Hf. by apply parse_faq_file_plain, Htext.
Qed.

Lemma answer_from_success (kb : KnowledgeBase) (query : string)
    (a src : option string) (why : string) :
  (answer_from kb query).1 = Success a src why →
  let r := _simulate_claude_analysis query (get_structured_content_for_claude kb) in
  decision r = ANSWER ∧ a = ReasoningEngine.answer r ∧ src = best_match_file r.
Proof.
  unfold answer_from, analyze_query_against_faqs.
  destruct (decision (_simulate_claude_analysis query
                        (get_structured_content_for_claude kb))) eqn:Hd;
    cbn [fst snd]; [| done].
  by intros [= <- <- _].
Qed.

(** A successful response is the outcome of the analysis of the content
    held after the call, which is the content held before or, when there
    was none, the content loaded. *)
Lemma handle_query_success (disk : Disk) (kb : KnowledgeBase) (query : string)
    (a src : option string) (why : string) :
  (handle_query disk kb query).1.1 = Success a src why →
  ∃ kb', (handle_query disk kb query).1.2 = kb'
    ∧ (kb' = kb ∨ kb = [] ∧ ∃ parsed, disk = Readable parsed ∧ kb' = load_all_faqs parsed)
    ∧ let r := _simulate_claude_analysis query (get_structured_content_for_claude kb') in
      decision r = ANSWER ∧ a = ReasoningEngine.answer r ∧ src = best_match_file r.
Proof.
  unfold handle_query.
  destruct (negb (truthy query) || negb (truthy (strip query))); [done |].
  destruct kb as [|f kb].
  - destruct disk as [parsed | err]; [| done].
    destruct (load_all_faqs parsed) as [|g kb'] eqn:Hload; [done |].
    destruct (answer_from (g :: kb') query) as [resp evs] eqn:Ea.
    cbn [fst snd]. intros ->. exists (g :: kb'). split; [done |].
    split; [right; split; [done | by exists parsed] |].
    apply (answer_from_success _ _ _ _ why). by rewrite Ea.
  - destruct (answer_from (f :: kb) query) as [resp evs] eqn:Ea.
    cbn [fst snd]. intros ->. exists (f :: kb). split; [done |].
    split; [by left |]. apply (answer_from_success _ _ _ _ why). by rewrite Ea.
Qed.

End Loader.

(** ** Cleaned and normalized texts *)

Section Canonical.
Import ContentLoader AnalyticsLogger.

(** X1.  [_clean_text] gives the words of the text joined by single
    blanks: the two idioms of the sources, collapsing the white space of
    the stripped text and joining the split text, agree.  Cleaning a
    cleaned text changes nothing, a cleaned text has no white space at
    either end, and it is empty exactly when the text is blank. *)
Theorem clean_text_canonical (text : string) :
  let t := _clean_text text in
  t = join " " (split_ws text)
  ∧ Forall is_wordlike (split_ws text)
  ∧ _clean_text t = t
  ∧ strip t = t
  ∧ sall blank_or_black t = true
  ∧ (t = EmptyString ↔ is_blank text).
Proof.
  cbv zeta. split; [apply clean_text_words |].
  split; [apply split_ws_words |].
  split; [apply clean_text_idempotent |].
  split; [apply clean_text_strip |].
  split; [apply clean_text_chars | apply clean_text_empty].
Qed.

(** X2.  [_normalize_text] is idempotent; its value is made of lower-case
    letters, digits and blanks, it is the words it splits into joined by
    single blanks, and it has the token set of the text it came from. *)
Theorem normalize_text_canonical (text : string) :
  let n := _normalize_text text in
  _normalize_text n = n
  ∧ sall norm_char n = true
  ∧ n = join " " (split_ws n)
  ∧ Forall is_wordlike (split_ws n)
  ∧ strip n = n
  ∧ norm_words n = norm_words text.
Proof.
  cbv zeta. split; [apply normalize_text_idem |].
  split; [apply normalize_text_chars |].
  split.
  { rewrite <- clean_text_words. rewrite normalize_text_clean.
    symmetry. apply clean_text_idempotent. }
  split; [apply split_ws_words |].
  split; [rewrite normalize_text_clean; apply clean_text_strip |].
  unfold norm_words. by rewrite normalize_text_idem.
Qed.

End Canonical.

(** ** Files and the knowledge base *)

Section Files.
Import ReasoningEngine ContentManager ContentLoader Server.

Lemma password_entries_writable : Forall writable password_entries.
Proof.
  repeat constructor; try done; try (intros H; discriminate H).
Qed.

Lemma parse_faq_file_round_trip_witness :
  lacks ":" ("Account questions" +:+ LF +:+ LF)
  ∧ Forall writable password_entries
  ∧ _parse_faq_file (("Account questions" +:+ LF +:+ LF)
                     +:+ faq_text password_entries)
    = password_entries.
Proof.
  split; [reflexivity |]. split; [exact password_entries_writable |].
  apply (parse_faq_file_round_trip _ password_entries);
    [reflexivity | exact password_entries_writable].
Defined.

(** X4.  Whatever the text of a file, every entry parsed from it has a
    question and an answer that are not empty and are as [_clean_text]
    leaves them; a character other than the blank that the text lacks,
    the entries lack; and a text without a colon has no entry. *)
Theorem parse_faq_file_entries (content : string) :
  Forall cleaned (_parse_faq_file content)
  ∧ (∀ c, c ≠ " "%char → lacks c content →
       Forall (λ qa, lacks c (question qa) ∧ lacks c (ContentManager.answer qa))
              (_parse_faq_file content))
  ∧ (lacks ":" content → _parse_faq_file content = []).
Proof.
  split; [apply parse_faq_file_cleaned |]. split.
  - intros c Hc Hl. apply parse_faq_file_sall; [| done].
    apply negb_true_iff, Ascii.eqb_neq. congruence.
  - intros Hl. unfold _parse_faq_file, findall_qa.
    by rewrite findall_qa_from_lacks.
Qed.

(** X5.  [load_all_faqs] enters a file exactly when it could be read and
    at least one entry was parsed from it, under its name and with the
    entries parsed; a file that raises or has no entry is left out, and
    the files entered keep the order of the directory. *)
Theorem load_directory_spec (dir : Directory) :
  (∀ f, f ∈ load_directory dir
        ↔ ∃ content, (f.1, Some content) ∈ dir
            ∧ f.2 = _parse_faq_file content ∧ f.2 ≠ [])
  ∧ Forall (λ f, (1 ≤ length f.2)%nat) (load_directory dir)
  ∧ sublist (fst <$> load_directory dir) (fst <$> dir).
Proof.
  split; [apply load_directory_elem |]. split.
  - apply Forall_forall. intros f (_ & _ & _ & Hne)%load_directory_elem.
    destruct f.2; [done | simpl; lia].
  - unfold load_directory, load_all_faqs, parse_files.
    induction dir as [|[name text] dir IH]; [done |].
    cbn [map List.filter fst snd].
    destruct (match text with Some content => _parse_faq_file content | None => [] end);
      cbn [fmap list_fmap fst]; [by apply sublist_cons | by apply sublist_skip].
Qed.

(** X6.  From the directory to the answer.  When the files have plain
    names and texts without ["="], a successful response of
    [handle_query], on the content loaded from the directory or loading
    it, names a file of the directory and returns, as it stands, the
    answer of an entry parsed from that file, one whose question scores
    highest among the entries of the file. *)
Theorem directory_answer (dir : Directory) (kb : KnowledgeBase)
    (query : string) (a src : option string) (why : string) :
  Forall plain_source dir →
  kb = [] ∨ kb = load_directory dir →
  (handle_query (Readable (parse_files dir)) kb query).1.1 = Success a src why →
  ∃ name content qa,
    (name, Some content) ∈ dir
    ∧ qa ∈ _parse_faq_file content
    ∧ src = Some name
    ∧ a = Some (ContentManager.answer qa)
    ∧ ∀ qa', qa' ∈ _parse_faq_file content →
        (entry_score (lower query) (pair_of qa')
         <= entry_score (lower query) (pair_of qa))%Q.
Proof.
  intros Hdir Hkb Hok.
  apply handle_query_success in Hok as (kb' & _ & Hkb' & Hd & -> & ->).
  assert (kb' = load_directory dir) as ->.
  { destruct Hkb' as [-> | (_ & parsed & [= <-] & ->)]; [| done].
    destruct Hkb as [-> | ->]; [| done].
    by rewrite analysis_of_nothing in Hd. }
  pose proof (load_directory_plain dir Hdir) as Hplain.
  destruct (answer_of_knowledge_base _ query Hplain Hd)
    as (i & f & sec & best & Hf & _ & _ & Hfile & Hbest & Hans).
  apply list_elem_of_lookup_2, load_directory_elem in Hf
    as (content & Hin & Hparse & _).
  apply first_greatest_elem in Hbest as Hbest_in.
  apply list_elem_of_fmap in Hbest_in as (qa & -> & Hqa).
  exists f.1, content, qa. rewrite <- Hparse.
  repeat split; try done.
  intros qa' Hqa'. apply (first_greatest_bound _ _ _ Hbest).
  by apply list_elem_of_fmap_2.
Qed.

Lemma help_dir_plain : Forall plain_source help_dir.
Proof.
  repeat constructor; try done; try (intros H; discriminate H); cbn [snd];
    intros content [= <-]; done.
Qed.

Lemma directory_answer_witness :
  Forall plain_source help_dir
  ∧ ∃ name content qa,
      (name, Some content) ∈ help_dir
      ∧ qa ∈ _parse_faq_file content
      ∧ Some "account_management.txt" = Some name
      ∧ Some "Use the settings page." = Some (ContentManager.answer qa)
      ∧ ∀ qa', qa' ∈ _parse_faq_file content →
          (entry_score (lower "reset password") (pair_of qa')
           <= entry_score (lower "reset password") (pair_of qa))%Q.
Proof.
  split; [exact help_dir_plain |].
  eapply (directory_answer help_dir [] "reset password");
    [exact help_dir_plain | by left | vm_compute; reflexivity].
Defined.

End Files.

(** ** More on the reasoning engine *)

Section EngineMore.
Import ReasoningEngine.

Lemma until_close_split (s : string) :
  s = (until_close s).1 +:+ (until_close s).2 ∧ lacks ")" (until_close s).1.
Proof.
  induction s as [|c s [IH1 IH2]]; [done |]. cbn [until_close].
  destruct (Ascii.eqb c ")") eqn:Hc; [done |].
  destruct (until_close s) as [run rest]. cbn [fst snd] in *.
  rewrite app_cons, <- IH1. split; [done |].
  apply lacks_cons. split; [by apply Ascii.eqb_neq | done].
Qed.

Lemma filename_here_sound (after_open name : string) :
  filename_here after_open = Some name →
  (∃ rest, after_open = name +:+ ")" +:+ rest)
  ∧ lacks ")" name ∧ endswith ".txt" name = true
  ∧ (5 ≤ String.length name)%nat.
Proof.
  unfold filename_here. destruct (until_close_split after_open) as [Hs Hl].
  destruct (until_close after_open) as [run rest]. cbn [fst snd] in *.
  destruct (startswith ")" rest) eqn:Hr; [| done].
  destruct (endswith ".txt" run) eqn:He; [| done].
  destruct (5 <=? String.length run)%nat eqn:Hn; [| done].
  intros [= <-]. apply startswith_prefix in Hr as [post ->].
  apply Nat.leb_le in Hn. repeat split; try done. by exists post.
Qed.

(** The name read in a header stands there between parentheses, has no
    closing parenthesis in it and ends in [.txt] after at least one
    character. *)
Lemma search_filename_sound (header name : string) :
  search_filename header = Some name →
  is_substring ("(" +:+ name +:+ ")") header
  ∧ lacks ")" name ∧ endswith ".txt" name = true
  ∧ (5 ≤ String.length name)%nat.
Proof.
  induction header as [|c s IH]; [done |]. cbn [search_filename].
  assert (Hrec : search_filename s = Some name →
    is_substring ("(" +:+ name +:+ ")") (String c s)
    ∧ lacks ")" name ∧ endswith ".txt" name = true
    ∧ (5 ≤ String.length name)%nat).
  { intros H. destruct (IH H) as ((pre & post & ->) & ?). split; [| done].
    by exists (String c pre), post. }
  destruct (Ascii.eqb c "(") eqn:Hc; [| done].
  apply Ascii.eqb_eq in Hc as ->.
  destruct (filename_here s) as [f|] eqn:Hf; [| done].
  intros [= ->]. apply filename_here_sound in Hf as ((rest & ->) & ?).
  split; [| done]. exists EmptyString, rest.
  by rewrite app_empty_l, !app_assoc'.
Qed.

(** X7.  The file the analysis names, whatever the content block: its name
    was read between parentheses in the first line of a section of the
    block, has no closing parenthesis in it and ends in [.txt]. *)
Theorem matched_file_name (query faq_content name : string) :
  best_match_file (_simulate_claude_analysis query faq_content) = Some name →
  (∃ section header,
     section ∈ from1 (split "=== " faq_content)
     ∧ split LF section !! 0%nat = Some header
     ∧ is_substring ("(" +:+ name +:+ ")") header)
  ∧ lacks ")" name
  ∧ endswith ".txt" name = true
  ∧ (5 ≤ String.length name)%nat.
Proof.
  intros H.
  assert (Hfile : ∃ f, f ∈ sections_of faq_content ∧ f.1 = name) .
  { revert H. unfold _simulate_claude_analysis. rewrite scan_running.
    pose proof (running_best_spec (section_score query) (sections_of faq_content)) as Hb.
    unfold best_of in Hb. unfold scan_view.
    destruct (running_best (section_score query) (sections_of faq_content))
      as [[f|] m]; cbn [fst snd] in *.
    - destruct Hb as (_ & _ & Hfg). apply first_greatest_elem in Hfg.
      cbn. destruct (Qgtb m (1 # 2)); cbn; intros [= E]; by exists f.
    - cbn. destruct (Qgtb m (1 # 2)); cbn; discriminate. }
  destruct Hfile as (f & Hf & <-).
  unfold sections_of in Hf. apply list_elem_of_omap in Hf as (section & Hsec & Hread).
  unfold read_section in Hread.
  destruct (negb (truthy (strip section))); [done |].
  destruct (split LF section) as [|header body] eqn:Hsplit; [done |].
  destruct (search_filename header) as [n|] eqn:Hn; [| done].
  injection Hread as <-. cbn [fst].
  apply search_filename_sound in Hn as (Hsub & Hrest).
  split; [| done]. exists section, header. by rewrite Hsplit.
Qed.

Lemma matched_file_name_witness :
  best_match_file
    (_simulate_claude_analysis "reset password"
       (ContentManager.get_structured_content_for_claude account_kb))
  = Some "account.txt"
  ∧ lacks ")" "account.txt"
  ∧ endswith ".txt" "account.txt" = true.
Proof.
  assert (H : best_match_file
    (_simulate_claude_analysis "reset password"
       (ContentManager.get_structured_content_for_claude account_kb))
    = Some "account.txt") by (vm_compute; reflexivity).
  split; [exact H |].
  destruct (matched_file_name _ _ _ H) as (_ & Hl & He & _). by split.
Defined.

Lemma share_zero (k n : nat) :
  n ≠ 0%nat → (of_len k / of_len n == 0)%Q ↔ k = 0%nat.
Proof.
  intros Hn. split.
  - intros H. destruct k as [|k]; [done |].
    assert (0 < of_len (S k) / of_len n)%Q as Hpos.
    { apply Qlt_shift_div_l; [by apply of_len_pos |].
      rewrite Qmult_0_l. by apply of_len_pos. }
    rewrite H in Hpos. by apply Qlt_irrefl in Hpos.
  - intros ->. unfold Qdiv. apply Qmult_0_l.
Qed.

(** X8.  The score is 0 exactly when the query has no token, or shares no
    token with the content and does not occur in it as a phrase. *)
Theorem score_zero_iff (query content : string) :
  (_calculate_relevance_score query content == 0)%Q
  ↔ word_set query = ∅
    ∨ (word_set query ∩ word_set content = ∅
       ∧ ¬ is_substring (lower query) (lower content)).
Proof.
  unfold _calculate_relevance_score.
  case_bool_decide as Hq; [split; [by left | reflexivity] |].
  assert (size (word_set query) ≠ 0%nat) as Hn.
  { intros H%size_empty_iff%leibniz_equiv. done. }
  destruct (ratio_bounds _ _ (overlap_le (word_set query) (word_set content)) Hn)
    as [H0 H1].
  destruct (contains (lower query) (lower content)) eqn:Hc.
  - apply contains_substring in Hc. split.
    + intros H. exfalso.
      assert (0 < Qmin (of_len (size (word_set query ∩ word_set content))
                          / of_len (size (word_set query)) + (3 # 10)) 1)%Q as Hpos.
      { apply Q.min_glb_lt; [| done].
        apply (Qlt_le_trans _ (0 + (3 # 10))); [done |].
        apply Qplus_le_compat; [done | apply Qle_refl]. }
      rewrite H in Hpos. by apply Qlt_irrefl in Hpos.
    + intros [? | [_ ?]]; done.
  - assert (¬ is_substring (lower query) (lower content)) as Hno.
    { intros H%contains_substring. congruence. }
    rewrite Q.min_l by done. rewrite share_zero by done.
    rewrite size_empty_iff. split.
    + intros H%leibniz_equiv. by right.
    + intros [? | [-> _]]; done.
Qed.

(** X9.  A query with a token, all of whose tokens are tokens of the
    content, scores 1, whatever else the content holds. *)
Theorem score_full_coverage (query content : string) :
  word_set query ≠ ∅ → word_set query ⊆ word_set content →
  (_calculate_relevance_score query content == 1)%Q.
Proof.
  intros Hq Hsub. unfold _calculate_relevance_score.
  case_bool_decide; [done |].
  rewrite (subseteq_intersection_1_L _ _ Hsub).
  assert (size (word_set query) ≠ 0%nat) as Hn.
  { intros H'%size_empty_iff%leibniz_equiv. done. }
  assert (of_len (size (word_set query)) / of_len (size (word_set query)) == 1)%Q
    as Hone.
  { apply Qmult_inv_r. intros H0.
    pose proof (of_len_pos _ Hn) as Hpos. rewrite H0 in Hpos.
    by apply Qlt_irrefl in Hpos. }
  apply Q.min_r. destruct (contains _ _); rewrite Hone; discriminate.
Qed.

Lemma score_full_coverage_witness :
  word_set "my password" ≠ ∅
  ∧ word_set "my password" ⊆ word_set "Change my PASSWORD now"
  ∧ (_calculate_relevance_score "my password" "Change my PASSWORD now" == 1)%Q.
Proof.
  assert (H1 : word_set "my password" ≠ ∅) by (by vm_compute).
  assert (H2 : word_set "my password" ⊆ word_set "Change my PASSWORD now").
  { apply (bool_decide_unpack _). by vm_compute. }
  split; [exact H1 |]. split; [exact H2 |].
  exact (score_full_coverage "my password" "Change my PASSWORD now" H1 H2).
Defined.

(** X20.  More content never scores lower: when every token of a content
    is a token of a second content, and the query, if it occurs in the
    first as a phrase, occurs in the second, the score against the second
    is at least the score against the first. *)
Theorem score_monotone (query content content' : string) :
  word_set content ⊆ word_set content' →
  (is_substring (lower query) (lower content) →
   is_substring (lower query) (lower content')) →
  (_calculate_relevance_score query content
   <= _calculate_relevance_score query content')%Q.
Proof.
  intros Hsub Hphrase. unfold _calculate_relevance_score.
  case_bool_decide as Hq; [apply Qle_refl |].
  assert (size (word_set query) ≠ 0%nat) as Hn.
  { intros H%size_empty_iff%leibniz_equiv. done. }
  assert (of_len (size (word_set query ∩ word_set content))
          / of_len (size (word_set query))
          <= of_len (size (word_set query ∩ word_set content'))
             / of_len (size (word_set query)))%Q as Hshare.
  { unfold Qdiv. apply Qmult_le_compat_r.
    - apply of_len_le, subseteq_size.
      intros w [Hw1 Hw2]%elem_of_intersection. apply elem_of_intersection.
      split; [done | by apply Hsub].
    - apply Qinv_le_0_compat, of_len_nonneg. }
  destruct (contains (lower query) (lower content)) eqn:Hc.
  - apply contains_substring, Hphrase, contains_substring in Hc. rewrite Hc.
    apply Q.min_le_compat_r. apply Qplus_le_compat; [done | apply Qle_refl].
  - apply Q.min_le_compat_r.
    destruct (contains (lower query) (lower content')); [| done].
    apply (Qle_trans _ _ _ Hshare).
    rewrite <- (Qplus_0_r (_ / _)) at 1.
    apply Qplus_le_compat; [apply Qle_refl | discriminate].
Qed.

Lemma score_monotone_witness :
  word_set "my password" ⊆ word_set "Change my PASSWORD now"
  ∧ (_calculate_relevance_score "reset password" "my password"
     <= _calculate_relevance_score "reset password" "Change my PASSWORD now")%Q.
Proof.
  assert (H : word_set "my password" ⊆ word_set "Change my PASSWORD now").
  { apply (bool_decide_unpack _). by vm_compute. }
  split; [exact H |].
  apply (score_monotone "reset password" "my password" "Change my PASSWORD now" H).
  intros (pre & post & E). exfalso. revert E.
  assert (contains (lower "reset password") (lower "my password") = false) as Hc
    by reflexivity.
  intros E. apply Bool.not_true_iff_false in Hc. apply Hc.
  apply contains_substring. by exists pre, post.
Defined.

End EngineMore.

(** ** More on the backlog *)

Section BacklogMore.
Import AnalyticsLogger.

Lemma first_category_spec (cats : list (string * list string))
    (question_text : string) :
  (∃ pre cat post,
     cats = pre ++ cat :: post
     ∧ (∀ c, c ∈ pre → ¬ hits c.2 question_text)
     ∧ hits cat.2 question_text
     ∧ first_category cats (lower question_text) = cat.1)
  ∨ ((∀ c, c ∈ cats → ¬ hits c.2 question_text)
     ∧ first_category cats (lower question_text) = "general").
Proof.
  induction cats as [|[category keywords] cats IH].
  - right. split; [by intros c Hc%elem_of_nil | done].
  - cbn [first_category]. destruct (any_keyword keywords _) eqn:E.
    + apply any_keyword_hits in E. left.
      exists [], (category, keywords), cats.
      split; [done |]. split; [by intros c Hc%elem_of_nil | done].
    + assert (¬ hits keywords question_text) as Hno.
      { intros H%any_keyword_hits. congruence. }
      destruct IH as [(pre & cat & post & -> & Hpre & Hcat & Hres) | [Hall Hres]].
      * left. exists ((category, keywords) :: pre), cat, post.
        split; [done |]. split; [| done].
        intros c [-> | Hc]%elem_of_cons; [done | by apply Hpre].
      * right. split; [| done].
        intros c [-> | Hc]%elem_of_cons; [done | by apply Hall].
Qed.

(** X10.  [_categorize_question] gives the first category of the table,
    in its order, one of whose keywords occurs in the lower-cased
    question, and [general] when no keyword of any category occurs; its
    value is always the name of a category of the table. *)
Theorem categorize_question_spec (question_text : string) :
  ( (∃ pre cat post,
       categories = pre ++ cat :: post
       ∧ (∀ c, c ∈ pre → ¬ hits c.2 question_text)
       ∧ hits cat.2 question_text
       ∧ _categorize_question question_text = cat.1)
    ∨ ((∀ c, c ∈ categories → ¬ hits c.2 question_text)
       ∧ _categorize_question question_text = "general") )
  ∧ _categorize_question question_text ∈ (fst <$> categories).
Proof.
  pose proof (first_category_spec categories question_text) as H.
  split; [exact H |]. unfold _categorize_question in *.
  destruct H as [(pre & cat & post & E & _ & _ & ->) | [_ ->]].
  - apply list_elem_of_fmap_2. rewrite E. apply elem_of_app. right. by left.
  - vm_compute. repeat (first [by left | right]).
Qed.

End BacklogMore.

(** ** The backlog over several calls *)

Section BacklogCalls.
Import AnalyticsLogger.

Lemma similar_enough_no_token (existing : UnansweredQuestion) :
  similar_enough ∅ existing = false.
Proof.
  unfold similar_enough. rewrite intersection_empty_l_L, size_empty.
  destruct (0 <? _)%nat; [| done].
  apply Qgtb_le. unfold Qdiv. rewrite Qmult_0_l. discriminate.
Qed.

Lemma first_similar_no_token (l : list UnansweredQuestion) :
  first_similar ∅ l = None.
Proof.
  induction l as [|x l IH]; [done |]. cbn [first_similar].
  by rewrite similar_enough_no_token.
Qed.

(** X11.  A question without a letter or a digit is never taken for a
    duplicate, not even of itself: the scan returns nothing whatever the
    backlog holds, and each logging of it that commits adds a row. *)
Theorem no_token_never_merged (db : Database) (now db_now : Z)
    (question_text : string) :
  norm_words question_text = ∅ →
  (_find_similar_question db question_text).1 = None
  ∧ (commit_fault db = None →
     (log_unanswered_question db now db_now question_text).1
     = (true,
        {| rows := rows db ++ [new_row (rows db) db_now question_text
                                 (_calculate_priority question_text)
                                 (_categorize_question question_text)];
           read_fault := read_fault db;
           commit_fault := commit_fault db |})).
Proof.
  intros Hw.
  assert (Hfind : (_find_similar_question db question_text).1 = None).
  { unfold _find_similar_question. destruct (read_fault db); [done |].
    cbn [fst]. rewrite Hw. apply first_similar_no_token. }
  split; [done |]. intros Hc. unfold log_unanswered_question.
  destruct (_find_similar_question db question_text) as [found errs].
  cbn [fst] in Hfind. subst found. by rewrite Hc.
Qed.

Lemma no_token_never_merged_witness :
  norm_words "???" = ∅
  ∧ (_find_similar_question
       {| rows := [row 1 "???"]; read_fault := None; commit_fault := None |}
       "???").1 = None.
Proof.
  assert (H : norm_words "???" = ∅) by (by vm_compute).
  split; [exact H |].
  exact (proj1 (no_token_never_merged
    {| rows := [row 1 "???"]; read_fault := None; commit_fault := None |}
    0 0 "???" H)).
Defined.

Lemma first_similar_some (w : gset string) (l : list UnansweredQuestion)
    (c : UnansweredQuestion) :
  c ∈ l → similar_enough w c = true →
  ∃ r, first_similar w l = Some r ∧ r ∈ l.
Proof.
  intros Hc Hs. induction l as [|x l IH]; [by apply elem_of_nil in Hc |].
  cbn [first_similar]. destruct (similar_enough w x) eqn:Hx.
  - exists x. split; [done | by left].
  - apply elem_of_cons in Hc as [-> | Hc]; [congruence |].
    destruct (IH Hc) as (r & Hr & Hin). exists r. split; [done | by right].
Qed.

Lemma first_similar_elem (w : gset string) (l : list UnansweredQuestion)
    (r : UnansweredQuestion) :
  first_similar w l = Some r → r ∈ l ∧ similar_enough w r = true.
Proof.
  induction l as [|x l IH]; [done |]. cbn [first_similar].
  destruct (similar_enough w x) eqn:Hx.
  - intros [= <-]. split; [by left | done].
  - intros [Hin Hs]%IH. split; [by right | done].
Qed.

Lemma find_similar_elem (db : Database) (question_text : string)
    (r : UnansweredQuestion) :
  (_find_similar_question db question_text).1 = Some r →
  read_fault db = None ∧ r ∈ rows db ∧ is_open r = true
  ∧ similar_enough (norm_words question_text) r = true.
Proof.
  unfold _find_similar_question. destruct (read_fault db); [done |].
  cbn [fst]. intros [Hin Hs]%first_similar_elem.
  apply list_elem_of_In, filter_In in Hin as [Hin Ho].
  by apply list_elem_of_In in Hin.
Qed.

Lemma similar_enough_same_question (w : gset string) (a b : UnansweredQuestion) :
  question a = question b → similar_enough w a = similar_enough w b.
Proof. unfold similar_enough. by intros ->. Qed.

Lemma similar_enough_self (question_text : string) (r : UnansweredQuestion) :
  norm_words question_text ≠ ∅ → question r = question_text →
  similar_enough (norm_words question_text) r = true.
Proof.
  intros Hne Hq. apply similar_enough_jaccard. unfold similarity. rewrite Hq.
  rewrite (jaccard_self _ Hne). reflexivity.
Qed.

Lemma merge_row_elem (db_now : Z) (obj r : UnansweredQuestion)
    (table : list UnansweredQuestion) :
  r ∈ table → id r = id obj → touch db_now obj ∈ merge_row db_now obj table.
Proof.
  intros Hin Hid. unfold merge_row.
  apply list_elem_of_In, in_map_iff. exists r.
  split; [| by apply list_elem_of_In]. by rewrite Hid, Nat.eqb_refl.
Qed.

Lemma length_merge_row (db_now : Z) (obj : UnansweredQuestion)
    (table : list UnansweredQuestion) :
  length (merge_row db_now obj table) = length table.
Proof. apply length_map. Qed.

(** After a logging that commits, the question has a similar open row. *)
Lemma logged_is_found (db : Database) (now db_now : Z) (question_text : string) :
  read_fault db = None → commit_fault db = None →
  norm_words question_text ≠ ∅ →
  ∃ r, (_find_similar_question
          (log_unanswered_question db now db_now question_text).1.2
          question_text).1 = Some r.
Proof.
  intros Hr Hc Hne.
  assert (Hcand : ∃ c,
    c ∈ List.filter is_open
          (rows (log_unanswered_question db now db_now question_text).1.2)
    ∧ similar_enough (norm_words question_text) c = true
    ∧ read_fault (log_unanswered_question db now db_now question_text).1.2 = None).
  { unfold log_unanswered_question.
    destruct (_find_similar_question db question_text) as [[similar|] errs] eqn:Ef.
    - rewrite Hc. cbn [fst snd rows read_fault].
      assert (Hs : (_find_similar_question db question_text).1 = Some similar)
        by by rewrite Ef.
      apply find_similar_elem in Hs as (_ & Hin & Ho & Hs).
      exists (touch db_now (bump similar now)). split; [| split; [| done]].
      + apply list_elem_of_In, filter_In. split; [| exact Ho].
        apply list_elem_of_In. by apply (merge_row_elem _ _ similar).
      + by rewrite (similar_enough_same_question _ _ similar).
    - rewrite Hc. cbn [fst snd rows read_fault].
      exists (new_row (rows db) db_now question_text
                (_calculate_priority question_text)
                (_categorize_question question_text)).
      split; [| split; [| done]].
      + apply list_elem_of_In, filter_In. split; [| done].
        apply in_or_app. right. by left.
      + by apply similar_enough_self. }
  destruct Hcand as (c & Hin & Hs & Hread).
  unfold _find_similar_question at 1. rewrite Hread. cbn [fst].
  destruct (first_similar_some _ _ c Hin Hs) as (r & -> & _). by exists r.
Qed.

(** X12.  A question with a letter or a digit that was logged once is
    found again: logging the same text a second time, with the database
    reachable, merges into a row of the backlog and adds none. *)
Theorem asked_twice_merges (db : Database) (now db_now now' db_now' : Z)
    (question_text : string) :
  read_fault db = None → commit_fault db = None →
  norm_words question_text ≠ ∅ →
  let db1 := (log_unanswered_question db now db_now question_text).1.2 in
  let out := log_unanswered_question db1 now' db_now' question_text in
  (∃ r, (_find_similar_question db1 question_text).1 = Some r ∧ r ∈ rows db1)
  ∧ out.1.1 = true
  ∧ length (rows out.1.2) = length (rows db1).
Proof.
  intros Hr Hc Hne db1 out.
  destruct (logged_is_found db now db_now question_text Hr Hc Hne) as [r Hfound].
  fold db1 in Hfound.
  assert (Hc1 : commit_fault db1 = None).
  { subst db1. unfold log_unanswered_question.
    destruct (_find_similar_question db question_text) as [[?|] ?];
      by rewrite Hc. }
  split.
  { exists r. split; [done |]. by apply find_similar_elem in Hfound as (_ & ? & _). }
  subst out. unfold log_unanswered_question.
  destruct (_find_similar_question db1 question_text) as [found errs].
  cbn [fst] in Hfound. subst found. rewrite Hc1. cbn [fst snd rows].
  split; [done | apply length_merge_row].
Qed.

Lemma asked_twice_merges_witness :
  norm_words "Is it down?" ≠ ∅
  ∧ length (rows (log_unanswered_question
                    (log_unanswered_question empty_table 1 1 "Is it down?").1.2
                    2 2 "Is it down?").1.2)
    = length (rows (log_unanswered_question empty_table 1 1 "Is it down?").1.2).
Proof.
  assert (H : norm_words "Is it down?" ≠ ∅) by (by vm_compute).
  split; [exact H |].
  exact (proj2 (proj2 (asked_twice_merges empty_table 1 1 2 2 "Is it down?"
                         eq_refl eq_refl H))).
Defined.

Lemma merge_row_ids (db_now : Z) (obj : UnansweredQuestion)
    (table : list UnansweredQuestion) :
  id <$> merge_row db_now obj table = id <$> table.
Proof.
  unfold merge_row. induction table as [|r table IH]; [done |].
  cbn [map fmap list_fmap]. f_equal; [| exact IH].
  destruct (id r =? id obj)%nat eqn:E; [| done].
  apply Nat.eqb_eq in E. by rewrite E.
Qed.

Lemma merge_row_other (db_now : Z) (obj : UnansweredQuestion)
    (table : list UnansweredQuestion) :
  id obj ∉ (id <$> table) → merge_row db_now obj table = table.
Proof.
  unfold merge_row. induction table as [|r table IH]; [done |].
  cbn [map fmap list_fmap]. intros Hn.
  apply not_elem_of_cons in Hn as [Hr Hn].
  destruct (id r =? id obj)%nat eqn:E; [apply Nat.eqb_eq in E; congruence |].
  f_equal. by apply IH.
Qed.

Lemma total_frequency_merge (now db_now : Z) (r : UnansweredQuestion)
    (table : list UnansweredQuestion) :
  NoDup (id <$> table) → r ∈ table →
  total_frequency (merge_row db_now (bump r now) table)
  = (total_frequency table + 1)%Z.
Proof.
  induction table as [|x table IH]; intros Hnd Hin; [by apply elem_of_nil in Hin |].
  cbn [fmap list_fmap] in Hnd. apply NoDup_cons in Hnd as [Hx Hnd].
  unfold merge_row. cbn [map]. fold (merge_row db_now (bump r now) table).
  cbn [id bump].
  destruct (id x =? id r)%nat eqn:E.
  - apply Nat.eqb_eq in E.
    assert (x = r) as ->.
    { apply elem_of_cons in Hin as [-> | Hin]; [done |].
      destruct Hx. rewrite E. by apply list_elem_of_fmap_2. }
    rewrite merge_row_other by done. cbn [total_frequency foldr frequency touch].
    fold (total_frequency table). cbn [frequency bump]. lia.
  - apply Nat.eqb_neq in E.
    apply elem_of_cons in Hin as [-> | Hin]; [done |].
    cbn [total_frequency foldr]. fold (total_frequency table).
    fold (total_frequency (merge_row db_now (bump r now) table)).
    rewrite IH by done. lia.
Qed.

Lemma total_frequency_app (a b : list UnansweredQuestion) :
  total_frequency (a ++ b) = (total_frequency a + total_frequency b)%Z.
Proof.
  induction a as [|x a IH]; [done |]. cbn [app total_frequency foldr].
  fold (total_frequency (a ++ b)). fold (total_frequency a). rewrite IH. lia.
Qed.

Lemma next_id_above (table : list UnansweredQuestion) (r : UnansweredQuestion) :
  r ∈ table → (id r < next_id table)%nat.
Proof.
  unfold next_id. induction table as [|x table IH]; [by intros ?%elem_of_nil |].
  intros [-> | Hin]%elem_of_cons; cbn [foldr]; [lia |].
  specialize (IH Hin). lia.
Qed.

Lemma next_id_fresh (table : list UnansweredQuestion) :
  next_id table ∉ (id <$> table).
Proof.
  intros (r & Hid & Hin)%list_elem_of_fmap.
  apply next_id_above in Hin. lia.
Qed.

(** X13.  Logging keeps the keys of the backlog distinct; a logging that
    returns [True] raises the number of times questions were asked, summed
    over the backlog, by exactly one, and a logging that returns [False]
    leaves the database as it was. *)
Theorem logging_counts_once (db : Database) (now db_now : Z)
    (question_text : string) :
  NoDup (id <$> rows db) →
  let out := log_unanswered_question db now db_now question_text in
  NoDup (id <$> rows out.1.2)
  ∧ (out.1.1 = true →
     total_frequency (rows out.1.2) = (total_frequency (rows db) + 1)%Z)
  ∧ (out.1.1 = false → out.1.2 = db).
Proof.
  intros Hnd out. subst out. unfold log_unanswered_question.
  destruct (_find_similar_question db question_text) as [[similar|] errs] eqn:Ef.
  - assert (Hs : (_find_similar_question db question_text).1 = Some similar)
      by by rewrite Ef.
    apply find_similar_elem in Hs as (_ & Hin & _).
    destruct (commit_fault db); cbn [fst snd rows]; [done |].
    split; [by rewrite merge_row_ids |]. split; [| done].
    intros _. by apply total_frequency_merge.
  - destruct (commit_fault db); cbn [fst snd rows]; [done |].
    split; [| split; [| done]].
    + rewrite fmap_app. apply NoDup_app. split; [done |]. split.
      * intros i Hi Hk. cbn [fmap list_fmap] in Hk.
        apply list_elem_of_singleton in Hk. cbn [id new_row] in Hk. subst i.
        by apply next_id_fresh in Hi.
      * apply NoDup_singleton.
    + intros _. rewrite total_frequency_app.
      cbn [total_frequency foldr frequency new_row]. lia.
Qed.

Lemma logging_counts_once_witness :
  NoDup (id <$> rows asked_once)
  ∧ total_frequency
      (rows (log_unanswered_question asked_once 7 8 "how do i reset my password").1.2)
    = 2%Z.
Proof.
  assert (H : NoDup (id <$> rows asked_once)) by apply NoDup_singleton.
  split; [exact H |].
  exact (proj1 (proj2 (logging_counts_once asked_once 7 8
                         "how do i reset my password" H)) eq_refl).
Defined.

End BacklogCalls.

(** ** Summaries of the knowledge base *)

Section Summaries.
Import ContentManager ContentLoader Server ServerTools.

Lemma loaded_nonempty (parsed : list (string * list Entry)) :
  Forall (λ f, f.2 ≠ []) (load_all_faqs parsed).
Proof. apply Forall_forall. by intros f [_ ?]%load_all_faqs_elem. Qed.

Lemma listing_of_eq (kb : KnowledgeBase) :
  listing_of kb
  = ListingSuccess (length kb) (_count_total_qas kb)
      (map (λ f, {| filename := f.1; qa_count := length f.2;
                    category := file_title f.1 |}) kb).
Proof.
  unfold listing_of, get_file_summary, _count_total_qas.
  by rewrite length_map, !map_map.
Qed.

Lemma listing_of_spec (kb : KnowledgeBase) :
  Forall (λ f, f.2 ≠ []) kb →
  ∃ files,
    listing_of kb = ListingSuccess (length kb) (_count_total_qas kb) files
    ∧ Forall2 (λ i f, filename i = f.1 ∧ qa_count i = length f.2
                      ∧ category i = file_title f.1) files kb
    ∧ Forall (λ i, (1 ≤ qa_count i)%nat) files
    ∧ sum_list (qa_count <$> files) = _count_total_qas kb
    ∧ (length kb ≤ _count_total_qas kb)%nat.
Proof.
  intros Hkb. eexists. split; [apply listing_of_eq |].
  unfold _count_total_qas.
  induction Hkb as [|f kb Hf Hkb (IH1 & IH2 & IH3 & IH4)];
    [by repeat split; constructor |].
  assert (1 ≤ length f.2)%nat as Hlen by (destruct f.2; [done | simpl; lia]).
  cbn [map fmap list_fmap length].
  change (sum_list (?x :: ?l)) with (x + sum_list l)%nat.
  cbn [qa_count].
  split; [by constructor |]. split; [by constructor |].
  split; [by rewrite IH3 | lia].
Qed.

(** X14.  [list_available_faqs], on the content of a load or loading it,
    lists the loaded files in order, none with a count of 0; its
    [total_files] is the number of files listed, its [total_qa_pairs] the
    sum of the counts listed, which is what [_count_total_qas] gives and is
    at least the number of files. *)
Theorem list_available_faqs_totals (parsed : list (string * list Entry))
    (kb : KnowledgeBase) :
  kb = [] ∨ kb = load_all_faqs parsed →
  ∃ files,
    list_available_faqs (Readable parsed) kb
    = (ListingSuccess (length files) (sum_list (qa_count <$> files)) files,
       load_all_faqs parsed)
    ∧ Forall2 (λ i f, filename i = f.1 ∧ qa_count i = length f.2
                      ∧ category i = file_title f.1)
              files (load_all_faqs parsed)
    ∧ Forall (λ i, (1 ≤ qa_count i)%nat) files
    ∧ sum_list (qa_count <$> files) = _count_total_qas (load_all_faqs parsed)
    ∧ (length files ≤ sum_list (qa_count <$> files))%nat.
Proof.
  intros Hkb.
  destruct (listing_of_spec _ (loaded_nonempty parsed))
    as (files & Hl & Hf & Hpos & Hsum & Hle).
  exists files. apply Forall2_length in Hf as Hlen.
  assert (list_available_faqs (Readable parsed) kb
          = (listing_of (load_all_faqs parsed), load_all_faqs parsed)) as ->.
  { unfold list_available_faqs. destruct Hkb as [-> | ->]; [done |].
    by destruct (load_all_faqs parsed). }
  rewrite Hl, Hsum, Hlen. by repeat split.
Qed.

Lemma list_available_faqs_totals_witness :
  ∃ files,
    list_available_faqs (Readable (parse_files help_dir)) []
    = (ListingSuccess (length files) (sum_list (qa_count <$> files)) files,
       load_directory help_dir)
    ∧ Forall (λ i, (1 ≤ qa_count i)%nat) files.
Proof.
  destruct (list_available_faqs_totals (parse_files help_dir) [] (or_introl eq_refl))
    as (files & H1 & _ & H2 & _).
  by exists files.
Defined.

Lemma entries_of_None (kb : KnowledgeBase) (name : string) :
  entries_of kb name = None ↔ name ∉ (fst <$> kb).
Proof.
  induction kb as [|f kb IH]; [split; [by intros _ ?%elem_of_nil | done] |].
  cbn [entries_of fmap list_fmap]. rewrite not_elem_of_cons.
  destruct (String.eqb f.1 name) eqn:E.
  - apply String.eqb_eq in E. split; [done | by intros [? _]].
  - apply String.eqb_neq in E. rewrite IH. split; [by intros ? | by intros [_ ?]].
Qed.

Lemma entries_of_Some (kb : KnowledgeBase) (name : string) (es : list Entry) :
  entries_of kb name = Some es → (name, es) ∈ kb.
Proof.
  induction kb as [|f kb IH]; [done |]. cbn [entries_of].
  destruct (String.eqb f.1 name) eqn:E.
  - apply String.eqb_eq in E. intros [= <-]. subst name. destruct f. by left.
  - intros H. right. by apply IH.
Qed.

(** X15.  On loaded content [extract_answer_from_file] returns nothing
    exactly for the names that are not names of loaded files; for a
    loaded file it returns the answer of an entry that stands first in a
    file of that name, whatever the query. *)
Theorem extract_answer_from_loaded (parsed : list (string * list Entry))
    (name query : string) :
  let kb := load_all_faqs parsed in
  (extract_answer_from_file kb name query = None ↔ name ∉ (fst <$> kb))
  ∧ (∀ a, extract_answer_from_file kb name query = Some a →
       ∃ qa rest, (name, qa :: rest) ∈ kb ∧ a = ContentManager.answer qa)
  ∧ (∀ other, extract_answer_from_file kb name other
              = extract_answer_from_file kb name query).
Proof.
  cbv zeta. unfold extract_answer_from_file. split; [| split; [| done]].
  - rewrite <- entries_of_None.
    destruct (entries_of (load_all_faqs parsed) name) as [es|] eqn:E; [| done].
    apply entries_of_Some, load_all_faqs_elem in E as [_ Hne].
    cbn [snd] in Hne. destruct es; [done |]. split; discriminate.
  - intros a. destruct (entries_of (load_all_faqs parsed) name) as [es|] eqn:E;
      [| done].
    apply entries_of_Some in E. destruct es as [|qa rest]; [done |].
    intros [= <-]. by exists qa, rest.
Qed.

End Summaries.

(** ** The interaction log *)

Section Interactions.
Import FileStats InteractionLog.

Lemma count_first_None (name : string) (today : Z) (ok : bool) (now : Z)
    (table : list FaqFileStat) :
  count_first name today ok now table = None
  ↔ existsb (of_today name today) table = false.
Proof.
  induction table as [|r table IH]; [done |]. cbn [count_first existsb].
  destruct (of_today name today r); [done |]. cbn [orb].
  destruct (count_first name today ok now table); [| by rewrite <- IH].
  split; [done |]. intros H. apply IH in H. done.
Qed.

Lemma count_first_Some (name : string) (today : Z) (ok : bool) (now : Z)
    (table table' : list FaqFileStat) :
  count_first name today ok now table = Some table' →
  ∃ pre r post,
    table = pre ++ r :: post ∧ table' = pre ++ count ok now r :: post
    ∧ file_name r = name ∧ (today <= FileStats.timestamp r)%Z
    ∧ existsb (of_today name today) pre = false.
Proof.
  revert table'. induction table as [|x table IH]; intros table'; [done |].
  cbn [count_first]. destruct (of_today name today x) eqn:Ex.
  - intros [= <-]. exists [], x, table. unfold of_today in Ex.
    apply andb_true_iff in Ex as [E1%String.eqb_eq E2%Z.leb_le]. by repeat split.
  - destruct (count_first name today ok now table) as [rest|]; [| done].
    intros [= <-]. destruct (IH rest eq_refl) as (pre & r & post & -> & -> & ? & ? & Hpre).
    exists (x :: pre), r, post. repeat split; try done.
    cbn [existsb]. by rewrite Ex, Hpre.
Qed.

Lemma queries_of_app (name : string) (a b : list FaqFileStat) :
  queries_of name (a ++ b) = (queries_of name a + queries_of name b)%Z.
Proof.
  induction a as [|x a IH]; [done |]. cbn [app queries_of foldr].
  fold (queries_of name (a ++ b)). fold (queries_of name a). rewrite IH.
  destruct (String.eqb _ _); lia.
Qed.

Lemma successes_of_app (name : string) (a b : list FaqFileStat) :
  successes_of name (a ++ b) = (successes_of name a + successes_of name b)%Z.
Proof.
  induction a as [|x a IH]; [done |]. cbn [app successes_of foldr].
  fold (successes_of name (a ++ b)). fold (successes_of name a). rewrite IH.
  destruct (String.eqb _ _); lia.
Qed.

Lemma queries_of_one (name : string) (r : FaqFileStat) (post : list FaqFileStat) :
  queries_of name (r :: post)
  = ((if String.eqb (file_name r) name then total_queries r else 0)
     + queries_of name post)%Z.
Proof. cbn [queries_of foldr]. destruct (String.eqb _ _); reflexivity. Qed.

Lemma successes_of_one (name : string) (r : FaqFileStat) (post : list FaqFileStat) :
  successes_of name (r :: post)
  = ((if String.eqb (file_name r) name then successful_queries r else 0)
     + successes_of name post)%Z.
Proof. cbn [successes_of foldr]. destruct (String.eqb _ _); reflexivity. Qed.

(** What a run of [_update_faq_file_stats] without exception does to the
    counts of the files. *)
Lemma update_counts (today now db_now : Z) (table : list FaqFileStat)
    (name : string) (ok : bool) :
  let out := (_update_faq_file_stats None today now db_now table name ok).1 in
  ∀ other,
    queries_of other out
    = (queries_of other table + (if String.eqb name other then 1 else 0))%Z
    ∧ successes_of other out
      = (successes_of other table
         + (if String.eqb name other && ok then 1 else 0))%Z.
Proof.
  cbv zeta. intros other. unfold _update_faq_file_stats.
  destruct (count_first name today ok now table) as [table'|] eqn:E; cbn [fst].
  - apply count_first_Some in E as (pre & r & post & -> & -> & Hn & _).
    rewrite !queries_of_app, !successes_of_app, !queries_of_one, !successes_of_one.
    cbn [file_name total_queries successful_queries count]. rewrite Hn.
    destruct (String.eqb name other), ok; cbn [andb]; split; lia.
  - rewrite queries_of_app, successes_of_app, !queries_of_one, !successes_of_one.
    cbn [file_name total_queries successful_queries count fresh queries_of
         successes_of foldr].
    destruct (String.eqb name other), ok; cbn [andb]; split; lia.
Qed.

Lemma update_length (today now db_now : Z) (table : list FaqFileStat)
    (name : string) (ok : bool) :
  length (_update_faq_file_stats None today now db_now table name ok).1
  = (length table
     + (if existsb (of_today name today) table then 0 else 1))%nat.
Proof.
  unfold _update_faq_file_stats.
  destruct (count_first name today ok now table) as [table'|] eqn:E; cbn [fst].
  - assert (existsb (of_today name today) table = true) as ->.
    { destruct (existsb _ table) eqn:Ex; [done |].
      apply count_first_None with (ok := ok) (now := now) in Ex. congruence. }
    apply count_first_Some in E as (pre & r & post & -> & -> & _).
    rewrite !length_app. simpl. lia.
  - apply count_first_None in E as ->. rewrite length_app. simpl. lia.
Qed.

Lemma update_sound (fault : option string) (today now db_now : Z)
    (table : list FaqFileStat) (name : string) (ok : bool) :
  Forall sound_stat table →
  Forall sound_stat
    (_update_faq_file_stats fault today now db_now table name ok).1.
Proof.
  intros Ht. unfold _update_faq_file_stats. destruct fault; [done |].
  assert (Hcount : ∀ r, sound_stat r → sound_stat (count ok now r)).
  { intros r [H0 H1]. unfold sound_stat.
    cbn [count successful_queries total_queries]. destruct ok; lia. }
  destruct (count_first name today ok now table) as [table'|] eqn:E; cbn [fst].
  - apply count_first_Some in E as (pre & r & post & -> & -> & _).
    apply Forall_app in Ht as [Hpre Hpost]. apply Forall_cons in Hpost as [Hr Hpost].
    apply Forall_app. split; [done |]. apply Forall_cons. split; [| done].
    by apply Hcount.
  - apply Forall_app. split; [done |]. apply Forall_cons. split; [| constructor].
    apply Hcount. unfold sound_stat. cbn. lia.
Qed.

Lemma success_rate_range (r : FaqFileStat) :
  sound_stat r → (0 <= success_rate r)%Q ∧ (success_rate r <= 100)%Q.
Proof.
  intros [H0 H1]. unfold success_rate.
  destruct (0 <? total_queries r)%Z eqn:Hpos; [| split; discriminate].
  apply Z.ltb_lt in Hpos.
  assert (0 < inject_Z (total_queries r))%Q as Hq.
  { unfold Qlt. simpl. lia. }
  split.
  - apply Qmult_le_0_compat; [| discriminate].
    apply Qle_shift_div_l; [done |]. rewrite Qmult_0_l.
    unfold Qle. simpl. lia.
  - apply (Qle_trans _ (1 * 100)); [| discriminate].
    apply Qmult_le_compat_r; [| discriminate].
    apply Qle_shift_div_r; [done |]. rewrite Qmult_1_l.
    unfold Qle. simpl. lia.
Qed.

(** The statistics after a call of [log_faq_interaction]. *)
Lemma log_faq_interaction_stats (db : Database) (now today stats_now db_now : Z)
    (data : InteractionData) :
  file_stats (log_faq_interaction db now today stats_now db_now data).1.2
  = match interaction_fault db, d_source_file data with
    | None, Some file =>
        if truthy file
        then (_update_faq_file_stats (stats_fault db) today stats_now db_now
                (file_stats db) file
                (bool_decide (d_status data = Some "success"))).1
        else file_stats db
    | _, _ => file_stats db
    end.
Proof.
  unfold log_faq_interaction. destruct (interaction_fault db); [done |].
  destruct (d_source_file data) as [file|]; [| done].
  destruct (truthy file); [| done].
  by destruct (_update_faq_file_stats _ _ _ _ _ _ _).
Qed.

Lemma log_faq_interaction_ok (db : Database) (now today stats_now db_now : Z)
    (data : InteractionData) :
  interaction_fault db = None →
  let out := log_faq_interaction db now today stats_now db_now data in
  out.1.1 = true
  ∧ ∃ i, interactions out.1.2 = interactions db ++ [i]
         ∧ status i = default "unknown" (d_status data)
         ∧ query_text i = default EmptyString (d_query_text data)
         ∧ source_file i = d_source_file data
         ∧ InteractionLog.timestamp i = now.
Proof.
  intros Hi. cbv zeta. unfold log_faq_interaction. rewrite Hi.
  destruct (d_source_file data) as [file|];
    [destruct (truthy file);
       [destruct (_update_faq_file_stats _ _ _ _ _ _ _) |] |];
    (split; [done |]); eexists; (split; [reflexivity | done]).
Qed.

(** X16.  Every logged interaction that names a file is counted exactly
    once, for that file only: with the database reachable the queries
    counted for the file rise by one, its successes by one exactly when
    the status is [success], the counts of every other file stay, and a
    row is added exactly when the file has no row of today. *)
Theorem interaction_counted_once (db : Database) (now today stats_now db_now : Z)
    (data : InteractionData) (file : string) :
  interaction_fault db = None → stats_fault db = None →
  d_source_file data = Some file → file ≠ EmptyString →
  let out := log_faq_interaction db now today stats_now db_now data in
  let is_success := bool_decide (d_status data = Some "success") in
  out.1.1 = true
  ∧ queries_of file (file_stats out.1.2)
    = (queries_of file (file_stats db) + 1)%Z
  ∧ successes_of file (file_stats out.1.2)
    = (successes_of file (file_stats db) + (if is_success then 1 else 0))%Z
  ∧ (∀ other, other ≠ file →
       queries_of other (file_stats out.1.2) = queries_of other (file_stats db)
       ∧ successes_of other (file_stats out.1.2)
         = successes_of other (file_stats db))
  ∧ length (file_stats out.1.2)
    = (length (file_stats db)
       + (if existsb (of_today file today) (file_stats db) then 0 else 1))%nat.
Proof.
  intros Hi Hs Hf Hne. cbv zeta.
  rewrite log_faq_interaction_stats, Hi, Hf, Hs.
  assert (truthy file = true) as -> by by destruct file.
  split; [by apply log_faq_interaction_ok |].
  pose proof (update_counts today stats_now db_now (file_stats db) file
                (bool_decide (d_status data = Some "success"))) as Hc.
  cbv zeta in Hc.
  destruct (Hc file) as [Hq Hsucc]. rewrite String.eqb_refl in Hq, Hsucc.
  split; [done |]. split; [done |]. split; [| apply update_length].
  intros other Ho. destruct (Hc other) as [Hq' Hs'].
  assert (String.eqb file other = false) as E by (apply String.eqb_neq; congruence).
  rewrite E in Hq', Hs'. cbn [andb] in Hs'. split; lia.
Qed.

Lemma interaction_counted_once_witness :
  queries_of "account.txt"
    (file_stats (log_faq_interaction one_stat 129 100 130 131 answered).1.2) = 4%Z
  ∧ length (file_stats (log_faq_interaction one_stat 129 100 130 131 answered).1.2)
    = 2%nat.
Proof.
  pose proof (interaction_counted_once one_stat 129 100 130 131 answered "account.txt"
                eq_refl eq_refl eq_refl ltac:(discriminate)) as H.
  cbv zeta in H. destruct H as (_ & Hq & _ & _ & Hl). by split.
Defined.

(** X17.  A failure of the statistics never fails the logging, and a
    failure of the logging leaves everything as it was: the call returns
    [True] exactly when the interaction was committed, which adds one row
    to [faq_interactions] with the status given ([unknown] without one);
    when it returns [False] the database is unchanged; and when the
    statistics session raises, or no file is named, the statistics are
    unchanged. *)
Theorem log_faq_interaction_outcome (db : Database) (now today stats_now db_now : Z)
    (data : InteractionData) :
  let out := log_faq_interaction db now today stats_now db_now data in
  (out.1.1 = true ↔ interaction_fault db = None)
  ∧ (out.1.1 = false → out.1.2 = db)
  ∧ (out.1.1 = true →
     ∃ i, interactions out.1.2 = interactions db ++ [i]
          ∧ status i = default "unknown" (d_status data)
          ∧ query_text i = default EmptyString (d_query_text data)
          ∧ source_file i = d_source_file data
          ∧ InteractionLog.timestamp i = now)
  ∧ (stats_fault db ≠ None ∨ d_source_file data = None
     ∨ d_source_file data = Some EmptyString →
     file_stats out.1.2 = file_stats db).
Proof.
  cbv zeta. split; [| split; [| split]].
  - destruct (interaction_fault db) as [e|] eqn:Hi.
    + unfold log_faq_interaction. by rewrite Hi.
    + by destruct (log_faq_interaction_ok db now today stats_now db_now data Hi) as [-> _].
  - destruct (interaction_fault db) as [e|] eqn:Hi.
    + unfold log_faq_interaction. by rewrite Hi.
    + by destruct (log_faq_interaction_ok db now today stats_now db_now data Hi) as [-> _].
  - destruct (interaction_fault db) as [e|] eqn:Hi.
    + unfold log_faq_interaction. by rewrite Hi.
    + intros _. by destruct (log_faq_interaction_ok db now today stats_now db_now data Hi).
  - rewrite log_faq_interaction_stats. destruct (interaction_fault db); [done |].
    intros [Hs | [-> | ->]]; [| done | done].
    destruct (d_source_file data) as [file|]; [| done].
    destruct (truthy file); [| done]. unfold _update_faq_file_stats.
    by destruct (stats_fault db).
Qed.

(** X18.  The statistics stay sound: when in every row the successes are
    counted among the queries, this holds after any call of
    [log_faq_interaction], and the success rate of every row then lies
    between 0 and 100. *)
Theorem stats_stay_sound (db : Database) (now today stats_now db_now : Z)
    (data : InteractionData) :
  Forall sound_stat (file_stats db) →
  let out := log_faq_interaction db now today stats_now db_now data in
  Forall sound_stat (file_stats out.1.2)
  ∧ Forall (λ r, (0 <= success_rate r)%Q ∧ (success_rate r <= 100)%Q)
           (file_stats out.1.2).
Proof.
  intros Hdb. cbv zeta.
  assert (Forall sound_stat
            (file_stats (log_faq_interaction db now today stats_now db_now data).1.2)) as H.
  { rewrite log_faq_interaction_stats. destruct (interaction_fault db); [done |].
    destruct (d_source_file data) as [file|]; [| done].
    destruct (truthy file); [| done]. by apply update_sound. }
  split; [done |]. eapply Forall_impl; [exact H |]. apply success_rate_range.
Qed.

Lemma stats_stay_sound_witness :
  Forall sound_stat (file_stats one_stat)
  ∧ Forall sound_stat
      (file_stats (log_faq_interaction one_stat 129 100 130 131 answered).1.2).
Proof.
  assert (H : Forall sound_stat (file_stats one_stat)).
  { repeat constructor; unfold sound_stat; cbn; lia. }
  split; [exact H |].
  exact (proj1 (stats_stay_sound one_stat 129 100 130 131 answered H)).
Defined.

End Interactions.

(** ** One row a day *)

Section Daily.
Import FileStats.

Lemma filter_app_bool {A} (p : A → bool) (a b : list A) :
  List.filter p (a ++ b) = List.filter p a ++ List.filter p b.
Proof.
  induction a as [|x a IH]; [done |]. cbn [app List.filter].
  destruct (p x); [by rewrite <- app_comm_cons, IH | done].
Qed.

Lemma no_row_of_today (name : string) (today : Z) (table : list FaqFileStat) :
  existsb (of_today name today) table = false →
  name ∉ (file_name <$> List.filter (dated_today today) table).
Proof.
  intros Hex (r & Hname & Hin)%list_elem_of_fmap.
  apply list_elem_of_In, filter_In in Hin as [Hin Hd].
  assert (existsb (of_today name today) table = true) as Hyes; [| congruence].
  apply existsb_exists. exists r. split; [done |].
  unfold of_today. unfold dated_today in Hd.
  by rewrite Hd, Hname, String.eqb_refl.
Qed.

(** X21.  For each file the table keeps at most one row dated today,
    whatever the clocks show; and when the clock of the database is not
    behind the first instant of today, the table holds after the update a
    row of today for the file, last updated at this update. *)
Theorem one_row_a_day_kept (fault : option string) (today now db_now : Z)
    (table : list FaqFileStat) (name : string) (is_success : bool) :
  one_row_a_day today table →
  let out := (_update_faq_file_stats fault today now db_now table name
                is_success).1 in
  one_row_a_day today out
  ∧ (fault = None → (today <= db_now)%Z →
     ∃ r, r ∈ out ∧ of_today name today r = true ∧ last_updated r = now).
Proof.
  intros Hone. cbv zeta. unfold _update_faq_file_stats.
  destruct fault as [e|]; [done |].
  destruct (count_first name today is_success now table) as [table'|] eqn:E;
    cbn [fst].
  - apply count_first_Some in E as (pre & r & post & -> & -> & Hn & Ht & _).
    unfold one_row_a_day in *.
    rewrite filter_app_bool in *. cbn [List.filter] in *.
    change (dated_today today (count is_success now r)) with (dated_today today r).
    split.
    + destruct (dated_today today r); [| done].
      by rewrite fmap_app in *.
    + intros _ _. exists (count is_success now r).
      split; [apply elem_of_app; right; by left |].
      split; [| done].
      unfold of_today. cbn [file_name timestamp count].
      apply andb_true_iff. split; [by apply String.eqb_eq | by apply Z.leb_le].
  - apply count_first_None in E.
    set (new := count is_success now (fresh table db_now name)).
    split.
    + unfold one_row_a_day in *. rewrite filter_app_bool. cbn [List.filter].
      destruct (dated_today today new); [| by rewrite app_nil_r].
      rewrite fmap_app. apply NoDup_app. split; [done |]. split.
      * intros f Hf Hk. cbn [fmap list_fmap] in Hk.
        apply list_elem_of_singleton in Hk. subst f.
        by apply (no_row_of_today name today table).
      * apply NoDup_singleton.
    + intros _ Hclock. exists new.
      split; [apply elem_of_app; right; by left |].
      split; [| done].
      unfold of_today. cbn [file_name timestamp count fresh new].
      apply andb_true_iff. split; [by apply String.eqb_eq | by apply Z.leb_le].
Qed.

Lemma one_row_a_day_kept_witness :
  one_row_a_day 100 (InteractionLog.file_stats one_stat)
  ∧ one_row_a_day 100
      (_update_faq_file_stats None 100 130 131
         (InteractionLog.file_stats one_stat) "account.txt" true).1.
Proof.
  assert (H : one_row_a_day 100 (InteractionLog.file_stats one_stat))
    by apply NoDup_nil_2.
  split; [exact H |].
  exact (proj1 (one_row_a_day_kept None 100 130 131
                  (InteractionLog.file_stats one_stat) "account.txt" true H)).
Defined.

End Daily.

(** ** The tools *)

Section Tools.
Import ContentManager Server ServerTools.

(** X22.  The dispatcher knows exactly the tools the server lists: a call
    is answered with [Unknown tool] exactly when its name is not the name
    of a listed tool; a call of [answer_faq] without arguments or without
    the key [query] is answered with the text about the missing
    parameter and leaves the content as it was; and a call that gives the
    required keys of a listed tool is never answered with that text. *)
Theorem listed_tools_are_handled (disk : Disk) (kb : KnowledgeBase)
    (tool : string) (arguments : option (gmap string string)) :
  let reply := handle_call_tool disk kb tool arguments in
  (tool ∈ (name <$> handle_list_tools)
   ↔ reply.1 ≠ ReplyText ("Error: Unknown tool '" +:+ tool +:+ "'"))
  ∧ (tool = "answer_faq" →
     (∀ args, arguments = Some args → args !! "query" = None) →
     reply = (ReplyText "Error: Missing 'query' parameter", kb))
  ∧ (∀ t args, t ∈ handle_list_tools → name t = tool →
       arguments = Some args →
       (∀ key, key ∈ required t → is_Some (args !! key)) →
       reply.1 ≠ ReplyText "Error: Missing 'query' parameter").
Proof.
  cbv zeta. unfold handle_call_tool.
  destruct (String.eqb tool "answer_faq") eqn:E1.
  { apply String.eqb_eq in E1. subst tool. split; [| split].
    - split; [| intros _; by left].
      intros _. destruct arguments as [args|]; [| discriminate].
      destruct (args !! "query") as [query|]; [| discriminate].
      by destruct (handle_query disk kb query) as [[? ?] ?].
    - intros _ Hno. destruct arguments as [args|]; [| done].
      by rewrite (Hno args eq_refl).
    - intros t args Ht Hn -> Hreq.
      assert (is_Some (args !! "query")) as [query ->].
      { apply Hreq.
        apply elem_of_cons in Ht as [-> | Ht]; [by left |].
        apply elem_of_cons in Ht as [-> | Ht]; [discriminate Hn |].
        apply list_elem_of_singleton in Ht as ->. discriminate Hn. }
      by destruct (handle_query disk kb query) as [[? ?] ?]. }
  destruct (String.eqb tool "list_faq_files") eqn:E2.
  { apply String.eqb_eq in E2. subst tool.
    destruct (list_available_faqs disk kb) as [result kb'].
    split; [| split]; [| discriminate | by intros].
    split; [by intros _ | intros _; right; by left]. }
  destruct (String.eqb tool "reload_faq_content") eqn:E3.
  { apply String.eqb_eq in E3. subst tool.
    destruct (reload_faqs disk kb) as [result kb'].
    split; [| split]; [| discriminate | by intros].
    split; [by intros _ | intros _; right; right; by left]. }
  apply String.eqb_neq in E1, E2, E3. split; [| split].
  - split; [| by intros H].
    intros [-> | [-> | [-> | []%elem_of_nil]%elem_of_cons]%elem_of_cons]%elem_of_cons;
      done.
  - by intros ->.
  - intros t args Ht Hn _ _. cbn [fst]. intros H. discriminate H.
Qed.

End Tools.

(** ** What the engine answers *)

Section Answers.
Import ReasoningEngine ContentManager Server.

Lemma extract_best_answer_sound (content_lines : list string)
    (query a : string) :
  _extract_best_answer content_lines query = Some a →
  a ≠ EmptyString ∧ ∃ qa, qa ∈ parse_qa content_lines ∧ a = qa.2.
Proof.
  destruct (parse_qa content_lines) as [|first rest] eqn:Hp.
  - by rewrite extract_no_entries.
  - destruct (extract_first_greatest _ query _ _ Hp) as (best & Hfg & -> & _).
    intros [= <-]. apply first_greatest_elem in Hfg.
    pose proof (parse_qa_filled content_lines) as Hfilled.
    rewrite Hp, Forall_forall in Hfilled. destruct (Hfilled _ Hfg) as [_ Ha].
    split; [by destruct best.2 | by exists best].
Qed.

(** The outcome of the analysis in terms of the running maximum. *)
Lemma analysis_running (query faq_content : string) :
  let st := running_best (section_score query) (sections_of faq_content) in
  let r := _simulate_claude_analysis query faq_content in
  best_match_file r = fst <$> st.1
  ∧ (decision r = ANSWER ↔ Qgtb st.2 (1 # 2) = true)
  ∧ ReasoningEngine.answer r
    = (if Qgtb st.2 (1 # 2)
       then st.1 ≫= λ f, _extract_best_answer f.2 (lower query)
       else None)
  ∧ (Qgtb st.2 (1 # 2) = false → analysis r = no_answer_text st.2).
Proof.
  cbv zeta. unfold _simulate_claude_analysis. rewrite scan_running.
  unfold scan_view.
  destruct (running_best (section_score query) (sections_of faq_content))
    as [[f|] m]; cbn [fst snd v_best_match_file v_best_match_score
                      v_best_answer v_reasoning];
    destruct (Qgtb m (1 # 2));
    cbn [best_match_file decision ReasoningEngine.answer analysis
         fmap option_fmap option_map mbind option_bind];
    (split; [done |]); (split; [by split |]); (split; [done |]);
    intros H; try discriminate H; reflexivity.
Qed.

(** X23.  Whatever the content block, an answer given by the analysis is
    never empty and is never made up: the decision is then ANSWER, the
    file named is a section of the block, and the answer is, as it
    stands, the answer of a pair read from the lines of that section. *)
Theorem analysis_answer_sound (query faq_content a : string) :
  let r := _simulate_claude_analysis query faq_content in
  ReasoningEngine.answer r = Some a →
  decision r = ANSWER
  ∧ a ≠ EmptyString
  ∧ ∃ f qa, f ∈ sections_of faq_content
            ∧ best_match_file r = Some f.1
            ∧ qa ∈ parse_qa f.2 ∧ a = qa.2.
Proof.
  cbv zeta.
  destruct (analysis_running query faq_content) as (Hfile & Hdec & Hans & _).
  rewrite Hans, Hfile.
  pose proof (running_best_spec (section_score query) (sections_of faq_content)) as Hb.
  unfold best_of in Hb.
  destruct (running_best (section_score query) (sections_of faq_content))
    as [[f|] m]; cbn [fst snd] in *.
  - destruct (Qgtb m (1 # 2)); [| done]. cbn. intros Ha.
    destruct Hb as (_ & _ & Hfg%first_greatest_elem).
    apply extract_best_answer_sound in Ha as (Hne & qa & Hqa & ->).
    split; [by apply Hdec |]. split; [done |]. by exists f, qa.
  - by destruct (Qgtb m (1 # 2)).
Qed.

Lemma analysis_answer_sound_witness :
  ReasoningEngine.answer
    (_simulate_claude_analysis "change password"
       (get_structured_content_for_claude account_kb))
  = Some "Use the settings page."
  ∧ decision
      (_simulate_claude_analysis "change password"
         (get_structured_content_for_claude account_kb)) = ANSWER.
Proof.
  assert (H : ReasoningEngine.answer
                (_simulate_claude_analysis "change password"
                   (get_structured_content_for_claude account_kb))
              = Some "Use the settings page.") by (vm_compute; reflexivity).
  split; [exact H |].
  exact (proj1 (analysis_answer_sound _ _ _ H)).
Defined.

Lemma lower_lower (s : string) : lower (lower s) = lower s.
Proof. apply lower_fixed, sall_lower. Qed.

Lemma running_best_zero {A} (score : A → Q) (l : list A) :
  (∀ x, score x = 0%Q) → running_best score l = (None, 0%Q).
Proof.
  intros Hz. unfold running_best.
  induction l as [|x l IH]; [done |]. cbn [foldl].
  unfold keep_better at 2. cbn [snd]. by rewrite Hz.
Qed.

(** X24.  A query without a letter, a digit or an underscore, such as
    ["???"], is never answered: whatever the content held, and it holds
    some, the response is the fixed text for no answer, with the best
    score 0.00 in the reasoning. *)
Theorem no_token_query_unanswered (disk : Disk) (kb : KnowledgeBase)
    (query : string) :
  ¬ is_blank query → word_set query = ∅ → kb ≠ [] →
  (handle_query disk kb query).1
  = (NoAnswer no_answer_message
       ("Could not find sufficiently relevant content. " +:+ no_answer_text 0),
     kb).
Proof.
  intros Hb Hw Hkb. unfold handle_query. rewrite guard_passes by done.
  destruct kb as [|f kb]; [done |]. clear Hkb.
  assert (Hzero : ∀ sec, section_score query sec = 0%Q).
  { intros sec. unfold section_score, _calculate_relevance_score.
    assert (word_set (lower query) = ∅) as ->; [| done].
    unfold word_set in *. by rewrite lower_lower. }
  unfold answer_from, analyze_query_against_faqs.
  destruct (analysis_running query (get_structured_content_for_claude (f :: kb)))
    as (_ & Hdec & _ & Htext).
  rewrite (running_best_zero _ _ Hzero) in Hdec, Htext. cbn [snd] in *.
  destruct Hdec as [Hdec _].
  destruct (decision _) eqn:Hd; [by specialize (Hdec eq_refl) |].
  cbn [fst snd]. unfold format_reasoning_for_user. rewrite Hd.
  by rewrite Htext.
Qed.

Lemma no_token_query_unanswered_witness :
  ¬ is_blank "???" ∧ word_set "???" = ∅
  ∧ (handle_query (Readable []) help_kb "???").1.1
    = NoAnswer no_answer_message
        ("Could not find sufficiently relevant content. " +:+ no_answer_text 0).
Proof.
  assert (H1 : ¬ is_blank "???") by (intros H; discriminate H).
  assert (H2 : word_set "???" = ∅) by (by vm_compute).
  split; [exact H1 |]. split; [exact H2 |].
  by rewrite (no_token_query_unanswered (Readable []) help_kb "???" H1 H2).
Defined.

End Answers.
